(** * A persistent 32-way trie vector with a tail buffer and a mutable builder

    Shallow embedding of [vector.go].  Go pointers are addresses into an
    explicit store, every function threads the store, and a Go panic is an
    error result that names its cause.  Nodes are shared between versions
    exactly as in the source, so the effect of an in-place write on every
    version holding the node is visible in the model. *)

From Stdlib Require Import ZArith Lia List.
From stdpp Require Import base option list pmap.

Local Open Scope Z_scope.

(** ** Machine integers

    Go's [int] is 64 bits wide on the platforms the package targets.  Sums,
    differences and left shifts wrap around; right shifts are arithmetic. *)

Definition min_int : Z := -9223372036854775808.
Definition max_int : Z := 9223372036854775807.

Definition wrap (x : Z) : Z :=
  if (min_int <=? x) && (x <=? max_int) then x
  else (x - min_int) mod 18446744073709551616 + min_int.
Definition add64 (a b : Z) : Z := wrap (a + b).
Definition sub64 (a b : Z) : Z := wrap (a - b).
Definition shl64 (a s : Z) : Z := wrap (Z.shiftl a s).

Definition bits : Z := 5.
Definition width : Z := 32.
Definition mask : Z := width - 1.

(** ** Store *)

Abbreviation addr := positive.

(** A [*node[T]]: [None] is the nil pointer. *)
Abbreviation ptr := (option addr).

(** Why a call panicked.  [OutOfBounds] is the explicit
    [panic("index out of bounds")]; the others are run-time panics of the
    language.  [Wild] (a pointer to an unallocated cell) and [Fuel] (a
    recursion cut short) cannot happen in Go and are shown never to arise
    where it matters. *)
Inductive panic :=
| OutOfBounds
| NilDeref
| BadAssert
| BadIndex
| BadSlice
| NegShift
| Wild
| Fuel.

Section Model.

(** The element type, a concrete (non-interface) Go type with its zero value. *)
Context {T : Type} (zeroT : T).

(** The dynamic value of an [any] slot: the nil interface, an element, a
    node pointer (the pointer itself may be nil: a non-nil interface holding a
    nil pointer), or the struct value [node[T]{}] that [popTail] stores. *)
Inductive slot :=
| SNil
| SVal (t : T)
| SPtr (p : ptr)
| SZeroNode.

Record node := Node { len : Z; array : list slot }.

Definition zero_array : list slot := replicate 32 SNil.
Definition zero_node : node := Node 0 zero_array.

Record heap := Heap { cells : Pmap node; next : positive }.

Definition empty_heap : heap := Heap ∅ 1%positive.

Inductive res (A : Type) :=
| Ok (a : A) (h : heap)
| Err (p : panic).
Global Arguments Ok {A} a h.
Global Arguments Err {A} p.

Definition M (A : Type) := heap → res A.

Definition ret {A} (a : A) : M A := λ h, Ok a h.
Definition fail {A} (p : panic) : M A := λ _, Err p.
Definition bind {A B} (m : M A) (k : A → M B) : M B :=
  λ h, match m h with Ok a h' => k a h' | Err p => Err p end.

Notation "'let!' x ':=' m 'in' k" := (bind m (λ x, k))
  (at level 10, x pattern, m at level 100, k at level 200).
Notation "m ';;' k" := (bind m (λ _, k))
  (at level 100, k at level 200, right associativity).

Definition upd (a : addr) (nd : node) (h : heap) : heap :=
  Heap (<[a := nd]> (cells h)) (next h).

Definition alloc (nd : node) (h : heap) : heap :=
  Heap (<[next h := nd]> (cells h)) (Pos.succ (next h)).

(** [*p] for reading. *)
Definition load (p : ptr) : M node := λ h,
  match p with
  | None => Err NilDeref
  | Some a => match cells h !! a with Some nd => Ok nd h | None => Err Wild end
  end.

(** [*p = nd]. *)
Definition store (p : ptr) (nd : node) : M unit := λ h,
  match p with
  | None => Err NilDeref
  | Some a =>
      match cells h !! a with
      | Some _ => Ok tt (upd a nd h)
      | None => Err Wild
      end
  end.

(** [&node[T]{...}]. *)
Definition new (nd : node) : M ptr := λ h,
  Ok (Some (next h)) (alloc nd h).

(** [n.array[k]] for [k] in [0, 32). *)
Definition get (nd : node) (k : Z) : slot := default SNil (array nd !! Z.to_nat k).

(** [n.array[k] = s] for [k] in [0, 32). *)
Definition put (nd : node) (k : Z) (s : slot) : node :=
  Node (len nd) (<[Z.to_nat k := s]> (array nd)).

(** [p.array[k] = s], through the pointer. *)
Definition poke (p : ptr) (k : Z) (s : slot) : M unit :=
  let! nd := load p in store p (put nd k s).

(** The assertion of a slot to a node pointer: panics unless the dynamic
    type is the node pointer type. *)
Definition as_node (s : slot) : M ptr :=
  match s with SPtr p => ret p | _ => fail BadAssert end.

(** [t, _ := x.(T)]: the zero value unless the dynamic type is [T]. *)
Definition as_elem (s : slot) : T :=
  match s with SVal t => t | _ => zeroT end.

(** [x != nil] on an interface value. *)
Definition non_nil (s : slot) : bool :=
  match s with SNil => false | _ => true end.

(** [x >> s]: a negative shift count panics. *)
Definition shr (x s : Z) : M Z :=
  if s <? 0 then fail NegShift else ret (Z.shiftr x s).

Definition shl (x s : Z) : M Z :=
  if s <? 0 then fail NegShift else ret (shl64 x s).

(** ** Nodes *)

Definition clone (n : ptr) : M ptr :=
  let! nd := load n in new (Node (len nd) (array nd)).

Definition newPathNode (n : ptr) : M ptr :=
  let! out := new (Node 1 zero_array) in
  poke out 0 (SPtr n);;
  ret out.

Fixpoint fill (p : ptr) (i : Z) (vs : list T) : M unit :=
  match vs with
  | [] => ret tt
  | v :: vs' =>
      (if (0 <=? i) && (i <? width) then poke p i (SVal v) else fail BadIndex);;
      fill p (i + 1) vs'
  end.

Definition newValueNode (vs : list T) : M ptr :=
  let! n := new (Node (Z.of_nat (length vs)) zero_array) in
  fill n 0 vs;;
  ret n.

(** ** Vector *)

Record Vector := mkVector { cnt : Z; shift : Z; root : ptr; tail : ptr }.

(** [Vector[T]{}]. *)
Definition zeroVector : Vector := mkVector 0 0 None None.

(** [v == (Vector[T]{})]. *)
Definition is_zero (v : Vector) : bool :=
  (cnt v =? 0) && (shift v =? 0) &&
  match root v, tail v with None, None => true | _, _ => false end.

Definition newVector : M Vector :=
  let! n := new zero_node in
  ret (mkVector 0 bits n n).

Definition Len (v : Vector) : Z := cnt v.

Definition tailoff (v : Vector) : Z :=
  if cnt v <? width then 0
  else shl64 (Z.shiftr (sub64 (cnt v) 1) bits) bits.

(** The loop of [nodeFor]. *)
Fixpoint descend (fuel : nat) (level : Z) (n : ptr) (i : Z) : M ptr :=
  if level >? 0 then
    match fuel with
    | O => fail Fuel
    | S fuel' =>
        let! nd := load n in
        let! c := as_node (get nd (Z.land (Z.shiftr i level) mask)) in
        descend fuel' (sub64 level bits) c i
    end
  else ret n.

Definition nodeFor (v : Vector) (i : Z) : M ptr :=
  if (i >=? 0) && (i <? cnt v) then
    if i >=? tailoff v then ret (tail v)
    else descend (Z.to_nat (shift v)) (shift v) (root v) i
  else fail OutOfBounds.

Definition At (v : Vector) (i : Z) : M T :=
  let! n := nodeFor v i in
  let! nd := load n in
  ret (as_elem (get nd (Z.land i mask))).

(** [doAssoc]: [ret := n] is the node itself, written in place. *)
Fixpoint doAssoc (fuel : nat) (level : Z) (n : ptr) (i : Z) (t : T) : M ptr :=
  if level =? 0 then
    poke n (Z.land i mask) (SVal t);;
    ret n
  else
    let! q := shr i level in
    let subidx := Z.land q mask in
    let! nd := load n in
    let! c := as_node (get nd subidx) in
    let! r :=
      match fuel with
      | O => fail Fuel
      | S fuel' => doAssoc fuel' (sub64 level bits) c i t
      end in
    poke n subidx (SPtr r);;
    ret n.

Fixpoint newPath (fuel : nat) (level : Z) (n : ptr) : M ptr :=
  if level <=? 0 then ret n
  else
    match fuel with
    | O => fail Fuel
    | S fuel' =>
        let! p := newPath fuel' (sub64 level bits) n in
        newPathNode p
    end.

(** Enough fuel for a recursion that starts at [level] and goes down by
    [bits] until it stops or panics. *)
Definition fuel_for (level : Z) : nat := S (Z.to_nat level).

(** [Vector.pushTail]: the parent is cloned. *)
Fixpoint pushTail (fuel : nat) (c : Z) (level : Z) (parent tailNode : ptr) : M ptr :=
  let! q := shr (sub64 c 1) level in
  let subidx := Z.land q mask in
  let! pd := load parent in
  let! r := clone parent in
  let! nodeToInsert :=
    if level =? bits then ret tailNode
    else
      let child := get pd subidx in
      if non_nil child then
        let! ch := as_node child in
        match fuel with
        | O => fail Fuel
        | S fuel' => pushTail fuel' c (sub64 level bits) ch tailNode
        end
      else newPath (fuel_for level) (sub64 level bits) tailNode in
  poke r subidx (SPtr nodeToInsert);;
  ret r.

Definition cons (v : Vector) (t : T) : M Vector :=
  let! v := (if is_zero v then newVector else ret v) in
  if sub64 (cnt v) (tailoff v) <? 32 then
    let! td := load (tail v) in
    let! newTail := clone (tail v) in
    let! nd := load newTail in
    store newTail (Node (add64 (len nd) 1) (array nd));;
    (if (0 <=? len td) && (len td <? width)
     then poke newTail (len td) (SVal t) else fail BadIndex);;
    ret (mkVector (add64 (cnt v) 1) (shift v) (root v) newTail)
  else
    let! newRoot := new zero_node in
    let! tailNode := clone (tail v) in
    let! lim := shl 1 (shift v) in
    let! rs :=
      if Z.shiftr (cnt v) bits >? lim then
        let! nd := load newRoot in
        store newRoot (Node (add64 (len nd) 2) (array nd));;
        poke newRoot 0 (SPtr (root v));;
        let! p := newPath (fuel_for (shift v)) (shift v) tailNode in
        poke newRoot 1 (SPtr p);;
        ret (newRoot, add64 (shift v) bits)
      else
        let! r := pushTail (fuel_for (shift v)) (cnt v) (shift v) (root v) tailNode in
        ret (r, shift v) in
    let! nt := newValueNode [t] in
    ret (mkVector (add64 (cnt v) 1) (snd rs) (fst rs) nt).

Definition Set_ (v : Vector) (index : Z) (t : T) : M Vector :=
  if (index >=? 0) && (index <? cnt v) then
    if index >=? tailoff v then
      let! newTail := clone (tail v) in
      poke newTail (Z.land index mask) (SVal t);;
      ret (mkVector (cnt v) (shift v) (root v) newTail)
    else
      let! r := doAssoc (fuel_for (shift v)) (shift v) (root v) index t in
      ret (mkVector (cnt v) (shift v) r (tail v))
  else if index =? cnt v then cons v t
  else fail OutOfBounds.

(** [Vector.popTail]. *)
Fixpoint popTail (fuel : nat) (c : Z) (level : Z) (n : ptr) : M ptr :=
  let! q := shr (sub64 c 2) level in
  let subidx := Z.land q mask in
  if level >? bits then
    match fuel with
    | O => fail Fuel
    | S fuel' =>
        let! nd := load n in
        let! ch := as_node (get nd subidx) in
        let! newChild := popTail fuel' c (sub64 level bits) ch in
        match newChild with
        | None =>
            if subidx =? 0 then ret None
            else
              let! r := clone n in
              poke r subidx (SPtr newChild);;
              ret r
        | Some _ =>
            let! r := clone n in
            poke r subidx (SPtr newChild);;
            ret r
        end
    end
  else if subidx =? 0 then ret None
  else
    let! r := clone n in
    poke r subidx SZeroNode;;
    ret r.

(** [copy(newTail.array[:n], src.array[:])]. *)
Definition copy_prefix (n : Z) (src : list slot) (dst : list slot) : list slot :=
  take (Z.to_nat n) src ++ drop (Z.to_nat n) dst.

Definition Pop (v : Vector) : M Vector :=
  if cnt v <=? 1 then ret zeroVector
  else if sub64 (cnt v) (tailoff v) >? 1 then
    let! td := load (tail v) in
    let n := sub64 (len td) 1 in
    let! newTail := new (Node n zero_array) in
    (if (0 <=? n) && (n <=? width) then ret tt else fail BadSlice);;
    let! sd := load (tail v) in
    let! nd := load newTail in
    store newTail (Node (len nd) (copy_prefix n (array sd) (array nd)));;
    ret (mkVector (sub64 (cnt v) 1) (shift v) (root v) newTail)
  else
    let! newTail := nodeFor v (sub64 (cnt v) 2) in
    let! r := popTail (fuel_for (shift v)) (cnt v) (shift v) (root v) in
    let! newRoot := (match r with None => new zero_node | Some _ => ret r end) in
    let! nd := load newRoot in
    let! rs :=
      if (shift v >? bits) && negb (non_nil (get nd 1)) then
        let! newRoot' :=
          (if negb (non_nil (get nd 0)) then new zero_node else ret newRoot) in
        ret (newRoot', sub64 (shift v) bits)
      else ret (newRoot, shift v) in
    ret (mkVector (sub64 (cnt v) 1) (snd rs) (fst rs) newTail).

(** ** Builder *)

Record Builder := mkBuilder { bcnt : Z; bshift : Z; broot : ptr; btail : ptr }.

Definition NewBuilder : M Builder :=
  let! vec := newVector in
  ret (mkBuilder (cnt vec) (shift vec) (root vec) (tail vec)).

(** [Builder.Vector]. *)
Definition finish (b : Builder) : Vector :=
  mkVector (bcnt b) (bshift b) (broot b) (btail b).

Definition btailoff (b : Builder) : Z := tailoff (finish b).

Definition BLen (b : Builder) : Z := bcnt b.

Definition transient (v : Vector) : M Builder :=
  let! v := (if is_zero v then newVector else ret v) in
  let! r := clone (root v) in
  let! t := clone (tail v) in
  ret (mkBuilder (cnt v) (shift v) r t).

(** [Builder.pushTail]: [ret := parent], written in place. *)
Fixpoint bpushTail (fuel : nat) (c : Z) (level : Z) (parent tailNode : ptr) : M ptr :=
  let! q := shr (sub64 c 1) level in
  let subidx := Z.land q mask in
  let! nodeToInsert :=
    if level =? bits then ret tailNode
    else
      let! pd := load parent in
      let child := get pd subidx in
      if non_nil child then
        let! ch := as_node child in
        match fuel with
        | O => fail Fuel
        | S fuel' => bpushTail fuel' c (sub64 level bits) ch tailNode
        end
      else newPath (fuel_for level) (sub64 level bits) tailNode in
  poke parent subidx (SPtr nodeToInsert);;
  ret parent.

Definition Cons (b : Builder) (val : T) : M Builder :=
  if sub64 (bcnt b) (btailoff b) <? 32 then
    poke (btail b) (Z.land (bcnt b) mask) (SVal val);;
    let! td := load (btail b) in
    store (btail b) (Node (add64 (len td) 1) (array td));;
    ret (mkBuilder (add64 (bcnt b) 1) (bshift b) (broot b) (btail b))
  else
    let! newRoot := new zero_node in
    let! tailNode := clone (btail b) in
    let! nt := newValueNode [val] in
    let! lim := shl 1 (bshift b) in
    let! rs :=
      if Z.shiftr (bcnt b) bits >? lim then
        let! nd := load newRoot in
        store newRoot (Node (add64 (len nd) 2) (array nd));;
        poke newRoot 0 (SPtr (broot b));;
        let! p := newPath (fuel_for (bshift b)) (bshift b) tailNode in
        poke newRoot 1 (SPtr p);;
        ret (newRoot, add64 (bshift b) 5)
      else
        let! r := bpushTail (fuel_for (bshift b)) (bcnt b) (bshift b) (broot b) tailNode in
        ret (r, bshift b) in
    ret (mkBuilder (add64 (bcnt b) 1) (snd rs) (fst rs) nt).

(** [Builder.Append]. *)
Fixpoint BAppend (b : Builder) (ts : list T) : M Builder :=
  match ts with
  | [] => ret b
  | val :: ts' => let! b' := Cons b val in BAppend b' ts'
  end.

(** [Vector.Append]. *)
Definition Append (v : Vector) (ts : list T) : M Vector :=
  match ts with
  | [] => ret v
  | [t] => cons v t
  | head :: ts' =>
      let! v1 := cons v head in
      let! b := transient v1 in
      let! b' := BAppend b ts' in
      ret (finish b')
  end.

Definition New (items : list T) : M Vector :=
  match items with
  | [] => ret zeroVector
  | _ =>
      let! trans := transient zeroVector in
      let! trans' := BAppend trans items in
      ret (finish trans')
  end.

End Model.

(** * Arithmetic of the addressing *)

(** Linear arithmetic with division and remainder by constants. *)
Ltac dlia := Z.div_mod_to_equations; lia.

Lemma wrap_id x : min_int ≤ x ≤ max_int → wrap x = x.
Proof.
  intros [H1 H2]. unfold wrap.
  destruct (Z.leb_spec min_int x); [|lia].
  destruct (Z.leb_spec x max_int); [|lia]. reflexivity.
Qed.

Lemma add64_id a b : min_int ≤ a + b ≤ max_int → add64 a b = a + b.
Proof. apply wrap_id. Qed.

Lemma sub64_id a b : min_int ≤ a - b ≤ max_int → sub64 a b = a - b.
Proof. apply wrap_id. Qed.

Lemma shiftr5 x : Z.shiftr x 5 = x / 32.
Proof. rewrite Z.shiftr_div_pow2 by lia. reflexivity. Qed.

Lemma shiftl5 x : Z.shiftl x 5 = 32 * x.
Proof. rewrite Z.shiftl_mul_pow2 by lia. change (2 ^ 5) with 32. lia. Qed.

Lemma land_mask x : Z.land x mask = x mod 32.
Proof. change mask with (Z.ones 5). rewrite Z.land_ones by lia. reflexivity. Qed.

(** [pre x d] drops [5 * d] low bits: the prefix of [x] at depth [d]. *)
Definition pre (x : Z) (d : nat) : Z := Z.shiftr x (5 * Z.of_nat d).

Lemma pre_0 x : pre x 0 = x.
Proof. unfold pre. simpl. apply Z.shiftr_0_r. Qed.

Lemma pre_S x d : pre x (S d) = pre x d / 32.
Proof.
  unfold pre. replace (5 * Z.of_nat (S d)) with (5 * Z.of_nat d + 5) by lia.
  rewrite <- Z.shiftr_shiftr by lia. apply shiftr5.
Qed.

Lemma pre_mono x y d : x ≤ y → pre x d ≤ pre y d.
Proof.
  intros H. induction d as [|d IH]; [by rewrite !pre_0|].
  rewrite !pre_S. apply Z.div_le_mono; lia.
Qed.

Lemma pre_succ x d : pre (x + 1) d ≤ pre x d + 1.
Proof.
  induction d as [|d IH]; [rewrite !pre_0; lia|].
  rewrite !pre_S.
  pose proof (pre_mono x (x + 1) d ltac:(lia)).
  dlia.
Qed.

Lemma pre_nonneg x d : 0 ≤ x → 0 ≤ pre x d.
Proof. intros H. unfold pre. apply Z.shiftr_nonneg. done. Qed.

Lemma pre_neg d : pre (-1) d = -1.
Proof. induction d as [|d IH]; [apply pre_0|]. rewrite pre_S, IH. reflexivity. Qed.

(** The level of a node at depth [d]. *)
Definition lvl (d : nat) : Z := Z.of_nat d * 5.

Lemma pre_level x d : Z.shiftr x (lvl (S d)) = pre (x / 32) d.
Proof.
  unfold pre, lvl. rewrite <- shiftr5, Z.shiftr_shiftr by lia. f_equal. lia.
Qed.

Lemma pow_shift (d : nat) : Z.shiftl 1 (lvl d) = 2 ^ lvl d.
Proof. unfold lvl. rewrite Z.shiftl_mul_pow2 by lia. lia. Qed.

Lemma pre_ge_1 t d : 0 ≤ t → (1 ≤ pre t d ↔ 2 ^ lvl d ≤ t).
Proof.
  intros Ht. unfold pre, lvl. rewrite Z.shiftr_div_pow2 by lia.
  replace (5 * Z.of_nat d) with (Z.of_nat d * 5) by lia.
  assert (0 < 2 ^ (Z.of_nat d * 5)) by (apply Z.pow_pos_nonneg; lia).
  split; intros.
  - apply Z.nlt_ge. intros Hlt. rewrite Z.div_small in H0 by lia. lia.
  - apply Z.div_le_lower_bound; lia.
Qed.

(** * Stores and steps *)

Section Proofs.

Context {T : Type} (zeroT : T).

Local Abbreviation heap := (@heap T).
Local Abbreviation node := (@node T).
Local Abbreviation slot := (@slot T).
Local Abbreviation res := (@res T).
Local Abbreviation M := (@M T).

Implicit Types (h : heap) (nd : node) (a b c : addr) (v : Vector) (f : Z → T).

Lemma cells_upd a nd h b :
  cells (upd a nd h) !! b = if decide (a = b) then Some nd else cells h !! b.
Proof. unfold upd; simpl. apply lookup_insert. Qed.

Lemma cells_alloc nd h b :
  cells (alloc nd h) !! b = if decide (next h = b) then Some nd else cells h !! b.
Proof. unfold alloc; simpl. apply lookup_insert. Qed.

Lemma load_ok a nd h : cells h !! a = Some nd → load (Some a) h = Ok nd h.
Proof. intros H. unfold load. by rewrite H. Qed.

Lemma store_ok a nd nd' h :
  cells h !! a = Some nd → store (Some a) nd' h = Ok tt (upd a nd' h).
Proof. intros H. unfold store. by rewrite H. Qed.

Lemma poke_ok a nd k s h :
  cells h !! a = Some nd → poke (Some a) k s h = Ok tt (upd a (put nd k s) h).
Proof.
  intros H. unfold poke, bind. rewrite (load_ok a nd h H). by apply store_ok with nd.
Qed.

Lemma clone_ok a nd h :
  cells h !! a = Some nd → clone (Some a) h = Ok (Some (next h)) (alloc nd h).
Proof.
  intros H. unfold clone, bind. rewrite (load_ok a nd h H). by destruct nd.
Qed.

Lemma array_put nd k s j :
  array (put nd k s) !! j =
    if decide (Z.to_nat k = j ∧ (j < length (array nd))%nat) then Some s else array nd !! j.
Proof.
  unfold put; simpl. case_decide as Hd.
  - destruct Hd as [-> Hl]. by apply list_lookup_insert_eq.
  - destruct (decide (Z.to_nat k = j)) as [Heq|Hne].
    + rewrite list_insert_ge; [done|]. lia.
    + by apply list_lookup_insert_ne.
Qed.

Lemma length_put nd k s : length (array (put nd k s)) = length (array nd).
Proof. unfold put; simpl. apply length_insert. Qed.

Lemma len_put nd k s : len (put nd k s) = len nd.
Proof. reflexivity. Qed.

Lemma get_lookup nd k s : array nd !! Z.to_nat k = Some s → get nd k = s.
Proof. intros H. unfold get. by rewrite H. Qed.

Lemma put_same nd k s : array nd !! Z.to_nat k = Some s → put nd k s = nd.
Proof.
  intros H. unfold put. destruct nd as [l arr]; simpl in *. f_equal.
  by apply list_insert_id.
Qed.

Lemma upd_same a nd h : cells h !! a = Some nd → upd a nd h = h.
Proof.
  intros H. unfold upd. destruct h as [cs nx]; simpl in *. f_equal.
  by apply insert_id.
Qed.

(** * The representation invariant

    A ghost labelling gives every trie node its depth and its prefix (the
    index of its first leaf with the low [5 * depth] bits dropped).  One
    address has one label, so the trie is a tree: a node is never reached
    along two different paths.  [t] is the number of leaves in the trie; the
    node with prefix [q] at depth [d] is in use when [q ≤ pre (t - 1) d].
    With [s = true] the unused slots of nodes at depth two and above are
    nil interfaces, which is what [pushTail] relies on. *)

Fixpoint trie (s : bool) (lbl : Pmap (nat * Z)) h f (t : Z) (d : nat) (q : Z) a
    {struct d} : Prop :=
  lbl !! a = Some (d, q) ∧
  ∃ nd, cells h !! a = Some nd ∧ length (array nd) = 32%nat ∧
    match d with
    | O => ∀ k, 0 ≤ k < 32 →
        array nd !! Z.to_nat k = Some (SVal (f (32 * q + k)))
    | S d' => ∀ k, 0 ≤ k < 32 →
        (32 * q + k ≤ pre (t - 1) d' →
           ∃ c, array nd !! Z.to_nat k = Some (SPtr (Some c)) ∧
                trie s lbl h f t d' (32 * q + k) c) ∧
        (pre (t - 1) d' < 32 * q + k → s = true → d' ≠ O →
           array nd !! Z.to_nat k = Some SNil)
    end.

Lemma trie_label s lbl h f t d q a : trie s lbl h f t d q a → lbl !! a = Some (d, q).
Proof. destruct d; simpl; tauto. Qed.

Lemma trie_cell s lbl h f t d q a :
  trie s lbl h f t d q a → ∃ nd, cells h !! a = Some nd ∧ length (array nd) = 32%nat.
Proof. destruct d; simpl; intros (_ & nd & ? & ? & _); eauto. Qed.

Lemma trie_weaken s lbl h f t d q a : trie s lbl h f t d q a → trie false lbl h f t d q a.
Proof.
  revert q a. induction d as [|d IH]; simpl; intros q a (Hl & nd & Hc & Hlen & Hk).
  - eauto 10.
  - split; [done|]. exists nd. do 2 (split; [done|]). intros k Hr.
    destruct (Hk k Hr) as [H1 _]. split; [|done].
    intros Hle. destruct (H1 Hle) as (c & ? & ?). eauto.
Qed.

(** A subtree all of whose leaves are in use is untouched by a growing
    leaf count. *)
Lemma trie_full_mono s lbl h f t t' d q a :
  trie s lbl h f t d q a → q < pre t d → t ≤ t' → trie s lbl h f t' d q a.
Proof.
  revert q a. induction d as [|d IH]; simpl; intros q a (Hl & nd & Hc & Hlen & Hk) Hq Ht.
  - eauto 10.
  - split; [done|]. exists nd. do 2 (split; [done|]). intros k Hr.
    rewrite pre_S in Hq.
    pose proof (pre_succ (t - 1) d) as Hs. replace (t - 1 + 1) with t in Hs by lia.
    pose proof (pre_mono (t - 1) (t' - 1) d ltac:(lia)) as Hm.
    destruct (Hk k Hr) as [H1 _]. split.
    + intros _. destruct H1 as (c & ? & ?); [dlia|]. exists c. split; [done|].
      apply IH; [done|dlia|done].
    + intros Hlt. exfalso. dlia.
Qed.

(** The trie reads the store only at labelled addresses, the labelling only
    grows, and the elements matter only below the end of the trie. *)
Lemma trie_frame s lbl lbl' h h' f f' t d q a :
  trie s lbl h f t d q a →
  lbl ⊆ lbl' →
  (∀ b l, lbl !! b = Some l → cells h' !! b = cells h !! b) →
  (∀ j, 0 ≤ j < 32 * t → f' j = f j) →
  0 ≤ q → (d = O → q < t) →
  trie s lbl' h' f' t d q a.
Proof.
  intros Ht Hsub Hh Hf. revert q a Ht.
  induction d as [|d IH]; simpl; intros q a (Hl & nd & Hc & Hlen & Hk) Hq0 Hq.
  - split; [by eapply lookup_weaken|]. exists nd.
    split; [by rewrite (Hh _ _ Hl)|]. split; [done|].
    intros k Hr. rewrite Hf; [by apply Hk|]. specialize (Hq eq_refl). lia.
  - split; [by eapply lookup_weaken|]. exists nd.
    split; [by rewrite (Hh _ _ Hl)|]. split; [done|].
    intros k Hr. destruct (Hk k Hr) as [H1 H2]. split; [|done].
    intros Hle. destruct (H1 Hle) as (c & Hs & Hc'). exists c. split; [done|].
    apply IH; [done|lia|]. intros ->. rewrite pre_0 in Hle. lia.
Qed.

(** A change confined to the path of leaf [j0] leaves every subtree off that
    path alone. *)
Lemma trie_off_path s lbl lbl' h h' f f' t d q a j0 :
  trie s lbl h f t d q a →
  lbl ⊆ lbl' →
  (∀ b d' q', lbl !! b = Some (d', q') → q' ≠ pre j0 d' →
     cells h' !! b = cells h !! b) →
  (∀ j, j / 32 ≠ j0 → f' j = f j) →
  q ≠ pre j0 d →
  trie s lbl' h' f' t d q a.
Proof.
  intros Ht Hsub Hh Hf. revert q a Ht.
  induction d as [|d IH]; simpl; intros q a (Hl & nd & Hc & Hlen & Hk) Hq.
  - split; [by eapply lookup_weaken|]. exists nd.
    split; [by rewrite (Hh _ _ _ Hl)|]. split; [done|].
    intros k Hr. rewrite Hf; [by apply Hk|]. rewrite pre_0 in Hq. dlia.
  - split; [by eapply lookup_weaken|]. exists nd.
    split; [by rewrite (Hh _ _ _ Hl)|]. split; [done|].
    intros k Hr. destruct (Hk k Hr) as [H1 H2]. split; [|done].
    intros Hle. destruct (H1 Hle) as (c & Hs & Hc'). exists c. split; [done|].
    apply IH; [done|]. rewrite pre_S in Hq. dlia.
Qed.

(** The tail buffer of a vector whose trie has [t] leaves. *)
Definition tail_ok (lbl : Pmap (nat * Z)) h f v (t : Z) : Prop :=
  ∃ a td, tail v = Some a ∧ cells h !! a = Some td ∧ (a < next h)%positive ∧
    length (array td) = 32%nat ∧ len td = cnt v - 32 * t ∧
    (∀ q, lbl !! a = Some (O, q) → t ≤ q) ∧
    ∀ k, 0 ≤ k < cnt v - 32 * t →
      array td !! Z.to_nat k = Some (SVal (f (32 * t + k))).

(** A vector of depth [D] whose trie holds [t] leaves and whose elements are
    [f 0 .. f (cnt - 1)]. *)
Record shape (s : bool) (lbl : Pmap (nat * Z)) h f v (D : nat) (t : Z) : Prop := {
  sh_cnt : 0 ≤ cnt v < 2 ^ 63;
  sh_depth : (1 ≤ D)%nat ∧ lvl D ≤ 60;
  sh_shift : shift v = lvl D;
  sh_leaves : 0 ≤ t ∧ 32 * t ≤ cnt v ≤ 32 * t + 32 ∧ (cnt v = 32 * t → t = 0);
  sh_cap : pre (t - 1) D ≤ 0;
  sh_root : ∃ r, root v = Some r ∧ trie s lbl h f t D 0 r;
  sh_tail : tail_ok lbl h f v t;
  sh_lbl : ∀ a l, lbl !! a = Some l → (a < next h)%positive
}.

Lemma int_bounds x : -2 ^ 63 < x < 2 ^ 63 → min_int ≤ x ≤ max_int.
Proof. unfold min_int, max_int. lia. Qed.

Lemma tailoff_cases (n t : Z) :
  0 ≤ n < 2 ^ 63 → 0 ≤ t → 32 * t ≤ n ≤ 32 * t + 32 → (n = 32 * t → t = 0) →
  tailoff (mkVector n 0 None None) = 32 * t.
Proof.
  intros Hc Ht Hr Hz. unfold tailoff; simpl. unfold width, bits.
  destruct (Z.ltb_spec n 32); [lia|].
  rewrite sub64_id by (apply int_bounds; lia).
  unfold shl64. rewrite shiftr5, shiftl5.
  rewrite wrap_id by (apply int_bounds; dlia). dlia.
Qed.

Lemma shape_tailoff s lbl h f v D t : shape s lbl h f v D t → tailoff v = 32 * t.
Proof.
  intros [Hc _ _ (Ht & Hr & Hz) _ _ _ _].
  rewrite <- (tailoff_cases (cnt v) t) by done. reflexivity.
Qed.

Lemma sub_lvl d : lvl (S d) ≤ 60 → sub64 (lvl (S d)) bits = lvl d.
Proof.
  intros H. unfold lvl, bits in *. rewrite sub64_id by (apply int_bounds; lia). lia.
Qed.

Lemma descend_ok s lbl h f t i d : ∀ q a fuel,
  trie s lbl h f t d q a → 0 ≤ i → i / 32 < t → q = pre (i / 32) d →
  (d ≤ fuel)%nat → lvl d ≤ 60 →
  ∃ c, descend fuel (lvl d) (Some a) i h = Ok (Some c) h ∧
       trie s lbl h f t 0 (i / 32) c.
Proof.
  induction d as [|d IH]; intros q a fuel Ht Hi Hit Hq Hfuel Hlv.
  - exists a. rewrite pre_0 in Hq. subst q. split; [|done]. by destruct fuel.
  - destruct fuel as [|fuel]; [lia|].
    simpl in Ht. destruct Ht as (Hl & nd & Hc & Hlen & Hk).
    set (p := pre (i / 32) d).
    assert (Hp : 0 ≤ p) by (apply pre_nonneg; dlia).
    destruct (Hk (p mod 32)) as [H1 _]; [dlia|].
    rewrite pre_S in Hq. fold p in Hq.
    replace (32 * q + p mod 32) with p in H1 by dlia.
    destruct H1 as (c & Hs & Hc'); [apply pre_mono; lia|].
    destruct (IH p c fuel Hc' Hi Hit eq_refl) as (lf & Hd & Hlf); [lia|unfold lvl in *; lia|].
    exists lf. split; [|done].
    cbn [descend]. destruct (Z.gtb_spec (lvl (S d)) 0); [|unfold lvl in *; lia].
    unfold bind. rewrite (load_ok a nd h Hc).
    rewrite pre_level. fold p. rewrite land_mask.
    rewrite (get_lookup _ _ _ Hs). simpl. rewrite sub_lvl by done. exact Hd.
Qed.

Lemma nodeFor_ok s lbl h f v D t i :
  shape s lbl h f v D t → 0 ≤ i < cnt v →
  ∃ a nd, nodeFor v i h = Ok (Some a) h ∧ cells h !! a = Some nd ∧
          length (array nd) = 32%nat ∧
          array nd !! Z.to_nat (i mod 32) = Some (SVal (f i)) ∧
          (i < 32 * t → lbl !! a = Some (O, i / 32)) ∧
          (32 * t ≤ i → tail v = Some a).
Proof.
  intros Hs Hi. pose proof (shape_tailoff _ _ _ _ _ _ _ Hs) as Hto.
  destruct Hs as [Hc [HD1 HD2] Hsh (Ht & Hr & Hz) Hcap (r & Hroot & Htr)
                    (ta & td & Hta & Htd & _ & Hlen & _ & _ & Htl) _].
  unfold nodeFor. rewrite Hto.
  destruct (Z.geb_spec i 0); [|lia]. destruct (Z.ltb_spec i (cnt v)); [|lia]. simpl.
  destruct (Z.geb_spec i (32 * t)).
  - exists ta, td. rewrite Hta. split; [done|]. split; [done|]. split; [done|].
    split; [|split; [lia|done]].
    replace (i mod 32) with (i - 32 * t) by dlia.
    rewrite (Htl (i - 32 * t)) by lia. do 3 f_equal. lia.
  - assert (Hq : 0 = pre (i / 32) D).
    { pose proof (pre_mono (i / 32) (t - 1) D ltac:(dlia)).
      pose proof (pre_nonneg (i / 32) D ltac:(dlia)). lia. }
    rewrite Hroot, Hsh.
    destruct (descend_ok _ _ _ _ _ i D 0 r (Z.to_nat (lvl D)) Htr) as (c & Hd & Hleaf);
      [lia|dlia|done|unfold lvl; lia|done|].
    simpl in Hleaf. destruct Hleaf as (Hl & nd & Hnd & Hlen' & Hk).
    exists c, nd. split; [done|]. split; [done|]. split; [done|]. split; [|split; [done|lia]].
    rewrite (Hk (i mod 32)) by dlia. do 3 f_equal. dlia.
Qed.

Lemma At_ok s lbl h f v D t i :
  shape s lbl h f v D t → 0 ≤ i < cnt v → At zeroT v i h = Ok (f i) h.
Proof.
  intros Hs Hi.
  destruct (nodeFor_ok _ _ _ _ _ _ _ i Hs Hi) as (a & nd & Hn & Hc & _ & Hk & _).
  unfold At, bind. rewrite Hn, (load_ok a nd h Hc). unfold ret.
  rewrite land_mask, (get_lookup _ _ _ Hk). reflexivity.
Qed.

(** [f] with the element at [i] replaced. *)
Definition fset f (i : Z) (x : T) : Z → T := λ j, if decide (j = i) then x else f j.

Lemma doAssoc_ok s lbl h f t i x d : ∀ q a fuel,
  trie s lbl h f t d q a → 0 ≤ i → i / 32 < t → q = pre (i / 32) d →
  (d ≤ fuel)%nat → lvl d ≤ 60 →
  ∃ h', doAssoc fuel (lvl d) (Some a) i x h = Ok (Some a) h' ∧
        trie s lbl h' (fset f i x) t d q a ∧
        next h' = next h ∧
        (∀ b, lbl !! b ≠ Some (O, i / 32) → cells h' !! b = cells h !! b).
Proof.
  induction d as [|d IH]; intros q a fuel Ht Hi Hit Hq Hfuel Hlv.
  - rewrite pre_0 in Hq. subst q.
    simpl in Ht. destruct Ht as (Hl & nd & Hc & Hlen & Hk).
    exists (upd a (put nd (i mod 32) (SVal x)) h).
    split; [|split; [|split; [done|]]].
    + unfold doAssoc; destruct fuel; change (lvl 0 =? 0) with true; cbv iota;
        unfold bind; rewrite land_mask, (poke_ok a nd _ _ h Hc); reflexivity.
    + cbn [trie]. split; [done|]. eexists. split; [rewrite cells_upd; by rewrite decide_True|].
      rewrite length_put. split; [done|]. intros k Hr.
      rewrite array_put. unfold fset. case_decide as Hd.
      * rewrite decide_True; [done|]. dlia.
      * rewrite decide_False; [by apply Hk|]. intros Heq. apply Hd. split; [|lia].
        f_equal. dlia.
    + intros b Hb. rewrite cells_upd. rewrite decide_False; [done|]. congruence.
  - destruct fuel as [|fuel]; [lia|].
    simpl in Ht. destruct Ht as (Hl & nd & Hc & Hlen & Hk).
    set (p := pre (i / 32) d).
    assert (Hp : 0 ≤ p) by (apply pre_nonneg; dlia).
    rewrite pre_S in Hq. fold p in Hq.
    assert (Hpk : 32 * q + p mod 32 = p) by dlia.
    destruct (Hk (p mod 32)) as [H1 _]; [dlia|].
    rewrite Hpk in H1.
    destruct H1 as (c & Hs & Hc'); [apply pre_mono; lia|].
    destruct (IH p c fuel Hc' Hi Hit eq_refl) as (h' & Hd & Htr' & Hnx & Hfr);
      [lia|unfold lvl in *; lia|].
    assert (Ha' : cells h' !! a = Some nd) by (rewrite Hfr; [done|congruence]).
    exists h'. split; [|split; [|done]].
    + cbn [doAssoc]. destruct (Z.eqb_spec (lvl (S d)) 0); [unfold lvl in *; lia|].
      unfold bind, shr. destruct (Z.ltb_spec (lvl (S d)) 0); [unfold lvl in *; lia|].
      unfold ret. rewrite !pre_level. fold p. rewrite land_mask.
      rewrite (load_ok a nd h Hc), (get_lookup _ _ _ Hs). simpl.
      rewrite sub_lvl by done. rewrite Hd.
      rewrite (poke_ok a nd _ _ h' Ha'), (put_same _ _ _ Hs), (upd_same _ _ _ Ha').
      reflexivity.
    + simpl. split; [done|]. exists nd. do 2 (split; [done|]). intros k Hr.
      destruct (Hk k Hr) as [H1 H2]. split; [|done].
      intros Hle. destruct (H1 Hle) as (ck & Hsk & Hck). exists ck. split; [done|].
      destruct (decide (k = p mod 32)) as [->|Hne].
      * rewrite Hpk. replace ck with c by congruence. exact Htr'.
      * apply (trie_off_path s lbl lbl h h' f (fset f i x) t d _ ck (i / 32));
          [done|done| | |fold p; lia].
        -- intros b d' q' Hb Hq'. apply Hfr. intros Heq. rewrite Hb in Heq.
           inversion Heq; subst. by rewrite pre_0 in Hq'.
        -- intros j Hj. unfold fset. rewrite decide_False; [done|]. intros ->. done.
Qed.

Lemma fuel_for_ge D : (D ≤ fuel_for (lvl D))%nat.
Proof. unfold fuel_for, lvl. lia. Qed.

Lemma Set_shape s lbl h f v D t i x :
  shape s lbl h f v D t → 0 ≤ i < cnt v →
  ∃ w h', Set_ v i x h = Ok w h' ∧ shape s lbl h' (fset f i x) w D t ∧
          cnt w = cnt v.
Proof.
  intros Hs Hi. pose proof (shape_tailoff _ _ _ _ _ _ _ Hs) as Hto.
  destruct Hs as [Hc [HD1 HD2] Hsh (Ht & Hr & Hz) Hcap (r & Hroot & Htr)
                    (ta & td & Hta & Htd & Hlt & Hlen & Hln & Htl & Hts) Hlbl].
  unfold Set_. rewrite Hto.
  destruct (Z.geb_spec i 0); [|lia]. destruct (Z.ltb_spec i (cnt v)); [|lia]. cbn [andb].
  destruct (Z.geb_spec i (32 * t)).
  - rewrite Hta. unfold bind. rewrite (clone_ok ta td h Htd).
    rewrite (poke_ok (next h) td); [|by rewrite cells_alloc, decide_True].
    eexists _, _. split; [reflexivity|]. split; [|done].
    rewrite land_mask. set (h2 := upd _ _ _).
    assert (Hfr : ∀ b l, lbl !! b = Some l → cells h2 !! b = cells h !! b).
    { intros b l Hb. specialize (Hlbl b l Hb). unfold h2.
      rewrite cells_upd, decide_False by lia. rewrite cells_alloc, decide_False by lia. done. }
    constructor; simpl; try done.
    + exists r. split; [done|].
      apply (trie_frame s lbl lbl h h2 f (fset f i x) t D 0 r); try done; try lia.
      intros j Hj. unfold fset. rewrite decide_False; [done|lia].
    + exists (next h), (put td (i mod 32) (SVal x)).
      split; [done|]. split; [unfold h2; by rewrite cells_upd, decide_True|].
      split; [simpl; lia|]. rewrite length_put. split; [done|]. split; [done|].
      split.
      { intros q Hq. specialize (Hlbl _ _ Hq). lia. }
      intros k Hk. rewrite array_put. unfold fset. case_decide as Hd.
      * rewrite decide_True; [done|]. dlia.
      * rewrite decide_False; [by apply Hts|]. intros Heq. apply Hd. split; [|lia].
        f_equal. dlia.
    + intros b l Hb. specialize (Hlbl b l Hb). simpl. lia.
  - rewrite Hroot, Hsh. unfold bind.
    destruct (doAssoc_ok s lbl h f t i x D 0 r (fuel_for (lvl D)) Htr) as
      (h' & Hd & Htr' & Hnx & Hfr);
      [lia|dlia| |apply fuel_for_ge|done|].
    { pose proof (pre_mono (i / 32) (t - 1) D ltac:(dlia)).
      pose proof (pre_nonneg (i / 32) D ltac:(dlia)). lia. }
    rewrite Hd. eexists _, _. split; [reflexivity|]. split; [|done].
    constructor; simpl; try done.
    + by exists r.
    + exists ta, td. split; [done|]. split.
      { rewrite Hfr; [done|]. intros Heq. specialize (Htl _ Heq). dlia. }
      rewrite Hnx. do 4 (split; [done|]).
      intros k Hk. unfold fset. rewrite decide_False; [by apply Hts|lia].
    + intros b l Hb. rewrite Hnx. by eapply Hlbl.
Qed.

(** * Growing the trie *)

(** Every labelled address is allocated. *)
Definition lbl_ok (lbl : Pmap (nat * Z)) h : Prop :=
  ∀ b l, lbl !! b = Some l → (b < next h)%positive.

(** The store and the labelling grew by fresh cells only. *)
Definition ext (lbl : Pmap (nat * Z)) h (lbl' : Pmap (nat * Z)) h' : Prop :=
  lbl ⊆ lbl' ∧ (next h ≤ next h')%positive ∧
  ∀ b, (b < next h)%positive → cells h' !! b = cells h !! b ∧ lbl' !! b = lbl !! b.

Lemma ext_refl lbl h : ext lbl h lbl h.
Proof. split; [done|]. split; [lia|]. done. Qed.

Lemma ext_trans lbl h lbl1 h1 lbl2 h2 :
  ext lbl h lbl1 h1 → ext lbl1 h1 lbl2 h2 → ext lbl h lbl2 h2.
Proof.
  intros (S1 & N1 & F1) (S2 & N2 & F2).
  split; [by etrans|]. split; [lia|].
  intros b Hb. destruct (F1 b Hb) as [E1 E2]. destruct (F2 b ltac:(lia)) as [E3 E4].
  split; congruence.
Qed.

Lemma ext_alloc lbl h nd : ext lbl h lbl (alloc nd h).
Proof.
  split; [done|]. split; [simpl; lia|].
  intros b Hb. rewrite cells_alloc, decide_False by lia. done.
Qed.

(** Writing a cell allocated since. *)
Lemma ext_upd lbl h lbl' h' a nd :
  ext lbl h lbl' h' → (next h ≤ a)%positive → ext lbl h lbl' (upd a nd h').
Proof.
  intros (S1 & N1 & F1) Ha. split; [done|]. split; [done|].
  intros b Hb. rewrite cells_upd, decide_False by lia. by apply F1.
Qed.

(** Labelling a cell allocated since. *)
Lemma ext_label lbl h lbl' h' a l :
  ext lbl h lbl' h' → (next h ≤ a)%positive → lbl' !! a = None →
  ext lbl h (<[a := l]> lbl') h'.
Proof.
  intros (S1 & N1 & F1) Ha Hn. split; [|split; [done|]].
  - etrans; [done|]. by apply insert_subseteq.
  - intros b Hb. rewrite lookup_insert_ne by lia. by apply F1.
Qed.

(** No leaf label is new. *)
Definition same_leaves (lbl lbl' : Pmap (nat * Z)) : Prop :=
  ∀ b q, lbl' !! b = Some (O, q) → lbl !! b = Some (O, q).

Lemma same_leaves_refl lbl : same_leaves lbl lbl.
Proof. by intros b q. Qed.

Lemma same_leaves_trans lbl1 lbl2 lbl3 :
  same_leaves lbl1 lbl2 → same_leaves lbl2 lbl3 → same_leaves lbl1 lbl3.
Proof. intros H1 H2 b q Hb. by apply H1, H2. Qed.

Lemma same_leaves_inner lbl a (e : nat) q :
  same_leaves lbl (<[a := (S e, q)]> lbl).
Proof.
  intros b p. rewrite lookup_insert. case_decide; [congruence|done].
Qed.

(** Every leaf of the trie is a full node: its length field is 32. *)
Definition leaves_full (lbl : Pmap (nat * Z)) h : Prop :=
  ∀ b q nd, lbl !! b = Some (O, q) → cells h !! b = Some nd → len nd = 32.

Lemma leaves_full_ext lbl h lbl' h' :
  lbl_ok lbl h → ext lbl h lbl' h' → same_leaves lbl lbl' →
  leaves_full lbl h → leaves_full lbl' h'.
Proof.
  intros Hok (_ & _ & F) Hsl Hlf b q nd Hb Hc.
  apply Hsl in Hb. destruct (F b (Hok _ _ Hb)) as [E _]. rewrite E in Hc.
  by eapply Hlf.
Qed.

Lemma lbl_ok_ext lbl h : lbl_ok lbl h → ∀ a, (next h ≤ a)%positive → lbl !! a = None.
Proof.
  intros H a Ha. destruct (lbl !! a) as [l|] eqn:E; [|done].
  specialize (H a l E). lia.
Qed.

Lemma lbl_ok_alloc lbl h nd : lbl_ok lbl h → lbl_ok lbl (alloc nd h).
Proof. intros H b l Hb. specialize (H b l Hb). simpl. lia. Qed.

Lemma lbl_ok_upd lbl h a nd : lbl_ok lbl h → lbl_ok lbl (upd a nd h).
Proof. intros H b l Hb. by apply (H b l). Qed.

Lemma lbl_ok_label lbl h a l :
  lbl_ok lbl h → (a < next h)%positive → lbl_ok (<[a := l]> lbl) h.
Proof.
  intros H Ha b lb. rewrite lookup_insert. case_decide; [by intros; subst|]. apply H.
Qed.

(** A trie survives any change that keeps its labelled cells. *)
Lemma trie_keep s lbl h lbl' h' f t d q a :
  trie s lbl h f t d q a → lbl ⊆ lbl' →
  (∀ b l, lbl !! b = Some l → cells h' !! b = cells h !! b) →
  0 ≤ q → trie s lbl' h' f t d q a.
Proof.
  intros Ht Hsub Hfr Hq.
  apply (trie_off_path s lbl lbl' h h' f f t d q a (-1)); try done.
  - intros b e p Hb _. by eapply Hfr.
  - rewrite pre_neg. lia.
Qed.

(** A trie built before survives an extension. *)
Lemma trie_ext s lbl h lbl' h' f t d q a :
  trie s lbl h f t d q a → lbl_ok lbl h → ext lbl h lbl' h' →
  0 ≤ q → trie s lbl' h' f t d q a.
Proof.
  intros Ht Hok (S1 & N1 & F1) Hq.
  apply (trie_keep s lbl h); try done.
  intros b l Hb. apply F1. by eapply Hok.
Qed.

Lemma zero_array_lookup (k : Z) : 0 ≤ k < 32 → zero_array !! Z.to_nat k = Some (@SNil T).
Proof. intros H. unfold zero_array. apply lookup_replicate_2. lia. Qed.

Lemma zero_array_length : length (@zero_array T) = 32%nat.
Proof. reflexivity. Qed.

(** The facts about the prefixes of the new leaf [t] and of the last leaf
    [t - 1] that the push relies on. *)
Lemma pre_step t d :
  pre (t - 1) d ≤ pre t d ≤ pre (t - 1) d + 1.
Proof.
  pose proof (pre_mono (t - 1) t d ltac:(lia)).
  pose proof (pre_succ (t - 1) d) as Hs. replace (t - 1 + 1) with t in Hs by lia. lia.
Qed.

Lemma newPath_ok s lbl h f t lf e : ∀ fuel,
  0 ≤ t → lbl_ok lbl h →
  trie s lbl h f (t + 1) 0 t lf →
  pre (t - 1) e < pre t e →
  (e ≤ fuel)%nat → lvl e ≤ 60 →
  ∃ h' lbl' p, newPath fuel (lvl e) (Some lf) h = Ok (Some p) h' ∧
    trie s lbl' h' f (t + 1) e (pre t e) p ∧
    ext lbl h lbl' h' ∧ lbl_ok lbl' h' ∧ same_leaves lbl lbl'.
Proof.
  induction e as [|e IH]; intros fuel Ht Hok Hlf Hfresh Hfuel Hlv.
  - exists h, lbl, lf. rewrite pre_0. split; [by destruct fuel|].
    split; [done|]. split; [apply ext_refl|]. split; [done|apply same_leaves_refl].
  - destruct fuel as [|fuel]; [lia|].
    pose proof (pre_step t e) as Hst. rewrite !pre_S in Hfresh.
    destruct (IH fuel Ht Hok Hlf) as (h1 & lbl1 & p & Hnp & Htr & Hext & Hok1 & Hsl1);
      [dlia|lia|unfold lvl in *; lia|].
    set (out := next h1).
    set (nd := @put T (Node 1 zero_array) 0 (SPtr (Some p))).
    exists (upd out nd (alloc (Node 1 zero_array) h1)),
           (<[out := (S e, pre t (S e))]> lbl1), out.
    assert (Hnone : lbl1 !! out = None) by (apply (lbl_ok_ext _ _ Hok1); unfold out; lia).
    assert (Hext2 : ext lbl1 h1 (<[out := (S e, pre t (S e))]> lbl1)
                      (upd out nd (alloc (Node 1 zero_array) h1))).
    { apply ext_label; [|unfold out; lia|done]. apply ext_upd; [|unfold out; lia].
      apply ext_alloc. }
    assert (Hok2 : lbl_ok (<[out := (S e, pre t (S e))]> lbl1)
                      (upd out nd (alloc (Node 1 zero_array) h1))).
    { apply lbl_ok_label; [|simpl; unfold out; lia].
      by apply lbl_ok_upd, lbl_ok_alloc. }
    split; [|split; [|split; [by eapply ext_trans|split; [done|]]]].
    3:{ eapply same_leaves_trans; [done|]. apply same_leaves_inner. }
    + cbn [newPath]. destruct (Z.leb_spec (lvl (S e)) 0); [unfold lvl in *; lia|].
      unfold bind. rewrite sub_lvl by done. rewrite Hnp.
      unfold newPathNode, bind, new. 
      rewrite (poke_ok out (Node 1 zero_array)); [done|].
      unfold out. by rewrite cells_alloc, decide_True.
    + cbn [trie]. split; [by rewrite lookup_insert_eq|]. exists nd.
      split; [by rewrite cells_upd, decide_True|].
      split; [unfold nd; by rewrite length_put|].
      intros k Hk. split.
      * intros Hle. replace (t + 1 - 1) with t in Hle by lia.
        assert (k = 0) as -> by (rewrite pre_S in Hle; dlia).
        exists p. split.
        { unfold nd. rewrite array_put, decide_True; [done|]. split; [done|].
          cbv. lia. }
        replace (32 * pre t (S e) + 0) with (pre t e) by (rewrite pre_S; dlia).
        apply (trie_ext s lbl1 h1); [done|done|done|]. apply pre_nonneg; lia.
      * intros Hlt _ _. replace (t + 1 - 1) with t in Hlt by lia.
        unfold nd. rewrite array_put, decide_False; [by apply zero_array_lookup|].
        intros [Hk0 _]. rewrite pre_S in Hlt. 
        assert (k = 0) by lia. subst k. dlia.
Qed.

(** The node on the path of the new leaf [t], once its slot on that path
    holds the grown child. *)
Lemma trie_push lbl lbl' h h' f t d q a a' nd r :
  trie true lbl h f t (S d) q a → cells h !! a = Some nd →
  q = pre t (S d) → 0 ≤ t →
  lbl ⊆ lbl' →
  (∀ b e p, lbl !! b = Some (e, p) → p ≠ pre t e → cells h' !! b = cells h !! b) →
  trie true lbl' h' f (t + 1) d (pre t d) r →
  lbl' !! a' = Some (S d, q) →
  cells h' !! a' = Some (put nd (pre t d mod 32) (SPtr (Some r))) →
  trie true lbl' h' f (t + 1) (S d) q a'.
Proof.
  intros Ht Hnd Hq Ht0 Hsub Hfr Hr Hl' Hc'.
  cbn [trie] in Ht. destruct Ht as (Hl & nd0 & Hc & Hlen & Hk).
  assert (nd0 = nd) as -> by congruence.
  pose proof (pre_step t d) as Hst. pose proof (pre_nonneg t d Ht0) as HA.
  rewrite pre_S in Hq.
  cbn [trie]. split; [done|]. eexists. split; [done|]. rewrite length_put. split; [done|].
  intros k Hkr. replace (t + 1 - 1) with t by lia. rewrite array_put.
  destruct (Hk k Hkr) as [H1 H2]. split.
  - intros Hle. destruct (decide (k = pre t d mod 32)) as [->|Hne].
    + exists r. rewrite decide_True by (split; [done|lia]). split; [done|].
      replace (32 * q + pre t d mod 32) with (pre t d) by dlia. done.
    + destruct H1 as (c & Hs & Hc0); [dlia|]. exists c.
      rewrite decide_False by (intros [? _]; dlia). split; [done|].
      apply (trie_off_path true lbl lbl' h h' f f (t + 1) d _ c t); try done; [|dlia].
      apply (trie_full_mono true lbl h f t); [done|dlia|lia].
  - intros Hlt Hs Hd. rewrite decide_False by (intros [? _]; dlia).
    apply H2; [lia|done|done].
Qed.

Lemma shr_ok x l : 0 ≤ l → shr x l = @ret T Z (Z.shiftr x l).
Proof. intros H. unfold shr. destruct (Z.ltb_spec l 0); [lia|done]. Qed.

Lemma pushTail_ok f t lf (cn : Z) d : ∀ lbl h q a fuel,
  trie true lbl h f t (S d) q a → q = pre t (S d) → 0 ≤ t < 2 ^ 58 →
  lbl_ok lbl h → trie true lbl h f (t + 1) 0 t lf →
  (d ≤ fuel)%nat → lvl (S d) ≤ 60 → cn = 32 * t + 32 →
  ∃ h' lbl' r, pushTail fuel cn (lvl (S d)) (Some a) (Some lf) h = Ok (Some r) h' ∧
    trie true lbl' h' f (t + 1) (S d) q r ∧ ext lbl h lbl' h' ∧ lbl_ok lbl' h' ∧
    same_leaves lbl lbl'.
Proof.
  induction d as [|d IH]; intros lbl h q a fuel Ht Hq Ht0 Hok Hlf Hfuel Hlv Hcn.
  - pose proof Ht as Ht'. cbn [trie] in Ht'. destruct Ht' as (Hl & nd & Hc & Hlen & Hk).
    set (r := next h). set (nd' := put nd (pre t 0 mod 32) (SPtr (Some lf))).
    set (h' := upd r nd' (alloc nd h)).
    set (lbl' := <[r := (1%nat, q)]> lbl).
    assert (Hnone : lbl !! r = None) by (apply (lbl_ok_ext _ _ Hok); unfold r; lia).
    assert (Hext : ext lbl h lbl' h').
    { apply ext_label; [|unfold r; lia|done]. apply ext_upd; [|unfold r; lia]. apply ext_alloc. }
    assert (Hok' : lbl_ok lbl' h').
    { apply lbl_ok_label; [|simpl; unfold r; lia]. by apply lbl_ok_upd, lbl_ok_alloc. }
    exists h', lbl', r.
    split; [|split; [|split; [done|split; [done|apply same_leaves_inner]]]].
    + destruct fuel; cbn [pushTail]; unfold bind;
        (rewrite shr_ok by (unfold lvl; lia)); unfold ret;
        rewrite (load_ok a nd h Hc), (clone_ok a nd h Hc);
        change (lvl 1 =? bits) with true; cbv iota;
        rewrite sub64_id by (apply int_bounds; lia);
        rewrite pre_level, land_mask;
        replace ((cn - 1) / 32) with t by dlia;
        (rewrite (poke_ok r nd); [done|]); unfold r; by rewrite cells_alloc, decide_True.
    + apply (trie_push lbl lbl' h h' f t 0 q a r nd lf); try done; try lia.
      * by destruct Hext.
      * intros b e p Hb _. destruct Hext as (_ & _ & F). apply F. by eapply Hok.
      * rewrite pre_0. apply (trie_ext true lbl h); [done|done|done|lia].
      * unfold lbl'. by rewrite lookup_insert_eq.
      * unfold h'. by rewrite cells_upd, decide_True.
  - pose proof Ht as Ht'. cbn [trie] in Ht'. destruct Ht' as (Hl & nd & Hc & Hlen & Hk).
    pose proof (pre_step t (S d)) as Hst. pose proof (pre_nonneg t (S d) ltac:(lia)) as HA.
    set (A := pre t (S d)) in *. 
    set (r := next h). set (h1 := alloc nd h).
    assert (Hr1 : cells h1 !! r = Some nd) by (unfold h1, r; by rewrite cells_alloc, decide_True).
    assert (Hok1 : lbl_ok lbl h1) by (by apply lbl_ok_alloc).
    assert (Hext1 : ext lbl h lbl h1) by apply ext_alloc.
    assert (Hq' : 32 * q + A mod 32 = A) by (rewrite pre_S in Hq; fold A in Hq; dlia).
    (* the grown child *)
    assert (∃ h2 lbl2 c,
      (let child := get nd (A mod 32) in
       if non_nil child then
         bind (as_node child) (λ ch,
         match fuel with
         | O => fail Fuel
         | S fuel' => pushTail fuel' cn (lvl (S d)) ch (Some lf)
         end)
       else newPath (fuel_for (lvl (S (S d)))) (lvl (S d)) (Some lf)) h1 = Ok (Some c) h2 ∧
      trie true lbl2 h2 f (t + 1) (S d) A c ∧ ext lbl h1 lbl2 h2 ∧ lbl_ok lbl2 h2 ∧
      same_leaves lbl lbl2)
      as (h2 & lbl2 & c & Hrun & Hc2 & Hext2 & Hok2 & Hsl2).
    { destruct (Hk (A mod 32)) as [H1 H2]; [dlia|]. rewrite Hq' in H1, H2.
      destruct (decide (A ≤ pre (t - 1) (S d))) as [Hin|Hout].
      - destruct (H1 Hin) as (ch & Hs & Hch). rewrite (get_lookup _ _ _ Hs). cbn.
        destruct fuel as [|fuel]; [lia|].
        assert (Hch1 : trie true lbl h1 f t (S d) A ch)
          by (apply (trie_ext true lbl h); [done|done|done|lia]).
        assert (Hlf1 : trie true lbl h1 f (t + 1) 0 t lf)
          by (apply (trie_ext true lbl h); [done|done|done|lia]).
        assert (Hlv' : lvl (S d) ≤ 60) by (unfold lvl in *; lia).
        destruct (IH lbl h1 A ch fuel Hch1 eq_refl Ht0 Hok1 Hlf1 ltac:(lia) Hlv' Hcn)
          as (h2 & lbl2 & c & Hp & Hc2 & Hext2 & Hok2 & Hsl2).
        exists h2, lbl2, c. done.
      - rewrite (get_lookup _ _ _ (H2 ltac:(lia) eq_refl ltac:(done))). cbn.
        assert (Hlf1 : trie true lbl h1 f (t + 1) 0 t lf)
          by (apply (trie_ext true lbl h); [done|done|done|lia]).
        assert (Hfr : pre (t - 1) (S d) < pre t (S d)) by (fold A; lia).
        assert (Hfu : (S d ≤ fuel_for (lvl (S (S d))))%nat) by (unfold fuel_for, lvl; lia).
        assert (Hlv' : lvl (S d) ≤ 60) by (unfold lvl in *; lia).
        destruct (newPath_ok true lbl h1 f t lf (S d) (fuel_for (lvl (S (S d))))
                    ltac:(lia) Hok1 Hlf1 Hfr Hfu Hlv')
          as (h2 & lbl2 & c & Hp & Hc2 & Hext2 & Hok2 & Hsl2).
        exists h2, lbl2, c. done. }
    set (nd' := put nd (A mod 32) (SPtr (Some c))).
    set (h' := upd r nd' h2).
    set (lbl' := <[r := (S (S d), q)]> lbl2).
    assert (Hr2 : cells h2 !! r = Some nd ∧ lbl2 !! r = None).
    { destruct Hext2 as (_ & _ & F). destruct (F r) as [E1 E2]; [simpl; unfold r; lia|].
      split; [by rewrite E1|]. rewrite E2. apply (lbl_ok_ext _ _ Hok). unfold r; lia. }
    destruct Hr2 as [Hr2 Hnone].
    assert (Hn2 : (r < next h2)%positive).
    { destruct Hext2 as (_ & N & _). simpl in N. unfold r. lia. }
    assert (Hext' : ext lbl h lbl' h').
    { apply ext_label; [|unfold r; lia|done]. apply ext_upd; [|unfold r; lia].
      by eapply ext_trans. }
    assert (Hok' : lbl_ok lbl' h').
    { apply lbl_ok_label; [by apply lbl_ok_upd|]. done. }
    exists h', lbl', r. split; [|split; [|split; [done|split; [done|]]]].
    3:{ eapply same_leaves_trans; [done|]. apply same_leaves_inner. }
    + assert (Hlevel : (lvl (S (S d)) =? bits) = false)
        by (apply Z.eqb_neq; unfold lvl, bits; lia).
      destruct fuel as [|fuel]; cbn [pushTail]; unfold bind;
        (rewrite shr_ok by (unfold lvl; lia)); unfold ret;
        rewrite (load_ok a nd h Hc), (clone_ok a nd h Hc); fold h1 r;
        rewrite Hlevel;
        rewrite (sub64_id cn 1) by (apply int_bounds; lia);
        rewrite pre_level, land_mask;
        replace ((cn - 1) / 32) with t by dlia; fold A;
        rewrite (sub_lvl (S d)) by done;
        unfold bind in Hrun; rewrite Hrun;
        rewrite (poke_ok r nd _ _ h2 Hr2); reflexivity.
    + apply (trie_push lbl lbl' h h' f t (S d) q a r nd c); try done; try lia.
      * by destruct Hext'.
      * intros b e p Hb _. destruct Hext' as (_ & _ & F). apply F. by eapply Hok.
      * fold A. apply (trie_keep true lbl2 h2); [done| | |lia].
        -- by apply insert_subseteq.
        -- intros b l Hb. unfold h'. rewrite cells_upd, decide_False; [done|].
           intros <-. congruence.
      * unfold lbl'. by rewrite lookup_insert_eq.
      * unfold h'. by rewrite cells_upd, decide_True.
Qed.

Lemma shape_not_zero s lbl h f v D t : shape s lbl h f v D t → is_zero v = false.
Proof.
  intros [_ _ _ _ _ (r & Hr & _) _ _]. unfold is_zero. rewrite Hr.
  apply andb_false_r.
Qed.

Lemma shape_lbl_ok s lbl h f v D t : shape s lbl h f v D t → lbl_ok lbl h.
Proof. intros Hs. exact (sh_lbl _ _ _ _ _ _ _ Hs). Qed.

(** [cons] when the tail has room. *)
Lemma cons_room lbl h f v D t x :
  shape true lbl h f v D t → cnt v + 1 < 2 ^ 63 →
  cnt v - 32 * t < 32 → f (cnt v) = x →
  ∃ v' h', cons v x h = Ok v' h' ∧ shape true lbl h' f v' D t ∧
           cnt v' = cnt v + 1 ∧ ext lbl h lbl h'.
Proof.
  intros Hs Hbound Hroom Hx. pose proof (shape_tailoff _ _ _ _ _ _ _ Hs) as Hto.
  pose proof (shape_not_zero _ _ _ _ _ _ _ Hs) as Hnz.
  destruct Hs as [Hc [HD1 HD2] Hsh (Ht & Hr & Hz) Hcap (r & Hroot & Htr)
                    (ta & td & Hta & Htd & Hlt & Hlen & Hln & Htl & Hts) Hlbl].
  set (nt := next h).
  set (td1 := Node (len td + 1) (array td)).
  set (td2 := put td1 (len td) (SVal x)).
  set (h' := upd nt td2 (upd nt td1 (alloc td h))).
  exists (mkVector (cnt v + 1) (shift v) (root v) (Some nt)), h'.
  assert (Hext : ext lbl h lbl h').
  { apply ext_upd; [|unfold nt; lia]. apply ext_upd; [|unfold nt; lia]. apply ext_alloc. }
  split; [|split; [|split; [done|done]]].
  - unfold cons. rewrite Hnz. unfold bind at 1. unfold ret at 1. rewrite Hto.
    rewrite sub64_id by (apply int_bounds; lia).
    destruct (Z.ltb_spec (cnt v - 32 * t) 32); [|lia].
    rewrite Hta. unfold bind. rewrite (load_ok ta td h Htd), (clone_ok ta td h Htd).
    fold nt. rewrite (load_ok nt td); [|unfold nt; by rewrite cells_alloc, decide_True].
    rewrite (store_ok nt td); [|unfold nt; by rewrite cells_alloc, decide_True].
    rewrite add64_id by (apply int_bounds; lia). fold td1.
    unfold width. destruct (Z.leb_spec 0 (len td)); [|lia].
    destruct (Z.ltb_spec (len td) 32); [|lia]. cbn [andb].
    rewrite (poke_ok nt td1); [|by rewrite cells_upd, decide_True].
    rewrite add64_id by (apply int_bounds; lia). reflexivity.
  - constructor; simpl; try done; try lia.
    + exists r. split; [done|]. by apply (trie_ext true lbl h).
    + exists nt, td2. split; [done|]. split; [unfold h'; by rewrite cells_upd, decide_True|].
      split; [simpl; unfold nt; lia|]. unfold td2. rewrite length_put. split; [done|].
      split; [simpl; lia|]. split.
      { intros q Hq. specialize (Hlbl _ _ Hq). unfold nt in Hlbl. lia. }
      intros k Hk. simpl in Hk. rewrite array_put. case_decide as Hd.
      * do 2 f_equal. destruct Hd as [Hd _]. rewrite <- Hx. f_equal. simpl in Hd. lia.
      * apply Hts. destruct (decide (k = len td)) as [->|]; [|lia].
        exfalso. apply Hd. split; [done|]. simpl. lia.
    + intros b l Hb. specialize (Hlbl b l Hb). unfold nt. lia.
Qed.

Lemma newValueNode_ok h x :
  newValueNode [x] h =
    Ok (Some (next h))
       (upd (next h) (put (Node 1 zero_array) 0 (SVal x)) (alloc (Node 1 zero_array) h)).
Proof.
  unfold newValueNode, bind, new. cbn [fill length Z.of_nat Pos.of_succ_nat].
  change ((0 <=? 0) && (0 <? width)) with true. cbv iota. unfold bind.
  rewrite (poke_ok (next h) (Node 1 zero_array)); [done|].
  by rewrite cells_alloc, decide_True.
Qed.

Lemma shl_one D : lvl D ≤ 60 → shl 1 (lvl D) = @ret T Z (2 ^ lvl D).
Proof.
  intros H. unfold shl. destruct (Z.ltb_spec (lvl D) 0); [unfold lvl in *; lia|].
  unfold shl64. rewrite pow_shift. rewrite wrap_id; [done|].
  assert (0 < 2 ^ lvl D) by (apply Z.pow_pos_nonneg; unfold lvl; lia).
  assert (2 ^ lvl D ≤ 2 ^ 60) by (apply Z.pow_le_mono_r; lia).
  unfold min_int, max_int. lia.
Qed.

Lemma overflow_level t D : 0 ≤ t < 2 ^ 58 → 1 ≤ pre t D → lvl (S D) ≤ 60.
Proof.
  intros Ht Hp. apply pre_ge_1 in Hp; [|lia].
  assert (lvl D < 58).
  { apply (Z.pow_lt_mono_r_iff 2); [lia|lia|lia]. }
  unfold lvl in *. lia.
Qed.

(** The overflow branch of [cons] and [Builder.Cons]: a new root over the old
    root and a fresh path to the pushed leaf. *)
Lemma root_grow lbl h f t D r tn nr :
  0 ≤ t < 2 ^ 58 → lbl_ok lbl h →
  trie true lbl h f t D 0 r → trie true lbl h f (t + 1) 0 t tn →
  pre (t - 1) D ≤ 0 → 1 ≤ pre t D →
  cells h !! nr = Some zero_node → lbl !! nr = None → (nr < next h)%positive →
  let nd4 := put (Node 2 zero_array) 0 (SPtr (Some r)) in
  let h4 := upd nr nd4 (upd nr (Node 2 zero_array) h) in
  ∃ h5 lbl5 p, newPath (fuel_for (lvl D)) (lvl D) (Some tn) h4 = Ok (Some p) h5 ∧
    cells h5 !! nr = Some nd4 ∧
    let h6 := upd nr (put nd4 1 (SPtr (Some p))) h5 in
    let lbl6 := <[nr := (S D, 0)]> lbl5 in
    trie true lbl6 h6 f (t + 1) (S D) 0 nr ∧ lbl_ok lbl6 h6 ∧
    lbl ⊆ lbl6 ∧ (next h ≤ next h6)%positive ∧
    (∀ b, (b < next h)%positive → b ≠ nr → cells h6 !! b = cells h !! b) ∧
    (∀ b, (b < next h)%positive → b ≠ nr → lbl6 !! b = lbl !! b) ∧
    same_leaves lbl lbl6.
Proof.
  intros Ht0 Hok Hr Htn Hcap Hov Hnr Hnone Hlt nd4 h4.
  pose proof (overflow_level t D Ht0 Hov) as Hlv.
  pose proof (pre_step t D) as Hst.
  assert (HA : pre t D = 1) by lia.
  assert (Hfr4 : ∀ b l, lbl !! b = Some l → cells h4 !! b = cells h !! b).
  { intros b l Hb. unfold h4. rewrite !cells_upd, !decide_False; [done|congruence..]. }
  assert (Hok4 : lbl_ok lbl h4) by (by apply lbl_ok_upd, lbl_ok_upd).
  assert (Htn4 : trie true lbl h4 f (t + 1) 0 t tn)
    by (apply (trie_keep true lbl h); [done|done|done|lia]).
  destruct (newPath_ok true lbl h4 f t tn D (fuel_for (lvl D)))
    as (h5 & lbl5 & p & Hnp & Hp & Hext5 & Hok5 & Hsl5); try done; try lia.
  { apply fuel_for_ge. } { unfold lvl in *; lia. }
  destruct Hext5 as (S5 & N5 & F5).
  destruct (F5 nr) as [E1 E2]; [done|].
  assert (Hnr5 : cells h5 !! nr = Some nd4).
  { rewrite E1. unfold h4. by rewrite cells_upd, decide_True. }
  exists h5, lbl5, p. split; [done|]. split; [done|].
  intros h6 lbl6.
  assert (Hnone5 : lbl5 !! nr = None) by congruence.
  assert (Hsub6 : lbl5 ⊆ lbl6) by (by apply insert_subseteq).
  assert (Hfr6 : ∀ b l, lbl5 !! b = Some l → cells h6 !! b = cells h5 !! b).
  { intros b l Hb. unfold h6. rewrite cells_upd, decide_False; [done|congruence]. }
  split; [|split; [|split; [|split; [|split; [|split]]]]].
  7:{ eapply same_leaves_trans; [done|]. apply same_leaves_inner. }
  - cbn [trie]. split; [unfold lbl6; by rewrite lookup_insert_eq|].
    eexists. split; [unfold h6; by rewrite cells_upd, decide_True|].
    rewrite !length_put. split; [done|].
    intros k Hk. replace (t + 1 - 1) with t by lia. rewrite HA. split.
    + intros Hle. destruct (decide (k = 0)) as [->|Hk0].
      * exists r. split.
        { rewrite array_put, decide_False by (intros [? _]; lia).
          unfold nd4. rewrite array_put, decide_True; [done|]. split; [done|]. cbv; lia. }
        apply (trie_keep true lbl5 h5); [|done|done|lia].
        apply (trie_keep true lbl h4); [|done| |lia].
        -- apply (trie_keep true lbl h); [|done|done|lia].
           apply (trie_full_mono true lbl h f t); [done|lia|lia].
        -- intros b l Hb. apply F5. simpl. by eapply Hok.
      * assert (k = 1) as -> by lia. exists p. split.
        { rewrite array_put, decide_True; [done|]. split; [done|].
          unfold nd4. rewrite length_put. cbv; lia. }
        replace (32 * 0 + 1) with 1 by lia. rewrite HA in Hp.
        apply (trie_keep true lbl5 h5); [done|done|done|lia].
    + intros Hlt2 _ _. rewrite array_put, decide_False by (intros [? _]; lia).
      unfold nd4. rewrite array_put, decide_False by (intros [? _]; lia).
      by apply zero_array_lookup.
  - apply lbl_ok_label; [by apply lbl_ok_upd|]. simpl. simpl in N5. lia.
  - by etrans.
  - simpl. simpl in N5. lia.
  - intros b Hb Hne. unfold h6. rewrite cells_upd, decide_False by done.
    destruct (F5 b) as [-> _]; [done|]. unfold h4. by rewrite !cells_upd, !decide_False.
  - intros b Hb Hne. unfold lbl6. rewrite lookup_insert_ne by done.
    by destruct (F5 b) as [_ ->].
Qed.

(** A full tail, cloned and labelled as leaf [t]. *)
Lemma leaf_of_tail s lbl f v t td tn h2 :
  0 ≤ t → cnt v - 32 * t = 32 → length (array td) = 32%nat →
  (∀ k, 0 ≤ k < cnt v - 32 * t → array td !! Z.to_nat k = Some (SVal (f (32 * t + k)))) →
  cells h2 !! tn = Some td →
  trie s (<[tn := (O, t)]> lbl) h2 f (t + 1) 0 t tn.
Proof.
  intros Ht Hfull Hlen Hts Hc. cbn [trie]. split; [by rewrite lookup_insert_eq|].
  exists td. split; [done|]. split; [done|]. intros k Hk. apply Hts. lia.
Qed.

(** The fresh one-element tail after a push. *)
Lemma fresh_tail_ok lbl h f v' t' x :
  lbl_ok lbl h → cnt v' = 32 * t' + 1 → tail v' = Some (next h) → f (32 * t') = x →
  tail_ok lbl
    (upd (next h) (put (Node 1 zero_array) 0 (SVal x)) (alloc (Node 1 zero_array) h))
    f v' t'.
Proof.
  intros Hok Hc Ht Hx. exists (next h), (put (Node 1 zero_array) 0 (SVal x)).
  split; [done|]. split; [by rewrite cells_upd, decide_True|].
  split; [simpl; lia|]. rewrite length_put. split; [done|].
  split; [simpl; lia|]. split.
  { intros q Hq. specialize (Hok _ _ Hq). lia. }
  intros k Hk. assert (k = 0) as -> by lia.
  rewrite array_put, decide_True by (split; [done|cbv; lia]).
  do 2 f_equal. rewrite <- Hx. f_equal. lia.
Qed.

(** [cons] when the tail is full: the tail becomes leaf [t] of the trie. *)
Lemma cons_full_strong lbl h f v D t x :
  shape true lbl h f v D t → cnt v + 1 < 2 ^ 63 →
  cnt v - 32 * t = 32 → f (cnt v) = x →
  ∃ v' h' lbl' D', cons v x h = Ok v' h' ∧ shape true lbl' h' f v' D' (t + 1) ∧
           cnt v' = cnt v + 1 ∧ ext lbl h lbl' h' ∧
           (D' = D ∧ pre t D ≤ 0 ∨ D' = S D ∧ 1 ≤ pre t D) ∧
           (leaves_full lbl h → leaves_full lbl' h') ∧
           (∃ ta, tail v' = Some ta ∧ lbl' !! ta = None).
Proof.
  intros Hs Hbound Hfull Hx. pose proof (shape_tailoff _ _ _ _ _ _ _ Hs) as Hto.
  pose proof (shape_not_zero _ _ _ _ _ _ _ Hs) as Hnz.
  destruct Hs as [Hc [HD1 HD2] Hsh (Ht & Hr & Hz) Hcap (r & Hroot & Htr)
                    (ta & td & Hta & Htd & Hlt & Hlen & Hln & Htl & Hts) Hlbl].
  assert (Ht57 : 0 ≤ t < 2 ^ 58) by lia.
  set (nr := next h). set (h1 := alloc zero_node h).
  set (tn := next h1). set (h2 := alloc td h1).
  set (lbl1 := <[tn := (O, t)]> lbl).
  assert (Htd1 : cells h1 !! ta = Some td)
    by (unfold h1; rewrite cells_alloc, decide_False by lia; done).
  assert (Hnone : lbl !! tn = None) by (apply (lbl_ok_ext _ _ Hlbl); unfold tn; simpl; lia).
  assert (Hext : ext lbl h lbl1 h2).
  { apply ext_label; [|unfold tn; simpl; lia|done].
    eapply ext_trans; apply ext_alloc. }
  assert (Hok1 : lbl_ok lbl1 h2).
  { apply lbl_ok_label; [by apply lbl_ok_alloc, lbl_ok_alloc|unfold tn; simpl; lia]. }
  assert (Htn : trie true lbl1 h2 f (t + 1) 0 t tn).
  { apply (leaf_of_tail true lbl f v t td); try done.
    unfold h2, tn. by rewrite cells_alloc, decide_True. }
  assert (Htr1 : trie true lbl1 h2 f t D 0 r) by (by apply (trie_ext true lbl h)).
  assert (Hcnt32 : Z.shiftr (cnt v) bits = t + 1) by (unfold bits; rewrite shiftr5; dlia).
  assert (Hlf1 : leaves_full lbl h → leaves_full lbl1 h2).
  { intros Hlf b q nd Hb Hcb. unfold lbl1 in Hb. rewrite lookup_insert in Hb.
    case_decide as Hd.
    - subst b. unfold h2, tn in Hcb. rewrite cells_alloc, decide_True in Hcb by done.
      inversion Hcb; subst nd. lia.
    - destruct Hext as (_ & _ & F). destruct (F b (Hlbl _ _ Hb)) as [E _].
      rewrite E in Hcb. by eapply Hlf. }
  destruct (decide (1 ≤ pre t D)) as [Hov|Hno].
  - (* the trie is full: a new root *)
    pose proof (overflow_level t D Ht57 Hov) as Hlv.
    destruct (root_grow lbl1 h2 f t D r tn nr) as (h5 & lbl5 & p & Hnp & Hnr5 & Hfin);
      try done.
    { unfold h2, h1, nr. rewrite cells_alloc, decide_False by (simpl; lia).
      by rewrite cells_alloc, decide_True. }
    { unfold lbl1. rewrite lookup_insert_ne by (unfold tn, nr; simpl; lia).
      apply (lbl_ok_ext _ _ Hlbl). unfold nr. lia. }
    { unfold nr. simpl. lia. }
    cbv zeta in Hfin. destruct Hfin as (Htr6 & Hok6 & Hsub6 & Hn6 & Hc6 & Hl6 & Hsl6).
    set (h6 := upd nr _ h5) in *. set (lbl6 := <[nr := _]> lbl5) in *.
    assert (Hext6 : ext lbl h lbl6 h6).
    { destruct Hext as (S1 & N1 & F1). split; [by etrans|]. split; [lia|].
      intros b Hb. destruct (F1 b Hb) as [E1 E2].
      rewrite Hc6, Hl6 by (unfold nr; lia). done. }
    eexists _, _, lbl6, (S D). split; [|split; [|split; [|split; [|split; [|split]]]]].
    + unfold cons. rewrite Hnz. unfold bind at 1. unfold ret at 1. rewrite Hto.
      rewrite sub64_id by (apply int_bounds; lia).
      destruct (Z.ltb_spec (cnt v - 32 * t) 32); [lia|].
      unfold bind at 1. unfold new at 1. fold h1 nr.
      unfold bind at 1. rewrite Hta, (clone_ok ta td h1 Htd1). fold h2 tn.
      unfold bind at 1. rewrite Hsh, shl_one by (unfold lvl in *; lia). unfold ret at 1.
      rewrite Hcnt32.
      destruct (Z.gtb_spec (t + 1) (2 ^ lvl D)).
      2:{ apply pre_ge_1 in Hov; lia. }
      unfold bind.
      rewrite (load_ok nr zero_node h2);
        [|unfold h2, h1, nr; rewrite cells_alloc, decide_False by (simpl; lia);
          by rewrite cells_alloc, decide_True].
      rewrite (store_ok nr zero_node);
        [|unfold h2, h1, nr; rewrite cells_alloc, decide_False by (simpl; lia);
          by rewrite cells_alloc, decide_True].
      cbn [len array zero_node]. rewrite (add64_id 0 2) by (apply int_bounds; lia).
      change (0 + 2) with 2.
      rewrite (poke_ok nr (Node 2 zero_array)); [|by rewrite cells_upd, decide_True].
      rewrite Hroot, Hnp. rewrite (poke_ok nr _ _ _ h5 Hnr5). fold h6.
      unfold ret. cbv beta iota. rewrite newValueNode_ok. cbn [fst snd].
      rewrite !add64_id by (apply int_bounds; unfold lvl, bits in *; lia).
      reflexivity.
    + constructor; cbn [cnt shift root tail]; try done; try lia.
      * unfold lvl, bits in *. lia.
      * replace (t + 1 - 1) with t by lia. rewrite pre_S.
        pose proof (pre_step t D). dlia.
      * exists nr. split; [done|].
        apply (trie_ext true lbl6 h6); [done|done| |lia].
        apply ext_upd; [apply ext_alloc|lia].
      * apply fresh_tail_ok; [done|simpl; lia|done|]. rewrite <- Hx. f_equal. lia.
      * by apply lbl_ok_upd, lbl_ok_alloc.
    + reflexivity.
    + eapply ext_trans; [exact Hext6|]. apply ext_upd; [apply ext_alloc|lia].
    + right. done.
    + intros Hlf. apply (leaves_full_ext lbl6 h6); [done| |apply same_leaves_refl|].
      { apply ext_upd; [apply ext_alloc|lia]. }
      intros b q nd Hb Hcb. pose proof (Hsl6 _ _ Hb) as Hb1.
      assert (Hne : b ≠ nr).
      { intros ->. unfold lbl1 in Hb1.
        rewrite lookup_insert_ne in Hb1 by (unfold tn, nr; simpl; lia).
        specialize (Hlbl _ _ Hb1). unfold nr in Hlbl. lia. }
      rewrite Hc6 in Hcb by (try done; apply (Hok1 _ _ Hb1)).
      by eapply (Hlf1 Hlf).
    + eexists. split; [reflexivity|]. apply (lbl_ok_ext _ _ Hok6). lia.
  - (* room in the trie *)
    pose proof (pre_step t D) as Hst. pose proof (pre_nonneg t D ltac:(lia)) as HA.
    destruct D as [|d]; [lia|].
    destruct (pushTail_ok f t tn (cnt v) d lbl1 h2 0 r (fuel_for (lvl (S d))))
      as (h3 & lbl3 & r' & Hp & Htr3 & Hext3 & Hok3 & Hsl3); try done; try lia.
    { unfold fuel_for, lvl. lia. }
    eexists _, _, lbl3, (S d). split; [|split; [|split; [|split; [|split; [|split]]]]].
    + unfold cons. rewrite Hnz. unfold bind at 1. unfold ret at 1. rewrite Hto.
      rewrite sub64_id by (apply int_bounds; lia).
      destruct (Z.ltb_spec (cnt v - 32 * t) 32); [lia|].
      unfold bind at 1. unfold new at 1. fold h1 nr.
      unfold bind at 1. rewrite Hta, (clone_ok ta td h1 Htd1). fold h2 tn.
      unfold bind at 1. rewrite Hsh, shl_one by done. unfold ret at 1.
      rewrite Hcnt32.
      destruct (Z.gtb_spec (t + 1) (2 ^ lvl (S d))).
      { exfalso. apply Hno. apply pre_ge_1; lia. }
      unfold bind. rewrite Hroot, Hp. unfold ret. cbv beta iota.
      rewrite newValueNode_ok. cbn [fst snd].
      rewrite !add64_id by (apply int_bounds; unfold lvl, bits in *; lia).
      reflexivity.
    + constructor; cbn [cnt shift root tail]; try done; try lia.
      * replace (t + 1 - 1) with t by lia. lia.
      * exists r'. split; [done|].
        apply (trie_ext true lbl3 h3); [done|done| |lia].
        apply ext_upd; [apply ext_alloc|lia].
      * apply fresh_tail_ok; [done|simpl; lia|done|]. rewrite <- Hx. f_equal. lia.
      * by apply lbl_ok_upd, lbl_ok_alloc.
    + reflexivity.
    + eapply ext_trans; [exact Hext|]. eapply ext_trans; [exact Hext3|].
      apply ext_upd; [apply ext_alloc|lia].
    + left. split; [done|lia].
    + intros Hlf. apply (leaves_full_ext lbl3 h3); [done| |apply same_leaves_refl|].
      { apply ext_upd; [apply ext_alloc|lia]. }
      apply (leaves_full_ext lbl1 h2); [done|done|done|by apply Hlf1].
    + eexists. split; [reflexivity|]. apply (lbl_ok_ext _ _ Hok3). lia.
Qed.

Lemma cons_full lbl h f v D t x :
  shape true lbl h f v D t → cnt v + 1 < 2 ^ 63 →
  cnt v - 32 * t = 32 → f (cnt v) = x →
  ∃ v' h' lbl' D', cons v x h = Ok v' h' ∧ shape true lbl' h' f v' D' (t + 1) ∧
           cnt v' = cnt v + 1.
Proof.
  intros Hs Hb Hf Hx.
  destruct (cons_full_strong lbl h f v D t x Hs Hb Hf Hx)
    as (v' & h' & lbl' & D' & Hc & Hs' & Hn & _).
  by exists v', h', lbl', D'.
Qed.

Lemma cons_shape lbl h f v D t x :
  shape true lbl h f v D t → cnt v + 1 < 2 ^ 63 → f (cnt v) = x →
  ∃ v' h' lbl' D' t', cons v x h = Ok v' h' ∧ shape true lbl' h' f v' D' t' ∧
           cnt v' = cnt v + 1.
Proof.
  intros Hs Hb Hx. pose proof (sh_leaves _ _ _ _ _ _ _ Hs) as (Ht & Hr & Hz).
  destruct (decide (cnt v - 32 * t < 32)) as [Hroom|Hfull].
  - destruct (cons_room lbl h f v D t x Hs Hb Hroom Hx) as (v' & h' & Hc & Hs' & Hn & _).
    by exists v', h', lbl, D, t.
  - destruct (cons_full lbl h f v D t x Hs Hb ltac:(lia) Hx) as (v' & h' & lbl' & D' & Hc & Hs' & Hn).
    by exists v', h', lbl', D', (t + 1).
Qed.

(** * The builder *)

(** A trie survives any change that keeps the labelled cells at its depths. *)
Lemma trie_below s lbl h lbl' h' f t d q a :
  trie s lbl h f t d q a → lbl ⊆ lbl' →
  (∀ b e p, lbl !! b = Some (e, p) → (e ≤ d)%nat → cells h' !! b = cells h !! b) →
  trie s lbl' h' f t d q a.
Proof.
  intros Ht Hsub. revert q a Ht.
  induction d as [|d IH]; cbn [trie]; intros q a (Hl & nd & Hc & Hlen & Hk) Hfr.
  - split; [by eapply lookup_weaken|]. exists nd.
    split; [by rewrite (Hfr _ _ _ Hl)|]. done.
  - split; [by eapply lookup_weaken|]. exists nd.
    split; [by rewrite (Hfr _ _ _ Hl)|]. split; [done|].
    intros k Hr. destruct (Hk k Hr) as [H1 H2]. split; [|done].
    intros Hle. destruct (H1 Hle) as (c & Hs & Hc'). exists c. split; [done|].
    apply IH; [done|]. intros b e p Hb He. apply (Hfr b e p Hb). lia.
Qed.

(** What an in-place push of leaf [t] does to the cells allocated before:
    it keeps every length field and every slot, except the slot of the new
    leaf's path in a node on that path where that slot was not in use. *)
Definition path_write (lbl : Pmap (nat * Z)) (t : Z) h h' : Prop :=
  ∀ b nd, (b < next h)%positive → cells h !! b = Some nd →
    ∃ nd', cells h' !! b = Some nd' ∧ len nd' = len nd ∧
      length (array nd') = length (array nd) ∧
      ∀ k, (∀ e, lbl !! b = Some (S e, pre t (S e)) → Z.of_nat k = pre t e mod 32 →
                 pre t e ≤ pre (t - 1) e) →
           array nd' !! k = array nd !! k.

Lemma path_write_same lbl t h h' :
  (∀ b, (b < next h)%positive → cells h' !! b = cells h !! b) → path_write lbl t h h'.
Proof. intros F b nd Hb Hc. exists nd. rewrite F by done. done. Qed.

Lemma path_write_put lbl t h h0 a nd (e : nat) (s : slot) :
  (∀ b, (b < next h)%positive → cells h0 !! b = cells h !! b) →
  cells h !! a = Some nd → lbl !! a = Some (S e, pre t (S e)) →
  0 ≤ t → pre (t - 1) e < pre t e →
  path_write lbl t h (upd a (put nd (pre t e mod 32) s) h0).
Proof.
  intros F Ha Hl Ht Hun b nd0 Hb Hc. rewrite cells_upd. case_decide as Hd.
  - subst b. assert (nd0 = nd) as -> by congruence.
    eexists. split; [done|]. split; [done|]. rewrite length_put. split; [done|].
    intros k Hk. rewrite array_put. case_decide as Hk'; [|done].
    destruct Hk' as [Hk' _]. pose proof (pre_nonneg t e Ht).
    specialize (Hk e Hl ltac:(dlia)). lia.
  - exists nd0. rewrite F by done. done.
Qed.

(** [Builder.pushTail] writes the nodes on the path of the new leaf in
    place; every other cell allocated before keeps its content. *)
Lemma bpushTail_ok f t lf (cn : Z) d : ∀ lbl h q a fuel,
  trie true lbl h f t (S d) q a → q = pre t (S d) → 0 ≤ t < 2 ^ 58 →
  lbl_ok lbl h → trie true lbl h f (t + 1) 0 t lf →
  (d ≤ fuel)%nat → lvl (S d) ≤ 60 → cn = 32 * t + 32 →
  ∃ h' lbl', bpushTail fuel cn (lvl (S d)) (Some a) (Some lf) h = Ok (Some a) h' ∧
    trie true lbl' h' f (t + 1) (S d) q a ∧ lbl_ok lbl' h' ∧
    lbl ⊆ lbl' ∧ (next h ≤ next h')%positive ∧
    (∀ b, (b < next h)%positive → lbl' !! b = lbl !! b) ∧
    (∀ b, (b < next h)%positive →
       (∀ e, (1 ≤ e ≤ S d)%nat → lbl !! b ≠ Some (e, pre t e)) →
       cells h' !! b = cells h !! b) ∧
    same_leaves lbl lbl' ∧ path_write lbl t h h'.
Proof.
  induction d as [|d IH]; intros lbl h q a fuel Ht Hq Ht0 Hok Hlf Hfuel Hlv Hcn.
  - pose proof Ht as Ht'. cbn [trie] in Ht'. destruct Ht' as (Hl & nd & Hc & Hlen & Hk).
    set (nd' := put nd (pre t 0 mod 32) (SPtr (Some lf))).
    set (h' := upd a nd' h).
    exists h', lbl. split; [|split; [|split; [|split; [|split; [|split; [|split; [|split]]]]]]].
    + destruct fuel; cbn [bpushTail]; unfold bind;
        (rewrite shr_ok by (unfold lvl; lia)); unfold ret;
        change (lvl 1 =? bits) with true; cbv iota;
        rewrite sub64_id by (apply int_bounds; lia);
        rewrite pre_level, land_mask;
        replace ((cn - 1) / 32) with t by dlia;
        rewrite (poke_ok a nd _ _ h Hc); reflexivity.
    + assert (Hfr : ∀ b e p, lbl !! b = Some (e, p) → b ≠ a → cells h' !! b = cells h !! b).
      { intros b e p Hb Hne. unfold h'. by rewrite cells_upd, decide_False. }
      apply (trie_push lbl lbl h h' f t 0 q a a nd lf); try done; try lia.
      * intros b e p Hb Hp. apply (Hfr b e p Hb). intros ->.
        rewrite Hl in Hb. inversion Hb; subst. done.
      * rewrite pre_0. apply (trie_below true lbl h); [done|done|].
        intros b e p Hb He. apply (Hfr b e p Hb). intros ->.
        rewrite Hl in Hb. inversion Hb; subst. lia.
      * unfold h'. by rewrite cells_upd, decide_True.
    + by apply lbl_ok_upd.
    + done.
    + simpl. lia.
    + done.
    + intros b Hb Hoff. unfold h'. rewrite cells_upd, decide_False; [done|].
      intros <-. apply (Hoff 1%nat); [lia|]. by rewrite Hl, Hq.
    + apply same_leaves_refl.
    + rewrite Hq in Hl.
      apply (path_write_put lbl t h h a nd 0 (SPtr (Some lf))); try done; try lia.
      rewrite !pre_0. lia.
  - pose proof Ht as Ht'. cbn [trie] in Ht'. destruct Ht' as (Hl & nd & Hc & Hlen & Hk).
    pose proof (pre_step t (S d)) as Hst. pose proof (pre_nonneg t (S d) ltac:(lia)) as HA.
    set (A := pre t (S d)) in *.
    assert (Hq' : 32 * q + A mod 32 = A) by (rewrite pre_S in Hq; fold A in Hq; dlia).
    assert (Hlevel : (lvl (S (S d)) =? bits) = false)
      by (apply Z.eqb_neq; unfold lvl, bits; lia).
    assert (Hlv' : lvl (S d) ≤ 60) by (unfold lvl in *; lia).
    assert (Hhead :
      bpushTail fuel cn (lvl (S (S d))) (Some a) (Some lf) h =
      bind (let child := get nd (A mod 32) in
            if non_nil child then
              bind (as_node child) (λ ch,
                match fuel with
                | O => fail Fuel
                | S fuel' => bpushTail fuel' cn (lvl (S d)) ch (Some lf)
                end)
            else newPath (fuel_for (lvl (S (S d)))) (lvl (S d)) (Some lf))
        (λ nodeToInsert, bind (poke (Some a) (A mod 32) (SPtr nodeToInsert))
                           (λ _, ret (Some a))) h).
    { destruct fuel as [|fuel]; cbn [bpushTail]; unfold bind;
        (rewrite shr_ok by (unfold lvl; lia)); unfold ret;
        rewrite Hlevel;
        rewrite (sub64_id cn 1) by (apply int_bounds; lia);
        rewrite pre_level, land_mask;
        replace ((cn - 1) / 32) with t by dlia; fold A;
        rewrite (sub_lvl (S d)) by done;
        rewrite (load_ok a nd h Hc); reflexivity. }
    rewrite Hhead. clear Hhead.
    destruct (Hk (A mod 32)) as [H1 H2]; [dlia|]. rewrite Hq' in H1, H2.
    destruct (decide (A ≤ pre (t - 1) (S d))) as [Hin|Hout].
    + destruct (H1 Hin) as (ch & Hs & Hch).
      destruct fuel as [|fuel]; [lia|].
      destruct (IH lbl h A ch fuel Hch eq_refl Ht0 Hok Hlf ltac:(lia) Hlv' Hcn)
        as (h2 & lbl2 & Hp & Hc2 & Hok2 & Hsub2 & Hn2 & Hl2 & Hfr2 & Hsl2 & Hpw2).
      assert (Ha2 : cells h2 !! a = Some nd).
      { rewrite Hfr2; [done|by eapply Hok|]. intros e He Heq.
        rewrite Hl in Heq. inversion Heq; subst. lia. }
      exists h2, lbl2. split; [|split; [|split; [|split; [|split; [|split; [|split; [|split]]]]]]].
      * unfold bind. rewrite (get_lookup _ _ _ Hs). cbn [non_nil as_node]. unfold ret.
        rewrite Hp. rewrite (poke_ok a nd _ _ h2 Ha2), (put_same _ _ _ Hs),
          (upd_same _ _ _ Ha2). reflexivity.
      * apply (trie_push lbl lbl2 h h2 f t (S d) q a a nd ch); try done; try lia.
        -- intros b e p Hb Hp'. apply Hfr2; [by eapply Hok|].
           intros e' He' Heq. rewrite Hb in Heq. inversion Heq; subst. done.
        -- by eapply lookup_weaken.
        -- fold A. by rewrite (put_same _ _ _ Hs).
      * done.
      * done.
      * done.
      * done.
      * intros b Hb Hoff. apply Hfr2; [done|]. intros e He. apply Hoff. lia.
      * done.
      * done.
    + pose proof (H2 ltac:(lia) eq_refl ltac:(done)) as Hs.
      assert (Hfresh : pre (t - 1) (S d) < pre t (S d)) by (fold A; lia).
      assert (Hfu : (S d ≤ fuel_for (lvl (S (S d))))%nat) by (unfold fuel_for, lvl; lia).
      destruct (newPath_ok true lbl h f t lf (S d) (fuel_for (lvl (S (S d))))
                  ltac:(lia) Hok Hlf Hfresh Hfu Hlv')
        as (h2 & lbl2 & p & Hp & Hc2 & (Hsub2 & Hn2 & Hfr2) & Hok2 & Hsl2).
      assert (Ha2 : cells h2 !! a = Some nd).
      { destruct (Hfr2 a) as [-> _]; [by eapply Hok|done]. }
      set (nd' := put nd (A mod 32) (SPtr (Some p))).
      set (h' := upd a nd' h2).
      exists h', lbl2. split; [|split; [|split; [|split; [|split; [|split; [|split; [|split]]]]]]].
      * unfold bind. rewrite (get_lookup _ _ _ Hs). cbn [non_nil]. rewrite Hp.
        rewrite (poke_ok a nd _ _ h2 Ha2). reflexivity.
      * assert (Hfr : ∀ b e p', lbl2 !! b = Some (e, p') → b ≠ a →
                        cells h' !! b = cells h2 !! b).
        { intros b e p' Hb Hne. unfold h'. by rewrite cells_upd, decide_False. }
        apply (trie_push lbl lbl2 h h' f t (S d) q a a nd p); try done; try lia.
        -- intros b e p' Hb Hp'. unfold h'. rewrite cells_upd, decide_False.
           ++ apply Hfr2. by eapply Hok.
           ++ intros <-. rewrite Hl in Hb. inversion Hb; subst. done.
        -- fold A. apply (trie_below true lbl2 h2); [done|done|].
           intros b e p' Hb He. apply (Hfr b e p' Hb). intros ->.
           pose proof (lookup_weaken _ _ _ _ Hl Hsub2) as Hl2'.
           rewrite Hl2' in Hb. inversion Hb; subst. lia.
        -- by eapply lookup_weaken.
        -- unfold h'. by rewrite cells_upd, decide_True.
      * by apply lbl_ok_upd.
      * done.
      * done.
      * intros b Hb. by destruct (Hfr2 b Hb).
      * intros b Hb Hoff. unfold h'. rewrite cells_upd, decide_False.
        -- by destruct (Hfr2 b Hb).
        -- intros <-. apply (Hoff (S (S d))); [lia|]. by rewrite Hl, Hq.
      * done.
      * rewrite Hq in Hl.
        apply (path_write_put lbl t h h2 a nd (S d) (SPtr (Some p))); try done; try lia.
        intros b Hb. by destruct (Hfr2 b Hb).
Qed.

(** A builder: a strict vector whose tail is its own to write.  Either the
    tail is outside the trie, or (straight after [NewBuilder]) root and tail
    are one node and the trie is still empty. *)
Definition bshape (lbl : Pmap (nat * Z)) h f (b : Builder) (D : nat) (t : Z) : Prop :=
  shape true lbl h f (finish b) D t ∧
  ∃ ta, btail b = Some ta ∧
        (lbl !! ta = None ∨ (broot b = Some ta ∧ t = 0 ∧ D = 1%nat)).

Lemma one_tail_ok lbl h f v' t' x nt :
  cells h !! nt = Some (put (Node 1 zero_array) 0 (SVal x)) →
  (nt < next h)%positive → lbl !! nt = None →
  cnt v' = 32 * t' + 1 → tail v' = Some nt → f (32 * t') = x →
  tail_ok lbl h f v' t'.
Proof.
  intros Hc Hlt Hn Hcn Ht Hx. exists nt, (put (Node 1 zero_array) 0 (SVal x)).
  split; [done|]. split; [done|]. split; [done|]. rewrite length_put. split; [done|].
  split; [simpl; lia|]. split; [intros q Hq; congruence|].
  intros k Hk. assert (k = 0) as -> by lia.
  rewrite array_put, decide_True by (split; [done|cbv; lia]).
  do 2 f_equal. rewrite <- Hx. f_equal. lia.
Qed.

Lemma Cons_room_strong lbl h f (bd : Builder) D t x :
  bshape lbl h f bd D t → bcnt bd + 1 < 2 ^ 63 →
  bcnt bd - 32 * t < 32 → f (bcnt bd) = x →
  ∃ bd' h', Cons bd x h = Ok bd' h' ∧ bshape lbl h' f bd' D t ∧ bcnt bd' = bcnt bd + 1 ∧
            (leaves_full lbl h → leaves_full lbl h') ∧
            next h' = next h ∧ btail bd' = btail bd ∧
            (∀ b, btail bd ≠ Some b → cells h' !! b = cells h !! b).
Proof.
  intros [Hs (ta0 & Hta0 & Hown)] Hbound Hroom Hx.
  pose proof (shape_tailoff _ _ _ _ _ _ _ Hs) as Hto.
  destruct Hs as [Hc [HD1 HD2] Hsh (Ht & Hr & Hz) Hcap (r & Hroot & Htr)
                    (ta & td & Hta & Htd & Hlt & Hlen & Hln & Htl & Hts) Hlbl].
  cbn [finish cnt shift root tail] in *.
  assert (ta0 = ta) as -> by congruence.
  set (k := bcnt bd mod 32).
  assert (Hk : k = bcnt bd - 32 * t) by (unfold k; dlia).
  set (td1 := put td k (SVal x)).
  set (td2 := Node (len td1 + 1) (array td1)).
  set (h' := upd ta td2 (upd ta td1 h)).
  exists (mkBuilder (bcnt bd + 1) (bshift bd) (broot bd) (btail bd)), h'.
  split; [|split; [|split; [done|split; [|split; [done|split; [done|]]]]]].
  - unfold Cons, btailoff. rewrite Hto. cbn [finish cnt].
    rewrite sub64_id by (apply int_bounds; lia).
    destruct (Z.ltb_spec (bcnt bd - 32 * t) 32); [|lia].
    unfold bind. rewrite Hta, land_mask. fold k.
    rewrite (poke_ok ta td _ _ h Htd). fold td1.
    rewrite (load_ok ta td1); [|by rewrite cells_upd, decide_True].
    rewrite (store_ok ta td1); [|by rewrite cells_upd, decide_True].
    rewrite !add64_id by (apply int_bounds; unfold td1; simpl; lia). reflexivity.
  - split; [|exists ta; split; [done|]; done].
    constructor; cbn [finish bcnt bshift broot btail cnt shift root tail]; try done; try lia.
    + exists r. split; [done|]. destruct Hown as [Hnone|(Hal & -> & ->)].
      * apply (trie_below true lbl h); [done|done|].
        intros b0 e p Hb _. unfold h'. rewrite !cells_upd, !decide_False; [done|congruence..].
      * assert (r = ta) as -> by congruence.
        cbn [trie] in Htr. destruct Htr as (Hl & _).
        cbn [trie]. split; [done|]. exists td2.
        split; [unfold h'; by rewrite cells_upd, decide_True|].
        split; [unfold td2, td1; simpl; by rewrite length_insert|].
        intros j Hj. rewrite pre_0. split; [lia|]. done.
    + exists ta, td2. split; [done|]. split; [unfold h'; by rewrite cells_upd, decide_True|].
      split; [done|]. split; [unfold td2, td1; simpl; by rewrite length_insert|].
      split; [unfold td2, td1; simpl; lia|]. split; [done|].
      intros j Hj. cbn [finish bcnt cnt] in Hj.
      unfold td2. cbn [array]. unfold td1. rewrite array_put. case_decide as Hd.
      * do 2 f_equal. rewrite <- Hx. f_equal. destruct Hd as [Hd _]. lia.
      * apply Hts. destruct (decide (j = k)) as [->|]; [|lia].
        exfalso. apply Hd. split; [done|]. lia.
  - intros Hlf b0 q nd Hb Hcb. unfold h' in Hcb.
    assert (Hne : b0 ≠ ta).
    { intros Heq. rewrite Heq in Hb.
      destruct Hown as [Hnone|(Hal & -> & ->)]; [congruence|].
      assert (Hra : r = ta) by congruence. rewrite Hra in Htr.
      apply trie_label in Htr. congruence. }
    rewrite !cells_upd, !decide_False in Hcb by done. by eapply Hlf.
  - intros b0 Hb0. unfold h'. rewrite !cells_upd, !decide_False; [done|congruence..].
Qed.

Lemma Cons_room lbl h f (bd : Builder) D t x :
  bshape lbl h f bd D t → bcnt bd + 1 < 2 ^ 63 →
  bcnt bd - 32 * t < 32 → f (bcnt bd) = x →
  ∃ bd' h', Cons bd x h = Ok bd' h' ∧ bshape lbl h' f bd' D t ∧ bcnt bd' = bcnt bd + 1.
Proof.
  intros Hs Hb Hr Hx.
  destruct (Cons_room_strong lbl h f bd D t x Hs Hb Hr Hx) as (bd' & h' & Hc & Hs' & Hn & _).
  by exists bd', h'.
Qed.

Lemma Cons_full_strong lbl h f (bd : Builder) D t x :
  bshape lbl h f bd D t → bcnt bd + 1 < 2 ^ 63 →
  bcnt bd - 32 * t = 32 → f (bcnt bd) = x →
  ∃ bd' h' lbl' D', Cons bd x h = Ok bd' h' ∧ bshape lbl' h' f bd' D' (t + 1) ∧
                    bcnt bd' = bcnt bd + 1 ∧
                    (D' = D ∧ pre t D ≤ 0 ∨ D' = S D ∧ 1 ≤ pre t D) ∧
                    (leaves_full lbl h → leaves_full lbl' h') ∧
                    (next h ≤ next h')%positive ∧
                    (∀ b, (b < next h)%positive → lbl' !! b = lbl !! b) ∧
                    path_write lbl t h h' ∧
                    (∃ nt, btail bd' = Some nt ∧ (next h ≤ nt)%positive).
Proof.
  intros [Hs _] Hbound Hfull Hx.
  pose proof (shape_tailoff _ _ _ _ _ _ _ Hs) as Hto.
  destruct Hs as [Hc [HD1 HD2] Hsh (Ht & Hr & Hz) Hcap (r & Hroot & Htr)
                    (ta & td & Hta & Htd & Hlt & Hlen & Hln & Htl & Hts) Hlbl].
  cbn [finish cnt shift root tail] in *.
  assert (Ht57 : 0 ≤ t < 2 ^ 58) by lia.
  set (nr := next h). set (h1 := alloc zero_node h).
  set (tn := next h1). set (h2 := alloc td h1).
  set (nt := next h2).
  set (ntd := @put T (Node 1 zero_array) 0 (SVal x)).
  set (h3 := upd nt ntd (alloc (Node 1 zero_array) h2)).
  set (lbl1 := <[tn := (O, t)]> lbl).
  assert (Htd1 : cells h1 !! ta = Some td)
    by (unfold h1; rewrite cells_alloc, decide_False by lia; done).
  assert (Hnone : lbl !! tn = None) by (apply (lbl_ok_ext _ _ Hlbl); unfold tn; simpl; lia).
  assert (Hext : ext lbl h lbl1 h3).
  { apply ext_label; [|unfold tn; simpl; lia|done].
    apply ext_upd; [|unfold nt; simpl; lia].
    eapply ext_trans; [|apply ext_alloc]. eapply ext_trans; apply ext_alloc. }
  assert (Hok1 : lbl_ok lbl1 h3).
  { apply lbl_ok_label; [|unfold tn; simpl; lia].
    by apply lbl_ok_upd, lbl_ok_alloc, lbl_ok_alloc, lbl_ok_alloc. }
  assert (Hc3 : ∀ b0, b0 ≠ nt → cells h3 !! b0 = cells h2 !! b0).
  { intros b0 Hb0. unfold h3. rewrite cells_upd, decide_False by done.
    rewrite cells_alloc, decide_False by done. done. }
  assert (Htn : trie true lbl1 h3 f (t + 1) 0 t tn).
  { apply (leaf_of_tail true lbl f (finish bd) t td); try done.
    rewrite Hc3 by (unfold nt, tn; simpl; lia).
    unfold h2, tn. by rewrite cells_alloc, decide_True. }
  assert (Htr1 : trie true lbl1 h3 f t D 0 r) by (by apply (trie_ext true lbl h)).
  assert (Hnr3 : cells h3 !! nr = Some zero_node).
  { rewrite Hc3 by (unfold nt, nr; simpl; lia).
    unfold h2, h1, nr. rewrite cells_alloc, decide_False by (simpl; lia).
    by rewrite cells_alloc, decide_True. }
  assert (Hnt3 : cells h3 !! nt = Some ntd) by (unfold h3; by rewrite cells_upd, decide_True).
  assert (Hlnt : lbl1 !! nt = None).
  { unfold lbl1. rewrite lookup_insert_ne by (unfold tn, nt; simpl; lia).
    apply (lbl_ok_ext _ _ Hlbl). unfold nt. simpl. lia. }
  assert (Hcnt32 : Z.shiftr (bcnt bd) bits = t + 1) by (unfold bits; rewrite shiftr5; dlia).
  assert (Hlf1 : leaves_full lbl h → leaves_full lbl1 h3).
  { intros Hlf b q nd Hb Hcb. unfold lbl1 in Hb. rewrite lookup_insert in Hb.
    case_decide as Hd.
    - subst b. rewrite Hc3 in Hcb by (unfold nt, tn; simpl; lia).
      unfold h2, tn in Hcb. rewrite cells_alloc, decide_True in Hcb by done.
      inversion Hcb; subst nd. lia.
    - destruct Hext as (_ & _ & F). destruct (F b (Hlbl _ _ Hb)) as [E _].
      rewrite E in Hcb. by eapply Hlf. }
  destruct (decide (1 ≤ pre t D)) as [Hov|Hno].
  - (* the trie is full: a new root *)
    pose proof (overflow_level t D Ht57 Hov) as Hlv.
    destruct (root_grow lbl1 h3 f t D r tn nr) as (h5 & lbl5 & p & Hnp & Hnr5 & Hfin);
      try done.
    { unfold lbl1. rewrite lookup_insert_ne by (unfold tn, nr; simpl; lia).
      apply (lbl_ok_ext _ _ Hlbl). unfold nr. lia. }
    { unfold nr. simpl. lia. }
    cbv zeta in Hfin. destruct Hfin as (Htr6 & Hok6 & Hsub6 & Hn6 & Hc6 & Hl6 & Hsl6).
    set (h6 := upd nr _ h5) in *. set (lbl6 := <[nr := _]> lbl5) in *.
    assert (Hnt6 : cells h6 !! nt = Some ntd ∧ lbl6 !! nt = None).
    { rewrite Hc6, Hl6 by (unfold nt, nr; simpl; lia). done. }
    destruct Hnt6 as [Hnt6 Hlnt6].
    eexists _, _, lbl6, (S D).
    split; [|split; [|split; [|split; [|split; [|split; [|split; [|split]]]]]]].
    + unfold Cons, btailoff. rewrite Hto. cbn [finish cnt].
      rewrite sub64_id by (apply int_bounds; lia).
      destruct (Z.ltb_spec (bcnt bd - 32 * t) 32); [lia|].
      unfold bind at 1. unfold new at 1. fold h1 nr.
      unfold bind at 1. rewrite Hta, (clone_ok ta td h1 Htd1). fold h2 tn.
      unfold bind at 1. rewrite newValueNode_ok. fold nt ntd h3.
      unfold bind at 1. rewrite Hsh, shl_one by (unfold lvl in *; lia). unfold ret at 1.
      rewrite Hcnt32.
      destruct (Z.gtb_spec (t + 1) (2 ^ lvl D)).
      2:{ apply pre_ge_1 in Hov; lia. }
      unfold bind.
      rewrite (load_ok nr zero_node h3 Hnr3), (store_ok nr zero_node _ _ Hnr3).
      cbn [len array zero_node]. rewrite (add64_id 0 2) by (apply int_bounds; lia).
      change (0 + 2) with 2.
      rewrite (poke_ok nr (Node 2 zero_array)); [|by rewrite cells_upd, decide_True].
      rewrite Hroot, Hnp. rewrite (poke_ok nr _ _ _ h5 Hnr5). fold h6.
      unfold ret. cbn [fst snd].
      rewrite !add64_id by (apply int_bounds; unfold lvl in *; lia).
      reflexivity.
    + split; [|exists nt; split; [done|by left]].
      constructor; cbn [finish bcnt bshift broot btail cnt shift root tail]; try done; try lia.
      * unfold lvl in *. lia.
      * replace (t + 1 - 1) with t by lia. rewrite pre_S.
        pose proof (pre_step t D). dlia.
      * by exists nr.
      * apply (one_tail_ok lbl6 h6 f _ (t + 1) x nt); try done.
        -- unfold nt in *. simpl in *. lia.
        -- simpl. lia.
        -- rewrite <- Hx. f_equal. lia.
    + reflexivity.
    + right. done.
    + intros Hlf b q nd Hb Hcb. pose proof (Hsl6 _ _ Hb) as Hb1.
      assert (Hne : b ≠ nr).
      { intros ->. unfold lbl1 in Hb1.
        rewrite lookup_insert_ne in Hb1 by (unfold tn, nr; simpl; lia).
        specialize (Hlbl _ _ Hb1). unfold nr in Hlbl. lia. }
      rewrite Hc6 in Hcb by (try done; apply (Hok1 _ _ Hb1)).
      by eapply (Hlf1 Hlf).
    + destruct Hext as (_ & N & _). lia.
    + intros b Hb. destruct Hext as (_ & N & F). destruct (F b Hb) as [_ E].
      rewrite Hl6 by (unfold nr; lia). done.
    + apply path_write_same. intros b Hb. destruct Hext as (_ & N & F).
      destruct (F b Hb) as [E _]. rewrite Hc6 by (unfold nr; lia). done.
    + exists nt. split; [done|]. unfold nt. simpl. lia.
  - (* room in the trie *)
    pose proof (pre_step t D) as Hst. pose proof (pre_nonneg t D ltac:(lia)) as HA.
    destruct D as [|d]; [lia|].
    destruct (bpushTail_ok f t tn (bcnt bd) d lbl1 h3 0 r (fuel_for (lvl (S d))))
      as (h4 & lbl4 & Hp & Htr4 & Hok4 & Hsub4 & Hn4 & Hl4 & Hfr4 & Hsl4 & Hpw4);
      try done; try lia.
    { unfold fuel_for, lvl. lia. }
    assert (Hnt4 : cells h4 !! nt = Some ntd ∧ lbl4 !! nt = None).
    { rewrite Hfr4, Hl4; [done|unfold nt; simpl; lia|unfold nt; simpl; lia|].
      intros e _. congruence. }
    destruct Hnt4 as [Hnt4 Hlnt4].
    eexists _, _, lbl4, (S d).
    split; [|split; [|split; [|split; [|split; [|split; [|split; [|split]]]]]]].
    + unfold Cons, btailoff. rewrite Hto. cbn [finish cnt].
      rewrite sub64_id by (apply int_bounds; lia).
      destruct (Z.ltb_spec (bcnt bd - 32 * t) 32); [lia|].
      unfold bind at 1. unfold new at 1. fold h1 nr.
      unfold bind at 1. rewrite Hta, (clone_ok ta td h1 Htd1). fold h2 tn.
      unfold bind at 1. rewrite newValueNode_ok. fold nt ntd h3.
      unfold bind at 1. rewrite Hsh, shl_one by done. unfold ret at 1.
      rewrite Hcnt32.
      destruct (Z.gtb_spec (t + 1) (2 ^ lvl (S d))).
      { exfalso. apply Hno. apply pre_ge_1; lia. }
      unfold bind. rewrite Hroot, Hp. unfold ret. cbn [fst snd].
      rewrite !add64_id by (apply int_bounds; unfold lvl in *; lia).
      reflexivity.
    + split; [|exists nt; split; [done|by left]].
      constructor; cbn [finish bcnt bshift broot btail cnt shift root tail]; try done; try lia.
      * replace (t + 1 - 1) with t by lia. lia.
      * by exists r.
      * apply (one_tail_ok lbl4 h4 f _ (t + 1) x nt); try done.
        -- unfold nt in *. simpl in *. lia.
        -- simpl. lia.
        -- rewrite <- Hx. f_equal. lia.
    + reflexivity.
    + left. split; [done|lia].
    + intros Hlf b q nd Hb Hcb. pose proof (Hsl4 _ _ Hb) as Hb1.
      rewrite Hfr4 in Hcb; [by eapply (Hlf1 Hlf)|by apply (Hok1 _ _ Hb1)|].
      intros e He. rewrite Hb1. intros Heq. inversion Heq. lia.
    + destruct Hext as (_ & N & _). lia.
    + intros b Hb. destruct Hext as (_ & N & F). destruct (F b Hb) as [_ E].
      rewrite Hl4 by lia. done.
    + intros b nd Hb Hcb. destruct Hext as (_ & N & F). destruct (F b Hb) as [E1 E2].
      rewrite <- E1 in Hcb. destruct (Hpw4 b nd ltac:(lia) Hcb) as (nd' & Hc' & Hl' & Hlen' & Hk').
      exists nd'. do 3 (split; [done|]). intros k Hk. apply Hk'. by rewrite E2.
    + exists nt. split; [done|]. unfold nt. simpl. lia.
Qed.

Lemma Cons_full lbl h f (bd : Builder) D t x :
  bshape lbl h f bd D t → bcnt bd + 1 < 2 ^ 63 →
  bcnt bd - 32 * t = 32 → f (bcnt bd) = x →
  ∃ bd' h' lbl' D', Cons bd x h = Ok bd' h' ∧ bshape lbl' h' f bd' D' (t + 1) ∧
                    bcnt bd' = bcnt bd + 1.
Proof.
  intros Hs Hb Hf Hx.
  destruct (Cons_full_strong lbl h f bd D t x Hs Hb Hf Hx)
    as (bd' & h' & lbl' & D' & Hc & Hs' & Hn & _).
  by exists bd', h', lbl', D'.
Qed.

Lemma Cons_shape lbl h f (bd : Builder) D t x :
  bshape lbl h f bd D t → bcnt bd + 1 < 2 ^ 63 → f (bcnt bd) = x →
  ∃ bd' h' lbl' D' t', Cons bd x h = Ok bd' h' ∧ bshape lbl' h' f bd' D' t' ∧
                       bcnt bd' = bcnt bd + 1.
Proof.
  intros Hs Hb Hx. pose proof (sh_leaves _ _ _ _ _ _ _ (proj1 Hs)) as (Ht & Hr & Hz).
  cbn [finish cnt] in *.
  destruct (decide (bcnt bd - 32 * t < 32)) as [Hroom|Hfull].
  - destruct (Cons_room lbl h f bd D t x Hs Hb Hroom Hx) as (bd' & h' & Hc & Hs' & Hn).
    by exists bd', h', lbl, D, t.
  - destruct (Cons_full lbl h f bd D t x Hs Hb ltac:(lia) Hx)
      as (bd' & h' & lbl' & D' & Hc & Hs' & Hn).
    by exists bd', h', lbl', D', (t + 1).
Qed.

(** [ts] are the elements of [f] from index [n] on. *)
Definition segment f (n : Z) (ts : list T) : Prop :=
  ∀ j x, ts !! j = Some x → x = f (n + Z.of_nat j).

Lemma segment_cons f n x ts : segment f n (x :: ts) → x = f n ∧ segment f (n + 1) ts.
Proof.
  intros H. split.
  - rewrite (H O x eq_refl). f_equal. lia.
  - intros j y Hj. rewrite (H (S j) y Hj). f_equal. lia.
Qed.

Lemma BAppend_shape f ts : ∀ lbl h (bd : Builder) D t,
  bshape lbl h f bd D t → bcnt bd + Z.of_nat (length ts) < 2 ^ 63 →
  segment f (bcnt bd) ts →
  ∃ bd' h' lbl' D' t', BAppend bd ts h = Ok bd' h' ∧ bshape lbl' h' f bd' D' t' ∧
                       bcnt bd' = bcnt bd + Z.of_nat (length ts).
Proof.
  induction ts as [|x ts IH]; intros lbl h bd D t Hs Hb Hseg.
  - exists bd, h, lbl, D, t. split; [done|]. split; [done|]. simpl. lia.
  - apply segment_cons in Hseg as [Hx Hseg]. cbn [length] in Hb.
    destruct (Cons_shape lbl h f bd D t x Hs ltac:(lia) (eq_sym Hx))
      as (bd1 & h1 & lbl1 & D1 & t1 & Hc & Hs1 & Hn1).
    destruct (IH lbl1 h1 bd1 D1 t1 Hs1) as (bd' & h' & lbl' & D' & t' & Ha & Hs' & Hn');
      [lia|by rewrite Hn1|].
    exists bd', h', lbl', D', t'. split; [|split; [done|]].
    + cbn [BAppend]. unfold bind. by rewrite Hc.
    + cbn [length]. lia.
Qed.

(** A copy of a trie node is a trie node. *)
Lemma trie_clone s lbl lbl' h h' f t d q a a' :
  trie s lbl h f t d q a → lbl ⊆ lbl' →
  (∀ b l, lbl !! b = Some l → cells h' !! b = cells h !! b) →
  lbl' !! a' = Some (d, q) → cells h' !! a' = cells h !! a →
  trie s lbl' h' f t d q a'.
Proof.
  intros Ht Hsub Hfr Hl' Hc'. destruct d as [|d]; cbn [trie] in *.
  - destruct Ht as (Hl & nd & Hc & Hlen & Hk). split; [done|]. exists nd.
    split; [by rewrite Hc'|]. done.
  - destruct Ht as (Hl & nd & Hc & Hlen & Hk). split; [done|]. exists nd.
    split; [by rewrite Hc'|]. split; [done|].
    intros k Hr. destruct (Hk k Hr) as [H1 H2]. split; [|done].
    intros Hle. destruct (H1 Hle) as (c & Hs & Hc0). exists c. split; [done|].
    apply (trie_below s lbl h); [done|done|]. intros b e p Hb _. by eapply Hfr.
Qed.

(** The empty vector that [newVector] makes: root and tail are one node. *)
Lemma newVector_shape lbl h f :
  lbl_ok lbl h →
  shape true (<[next h := (1%nat, 0)]> lbl) (alloc zero_node h) f
    (mkVector 0 bits (Some (next h)) (Some (next h))) 1 0.
Proof.
  intros Hok.
  assert (Hc : cells (alloc (@zero_node T) h) !! next h = Some zero_node)
    by (by rewrite cells_alloc, decide_True).
  constructor; cbn [cnt shift root tail]; try done; try (unfold lvl, bits; lia).
  - exists (next h). split; [done|]. cbn [trie]. split; [by rewrite lookup_insert_eq|].
    exists zero_node. split; [done|]. split; [done|].
    intros k Hk. rewrite pre_0. split; [lia|done].
  - exists (next h), zero_node. split; [done|]. split; [done|]. split; [simpl; lia|].
    split; [done|]. split; [simpl; lia|]. split.
    + intros q. rewrite lookup_insert_eq. congruence.
    + intros k Hk. simpl in Hk. lia.
  - apply lbl_ok_label; [by apply lbl_ok_alloc|simpl; lia].
Qed.

Lemma transient_shape_strong lbl h f v D t :
  shape true lbl h f v D t →
  ∃ (bd : Builder) h' lbl', transient v h = Ok bd h' ∧ bshape lbl' h' f bd D t ∧
                            bcnt bd = cnt v ∧ ext lbl h lbl' h' ∧ same_leaves lbl lbl'.
Proof.
  intros Hs. pose proof (shape_not_zero _ _ _ _ _ _ _ Hs) as Hnz.
  destruct Hs as [Hc [HD1 HD2] Hsh (Ht & Hr & Hz) Hcap (r & Hroot & Htr)
                    (ta & td & Hta & Htd & Hlt & Hlen & Hln & Htl & Hts) Hlbl].
  destruct (trie_cell _ _ _ _ _ _ _ _ Htr) as (rd & Hrd & Hrlen).
  set (nr := next h). set (h1 := alloc rd h).
  set (nt := next h1). set (h2 := alloc td h1).
  set (lbl' := <[nr := (D, 0)]> lbl).
  assert (Htd1 : cells h1 !! ta = Some td)
    by (unfold h1; rewrite cells_alloc, decide_False by lia; done).
  assert (Hnone : lbl !! nr = None) by (apply (lbl_ok_ext _ _ Hlbl); unfold nr; lia).
  assert (Hfr : ∀ b l, lbl !! b = Some l → cells h2 !! b = cells h !! b).
  { intros b l Hb. specialize (Hlbl b l Hb). unfold h2, h1.
    rewrite !cells_alloc, !decide_False by (simpl; lia). done. }
  exists (mkBuilder (cnt v) (shift v) (Some nr) (Some nt)), h2, lbl'.
  split; [|split; [|split; [done|split]]].
  - unfold transient. rewrite Hnz. unfold bind, ret. rewrite Hroot, (clone_ok r rd h Hrd).
    fold h1 nr. rewrite Hta, (clone_ok ta td h1 Htd1). reflexivity.
  - split.
    + constructor; cbn [finish bcnt bshift broot btail cnt shift root tail]; try done.
      * exists nr. split; [done|].
        apply (trie_clone true lbl lbl' h h2 f t D 0 r nr); try done.
        -- by apply insert_subseteq.
        -- unfold lbl'. by rewrite lookup_insert_eq.
        -- rewrite Hrd. unfold h2, h1, nr. rewrite cells_alloc, decide_False by (simpl; lia).
           by rewrite cells_alloc, decide_True.
      * exists nt, td. split; [done|]. split; [unfold h2, nt; by rewrite cells_alloc, decide_True|].
        split; [unfold nt; simpl; lia|]. do 2 (split; [done|]). split; [|done].
        intros q. unfold lbl'. rewrite lookup_insert_ne by (unfold nr, nt; simpl; lia).
        rewrite (lbl_ok_ext _ _ Hlbl) by (unfold nt; simpl; lia). congruence.
      * apply lbl_ok_label; [by apply lbl_ok_alloc, lbl_ok_alloc|unfold nr; simpl; lia].
    + exists nt. split; [done|]. left. unfold lbl'.
      rewrite lookup_insert_ne by (unfold nr, nt; simpl; lia).
      apply (lbl_ok_ext _ _ Hlbl). unfold nt. simpl. lia.
  - apply ext_label; [|unfold nr; lia|done]. eapply ext_trans; apply ext_alloc.
  - destruct D as [|D']; [lia|]. apply same_leaves_inner.
Qed.

Lemma transient_shape lbl h f v D t :
  shape true lbl h f v D t →
  ∃ (bd : Builder) h' lbl', transient v h = Ok bd h' ∧ bshape lbl' h' f bd D t ∧
                            bcnt bd = cnt v.
Proof.
  intros Hs.
  destruct (transient_shape_strong lbl h f v D t Hs) as (bd & h' & lbl' & Ht & Hb & Hn & _).
  by exists bd, h', lbl'.
Qed.

(** * Programs over the public interface *)

(** What a caller sees of a call: its value or its panic. *)
Definition obs {A} (r : res A) : A + panic :=
  match r with Ok a _ => inl a | Err p => inr p end.

(** [v = v.Append(x)] for each [x] in turn. *)
Fixpoint append_each (v : Vector) (xs : list T) : M Vector :=
  match xs with
  | [] => ret v
  | x :: xs' => bind (Append v [x]) (λ v', append_each v' xs')
  end.

(** [b := NewBuilder(); b.Append(xs...); b.Vector()]. *)
Definition via_builder (xs : list T) : M Vector :=
  bind NewBuilder (λ bd, bind (BAppend bd xs) (λ bd', ret (finish bd'))).

(** The elements of a list by index. *)
Definition elems (xs : list T) (i : Z) : T := nth (Z.to_nat i) xs zeroT.

(** [v] is a well-formed vector in store [h] with elements [f 0], [f 1], ... *)
Definition holds h v f : Prop :=
  v = zeroVector ∨ ∃ lbl D t, shape false lbl h f v D t.

(** [v] stores the sequence [xs]. *)
Definition repr h v (xs : list T) : Prop :=
  cnt v = Z.of_nat (length xs) ∧ holds h v (elems xs).

Lemma segment_elems xs : segment (elems xs) 0 xs.
Proof.
  intros j x Hj. unfold elems. replace (Z.to_nat (0 + Z.of_nat j)) with j by lia.
  rewrite nth_lookup, Hj. done.
Qed.

Lemma segment_tail f n x ts : segment f n (x :: ts) → segment f (n + 1) ts.
Proof. intros H. by apply segment_cons in H as [_ H]. Qed.

Lemma shape_weaken s lbl h f v D t : shape s lbl h f v D t → shape false lbl h f v D t.
Proof.
  intros [? ? ? ? ? (r & Hr & Htr) ? ?]. constructor; try done.
  exists r. split; [done|]. by eapply trie_weaken.
Qed.

Lemma shape_holds s lbl h f v D t : shape s lbl h f v D t → holds h v f.
Proof. intros Hs. right. exists lbl, D, t. by eapply shape_weaken. Qed.

Lemma At_out v i h : ¬ (0 ≤ i < cnt v) → At zeroT v i h = Err OutOfBounds.
Proof.
  intros Hi. unfold At, bind, nodeFor.
  destruct (Z.geb_spec i 0); [|done]. destruct (Z.ltb_spec i (cnt v)); [lia|done].
Qed.

Lemma At_holds h v f i : holds h v f → 0 ≤ i < cnt v → At zeroT v i h = Ok (f i) h.
Proof.
  intros [->|(lbl & D & t & Hs)] Hi; [simpl in Hi; lia|]. by eapply At_ok.
Qed.

Lemma At_obs h v f i :
  holds h v f →
  obs (At zeroT v i h) =
    if (0 <=? i) && (i <? cnt v) then inl (f i) else inr OutOfBounds.
Proof.
  intros Hh. destruct (Z.leb_spec 0 i); destruct (Z.ltb_spec i (cnt v)); cbn [andb].
  - by rewrite (At_holds h v f i Hh).
  - rewrite At_out; [done|lia].
  - rewrite At_out; [done|lia].
  - rewrite At_out; [done|lia].
Qed.

(** The zero value takes the shape of [newVector] on first use. *)
Lemma cons_zero x h :
  cons zeroVector x h =
    cons (mkVector 0 bits (Some (next h)) (Some (next h))) x (alloc zero_node h).
Proof. reflexivity. Qed.

Lemma transient_zero h :
  transient (T:=T) zeroVector h =
    transient (mkVector 0 bits (Some (next h)) (Some (next h))) (alloc zero_node h).
Proof. reflexivity. Qed.

Lemma lbl_ok_empty h : lbl_ok ∅ h.
Proof. intros b l Hb. by rewrite lookup_empty in Hb. Qed.

Lemma append_each_shape f ts : ∀ lbl h v D t,
  shape true lbl h f v D t → cnt v + Z.of_nat (length ts) < 2 ^ 63 →
  segment f (cnt v) ts →
  ∃ v' h' lbl' D' t', append_each v ts h = Ok v' h' ∧ shape true lbl' h' f v' D' t' ∧
                      cnt v' = cnt v + Z.of_nat (length ts).
Proof.
  induction ts as [|x ts IH]; intros lbl h v D t Hs Hb Hseg.
  - exists v, h, lbl, D, t. split; [done|]. split; [done|]. simpl. lia.
  - apply segment_cons in Hseg as [Hx Hseg]. cbn [length] in Hb.
    destruct (cons_shape lbl h f v D t x Hs ltac:(lia) (eq_sym Hx))
      as (v1 & h1 & lbl1 & D1 & t1 & Hc & Hs1 & Hn1).
    destruct (IH lbl1 h1 v1 D1 t1 Hs1) as (v' & h' & lbl' & D' & t' & Ha & Hs' & Hn');
      [lia|by rewrite Hn1|].
    exists v', h', lbl', D', t'. split; [|split; [done|]].
    + cbn [append_each Append]. unfold bind. by rewrite Hc.
    + cbn [length]. lia.
Qed.

(** One [cons] on the zero value. *)
Lemma cons_zero_shape f x h :
  f 0 = x →
  ∃ v h' lbl D t, cons zeroVector x h = Ok v h' ∧ shape true lbl h' f v D t ∧ cnt v = 1.
Proof.
  intros Hx. rewrite cons_zero.
  pose proof (newVector_shape ∅ h f (lbl_ok_empty h)) as Hs.
  destruct (cons_shape _ _ f _ _ _ x Hs) as (v & h' & lbl & D & t & Hc & Hs' & Hn);
    [simpl; lia|done|].
  exists v, h', lbl, D, t. done.
Qed.

Lemma append_each_zero xs h :
  Z.of_nat (length xs) < 2 ^ 63 →
  ∃ v h', append_each zeroVector xs h = Ok v h' ∧ repr h' v xs.
Proof.
  intros Hb. destruct xs as [|x xs].
  - exists zeroVector, h. split; [done|]. split; [done|]. by left.
  - pose proof (segment_elems (x :: xs)) as Hseg.
    apply segment_cons in Hseg as [Hx Hseg]. cbn [length] in Hb.
    destruct (cons_zero_shape (elems (x :: xs)) x h (eq_sym Hx))
      as (v1 & h1 & lbl1 & D1 & t1 & Hc & Hs1 & Hn1).
    destruct (append_each_shape (elems (x :: xs)) xs lbl1 h1 v1 D1 t1 Hs1)
      as (v' & h' & lbl' & D' & t' & Ha & Hs' & Hn'); [lia|by rewrite Hn1|].
    exists v', h'. split.
    + cbn [append_each Append]. unfold bind. by rewrite Hc.
    + split; [cbn [length]; lia|]. by eapply shape_holds.
Qed.

Lemma New_repr xs h :
  Z.of_nat (length xs) < 2 ^ 63 → ∃ v h', New xs h = Ok v h' ∧ repr h' v xs.
Proof.
  intros Hb. destruct xs as [|x xs].
  - exists zeroVector, h. split; [done|]. split; [done|]. by left.
  - set (ys := x :: xs) in *.
    pose proof (newVector_shape ∅ h (elems ys) (lbl_ok_empty h)) as Hs.
    destruct (transient_shape _ _ _ _ _ _ Hs) as (bd & h1 & lbl1 & Htr & Hbs & Hn).
    destruct (BAppend_shape (elems ys) ys lbl1 h1 bd 1 0 Hbs)
      as (bd' & h' & lbl' & D' & t' & Ha & [Hs' _] & Hn').
    { rewrite Hn. cbn [cnt]. lia. } { rewrite Hn. apply segment_elems. }
    exists (finish bd'), h'. split.
    + unfold New, ys. fold ys. unfold bind. rewrite transient_zero, Htr, Ha. done.
    + split; [|by eapply shape_holds]. cbn [finish cnt]. rewrite Hn', Hn. cbn [cnt]. lia.
Qed.

Lemma Append_zero_repr xs h :
  Z.of_nat (length xs) < 2 ^ 63 →
  ∃ v h', Append zeroVector xs h = Ok v h' ∧ repr h' v xs.
Proof.
  intros Hb. destruct xs as [|x [|y xs]].
  - exists zeroVector, h. split; [done|]. split; [done|]. by left.
  - destruct (cons_zero_shape (elems [x]) x h eq_refl)
      as (v1 & h1 & lbl1 & D1 & t1 & Hc & Hs1 & Hn1).
    exists v1, h1. split; [done|]. split; [done|]. by eapply shape_holds.
  - set (ys := x :: y :: xs) in *.
    pose proof (segment_elems ys) as Hseg. apply segment_cons in Hseg as [Hx Hseg].
    destruct (cons_zero_shape (elems ys) x h (eq_sym Hx))
      as (v1 & h1 & lbl1 & D1 & t1 & Hc & Hs1 & Hn1).
    destruct (transient_shape _ _ _ _ _ _ Hs1) as (bd & h2 & lbl2 & Htr & Hbs & Hn).
    destruct (BAppend_shape (elems ys) (y :: xs) lbl2 h2 bd D1 t1 Hbs)
      as (bd' & h' & lbl' & D' & t' & Ha & [Hs' _] & Hn').
    { rewrite Hn, Hn1. unfold ys in Hb. cbn [length] in *. lia. }
    { rewrite Hn, Hn1. exact Hseg. }
    exists (finish bd'), h'. split.
    + unfold Append, ys. unfold bind. rewrite Hc, Htr, Ha. done.
    + split; [|by eapply shape_holds]. cbn [finish cnt]. rewrite Hn', Hn, Hn1.
      unfold ys. cbn [length]. lia.
Qed.

Lemma NewBuilder_shape f h :
  ∃ (bd : Builder) h' lbl, NewBuilder h = Ok bd h' ∧ bshape lbl h' f bd 1 0 ∧ bcnt bd = 0.
Proof.
  exists (mkBuilder 0 bits (Some (next h)) (Some (next h))), (alloc zero_node h),
         (<[next h := (1%nat, 0)]> ∅).
  split; [done|]. split; [|done]. split.
  - apply (newVector_shape ∅ h f (lbl_ok_empty h)).
  - exists (next h). split; [done|]. right. done.
Qed.

Lemma via_builder_repr xs h :
  Z.of_nat (length xs) < 2 ^ 63 → ∃ v h', via_builder xs h = Ok v h' ∧ repr h' v xs.
Proof.
  intros Hb.
  destruct (NewBuilder_shape (elems xs) h) as (bd & h1 & lbl1 & Hnb & Hbs & Hn).
  destruct (BAppend_shape (elems xs) xs lbl1 h1 bd 1 0 Hbs)
    as (bd' & h' & lbl' & D' & t' & Ha & [Hs' _] & Hn').
  { rewrite Hn. lia. } { rewrite Hn. apply segment_elems. }
  exists (finish bd'), h'. split.
  - unfold via_builder, bind. rewrite Hnb, Ha. done.
  - split; [|by eapply shape_holds]. cbn [finish cnt]. rewrite Hn', Hn. lia.
Qed.

(** * Where the explicit panic can come from *)

(** A computation that never raises the explicit out-of-bounds panic. *)
Definition quiet {A} (m : M A) : Prop := ∀ h, m h ≠ Err OutOfBounds.

Lemma quiet_ret {A} (y : A) : quiet (ret y).
Proof. intros h. done. Qed.

Lemma quiet_fail {A} p : p ≠ OutOfBounds → quiet (@fail T A p).
Proof. intros Hp h. unfold fail. congruence. Qed.

Lemma quiet_bind {A B} (m : M A) (k : A → M B) :
  quiet m → (∀ y, quiet (k y)) → quiet (bind m k).
Proof.
  intros Hm Hk h. unfold bind. specialize (Hm h).
  destruct (m h) as [y h'|p]; [apply Hk|congruence].
Qed.

Lemma quiet_if {A} (c : bool) (m1 m2 : M A) :
  quiet m1 → quiet m2 → quiet (if c then m1 else m2).
Proof. by destruct c. Qed.

Lemma quiet_load p : quiet (load p).
Proof. intros h. unfold load. destruct p as [a|]; [|done]. by destruct (cells h !! a). Qed.

Lemma quiet_store p nd : quiet (store p nd).
Proof. intros h. unfold store. destruct p as [a|]; [|done]. by destruct (cells h !! a). Qed.

Lemma quiet_new nd : quiet (new nd).
Proof. intros h. done. Qed.

Lemma quiet_as_node (s : slot) : quiet (as_node s).
Proof. intros h. by destruct s. Qed.

Lemma quiet_shr x l : quiet (@shr T x l).
Proof. intros h. unfold shr. by destruct (l <? 0). Qed.

Lemma quiet_shl x l : quiet (@shl T x l).
Proof. intros h. unfold shl. by destruct (l <? 0). Qed.

Ltac quiet_step :=
  first
    [ apply quiet_ret | apply quiet_load | apply quiet_store | apply quiet_new
    | apply quiet_as_node | apply quiet_shr | apply quiet_shl
    | apply quiet_fail; discriminate
    | apply quiet_bind; [|intros ?]
    | apply quiet_if ].

Ltac quiet_auto := repeat quiet_step.

Lemma quiet_poke p k (s : slot) : quiet (poke p k s).
Proof. unfold poke. quiet_auto. Qed.

Lemma quiet_clone p : quiet (@clone T p).
Proof. unfold clone. quiet_auto. Qed.

Lemma quiet_newPathNode p : quiet (@newPathNode T p).
Proof. unfold newPathNode. quiet_auto. Qed.

Lemma quiet_newPath fuel : ∀ level p, quiet (@newPath T fuel level p).
Proof.
  induction fuel as [|fuel IH]; intros level p; cbn [newPath]; quiet_auto;
    try apply IH; try apply quiet_newPathNode.
Qed.

Lemma quiet_fill p vs : ∀ i, quiet (@fill T p i vs).
Proof.
  induction vs as [|v vs IH]; intros i; cbn [fill]; quiet_auto; try apply IH.
Qed.

Lemma quiet_newValueNode vs : quiet (@newValueNode T vs).
Proof. unfold newValueNode. quiet_auto; try apply quiet_fill. Qed.

Lemma quiet_newVector : quiet (@newVector T).
Proof. unfold newVector. quiet_auto. Qed.

Lemma quiet_pushTail fuel : ∀ cn level p tn, quiet (@pushTail T fuel cn level p tn).
Proof.
  induction fuel as [|fuel IH]; intros cn level p tn; cbn [pushTail]; quiet_auto;
    try apply quiet_clone; try apply quiet_poke; try apply quiet_newPath; try apply IH.
Qed.

Lemma quiet_doAssoc fuel : ∀ level p i x, quiet (@doAssoc T fuel level p i x).
Proof.
  induction fuel as [|fuel IH]; intros level p i x; cbn [doAssoc]; quiet_auto;
    try apply quiet_poke; try apply IH.
Qed.

Lemma quiet_cons v x : quiet (@cons T v x).
Proof.
  unfold cons. quiet_auto;
    try apply quiet_newVector; try apply quiet_clone; try apply quiet_poke;
    try apply quiet_newPath; try apply quiet_pushTail; try apply quiet_newValueNode.
Qed.

(** * The claims that hold *)

(** C4.  Bulk construction: for every sequence [xs] (of a length that fits an
    [int]), [New(xs)] returns a vector of length [len(xs)] whose [At(i)] is
    [xs[i]] for every valid index [i]. *)
Theorem New_correct (xs : list T) h :
  Z.of_nat (length xs) < 2 ^ 63 →
  ∃ v h', New xs h = Ok v h' ∧ Len v = Z.of_nat (length xs) ∧
          ∀ i x, xs !! i = Some x → At zeroT v (Z.of_nat i) h' = Ok x h'.
Proof.
  intros Hb. destruct (New_repr xs h Hb) as (v & h' & Hn & Hc & Hh).
  exists v, h'. split; [done|]. split; [done|].
  intros i x Hi. pose proof (lookup_lt_Some _ _ _ Hi) as Hlt.
  rewrite (At_holds h' v (elems xs) (Z.of_nat i) Hh) by lia.
  f_equal. unfold elems. rewrite Nat2Z.id, nth_lookup, Hi. done.
Qed.

(** C5.  One-by-one, batch and builder construction agree: appending the
    elements of [xs] one call at a time, in one [Append] call, through [New],
    and through a [Builder] finished with [Vector()] all succeed and give
    vectors of the same length that answer every [At(i)] alike. *)
Theorem build_equiv (xs : list T) h1 h2 h3 h4 :
  Z.of_nat (length xs) < 2 ^ 63 →
  ∃ v1 k1 v2 k2 v3 k3 v4 k4,
    append_each zeroVector xs h1 = Ok v1 k1 ∧
    Append zeroVector xs h2 = Ok v2 k2 ∧
    New xs h3 = Ok v3 k3 ∧
    via_builder xs h4 = Ok v4 k4 ∧
    Len v1 = Z.of_nat (length xs) ∧
    Len v2 = Len v1 ∧ Len v3 = Len v1 ∧ Len v4 = Len v1 ∧
    ∀ i, obs (At zeroT v2 i k2) = obs (At zeroT v1 i k1) ∧
         obs (At zeroT v3 i k3) = obs (At zeroT v1 i k1) ∧
         obs (At zeroT v4 i k4) = obs (At zeroT v1 i k1).
Proof.
  intros Hb.
  destruct (append_each_zero xs h1 Hb) as (v1 & k1 & E1 & C1 & H1).
  destruct (Append_zero_repr xs h2 Hb) as (v2 & k2 & E2 & C2 & H2).
  destruct (New_repr xs h3 Hb) as (v3 & k3 & E3 & C3 & H3).
  destruct (via_builder_repr xs h4 Hb) as (v4 & k4 & E4 & C4 & H4).
  exists v1, k1, v2, k2, v3, k3, v4, k4.
  do 4 (split; [done|]). unfold Len. do 4 (split; [congruence|]).
  intros i. rewrite (At_obs k1 v1 _ i H1), (At_obs k2 v2 _ i H2),
    (At_obs k3 v3 _ i H3), (At_obs k4 v4 _ i H4).
  rewrite C1, C2, C3, C4. done.
Qed.

(** C7.  [Set] at the boundary: [v.Set(v.Len(), x)] is the very call
    [v.Append(x)], with the same result and the same store, and (a length
    being non-negative) [Set] raises the out-of-bounds panic exactly when the
    index is negative or above [Len()]. *)
Theorem Set_boundary h v i x :
  (i = Len v → Set_ v i x h = Append v [x] h) ∧
  (0 ≤ Len v → (Set_ v i x h = Err OutOfBounds ↔ i < 0 ∨ Len v < i)).
Proof.
  unfold Len. split; [|intros Hlen; split].
  - intros ->. unfold Set_, Append.
    destruct (Z.ltb_spec (cnt v) (cnt v)); [lia|]. rewrite andb_false_r.
    by rewrite Z.eqb_refl.
  - intros Herr. destruct (decide (0 ≤ i ≤ cnt v)) as [Hin|]; [|lia]. exfalso.
    revert h Herr.
    change (quiet (Set_ v i x)). unfold Set_.
    destruct (Z.geb_spec i 0); [|lia]. cbn [andb].
    destruct (Z.ltb_spec i (cnt v)).
    + quiet_auto; try apply quiet_clone; try apply quiet_poke; apply quiet_doAssoc.
    + destruct (Z.eqb_spec i (cnt v)); [|lia]. apply quiet_cons.
  - intros Hi. unfold Set_.
    destruct (Z.eqb_spec i (cnt v)); [lia|].
    destruct (Z.geb_spec i 0); destruct (Z.ltb_spec i (cnt v)); cbn [andb]; try lia; done.
Qed.

(** C10.  The zero value is a usable empty vector: its length is 0, [Pop]
    returns it, [Append(x)] and [Set(0, x)] both give a vector of length 1
    that answers [x] at 0, and [At] on it raises the out-of-bounds panic; no
    call touches the nil root or tail. *)
Theorem zero_value_usable h x :
  Len zeroVector = 0 ∧
  Pop (T:=T) zeroVector h = Ok zeroVector h ∧
  (∃ v h', Append zeroVector [x] h = Ok v h' ∧ Len v = 1 ∧ At zeroT v 0 h' = Ok x h') ∧
  (∃ v h', Set_ zeroVector 0 x h = Ok v h' ∧ Len v = 1 ∧ At zeroT v 0 h' = Ok x h') ∧
  (∀ i, At zeroT zeroVector i h = Err OutOfBounds).
Proof.
  assert (Hcons : ∃ v h', cons zeroVector x h = Ok v h' ∧ Len v = 1 ∧
                          At zeroT v 0 h' = Ok x h').
  { destruct (cons_zero_shape (λ _, x) x h eq_refl) as (v & h' & lbl & D & t & Hc & Hs & Hn).
    exists v, h'. split; [done|]. split; [done|].
    by rewrite (At_ok true lbl h' _ v D t 0 Hs) by lia. }
  split; [done|]. split; [done|]. split; [exact Hcons|]. split; [exact Hcons|].
  intros i. apply At_out. simpl. lia.
Qed.

(** * What a successful call tells *)

Lemma bind_inv {A B} (m : M A) (k : A → M B) h y h' :
  bind m k h = Ok y h' → ∃ z h1, m h = Ok z h1 ∧ k z h1 = Ok y h'.
Proof. unfold bind. destruct (m h) as [z h1|p]; [|done]. eauto. Qed.

Lemma ret_inv {A} (z y : A) h h' : ret z h = Ok y h' → y = z ∧ h' = h.
Proof. unfold ret. intros H. by inversion H. Qed.

Lemma load_inv p h nd h' :
  load p h = Ok nd h' → h' = h ∧ ∃ a, p = Some a ∧ cells h !! a = Some nd.
Proof.
  unfold load. destruct p as [a|]; [|done].
  destruct (cells h !! a) as [nd0|] eqn:E; [|done].
  intros H. inversion H; subst. eauto.
Qed.

Lemma store_inv p nd h u h' :
  store p nd h = Ok u h' → ∃ a, p = Some a ∧ h' = upd a nd h.
Proof.
  unfold store. destruct p as [a|]; [|done].
  destruct (cells h !! a) as [nd0|]; [|done].
  intros H. inversion H; subst. eauto.
Qed.

Lemma new_inv nd h p h' : new nd h = Ok p h' → p = Some (next h) ∧ h' = alloc nd h.
Proof. unfold new. intros H. by inversion H. Qed.

Lemma poke_inv p k (s : slot) h u h' :
  poke p k s h = Ok u h' →
  ∃ a nd, p = Some a ∧ cells h !! a = Some nd ∧ h' = upd a (put nd k s) h.
Proof.
  unfold poke. intros H. apply bind_inv in H as (nd & h1 & Hl & Hs).
  apply load_inv in Hl as (-> & a & -> & Hc).
  apply store_inv in Hs as (a' & Ha & ->). inversion Ha; subst. eauto.
Qed.

Lemma clone_inv p h r h' :
  clone p h = Ok r h' →
  ∃ a nd, p = Some a ∧ cells h !! a = Some nd ∧ r = Some (next h) ∧
          h' = alloc (Node (len nd) (array nd)) h.
Proof.
  unfold clone. intros H. apply bind_inv in H as (nd & h1 & Hl & Hn).
  apply load_inv in Hl as (-> & a & -> & Hc).
  apply new_inv in Hn as (-> & ->). eauto 10.
Qed.

Lemma as_node_inv (s : slot) h p h' : as_node s h = Ok p h' → s = SPtr p ∧ h' = h.
Proof. destruct s; try done. intros H. by inversion H. Qed.

Lemma shr_inv x l h y h' : @shr T x l h = Ok y h' → 0 ≤ l ∧ y = Z.shiftr x l ∧ h' = h.
Proof.
  unfold shr. destruct (Z.ltb_spec l 0) as [|Hl]; [done|]. intros E. by inversion E.
Qed.

Lemma shl_inv x l h y h' : @shl T x l h = Ok y h' → 0 ≤ l ∧ y = shl64 x l ∧ h' = h.
Proof.
  unfold shl. destruct (Z.ltb_spec l 0) as [|Hl]; [done|]. intros E. by inversion E.
Qed.

Tactic Notation "unbind" hyp(H) "as" simple_intropattern(z) simple_intropattern(h1)
    simple_intropattern(Hz) :=
  let H' := fresh in
  apply bind_inv in H as (z & h1 & Hz & H'); try clear H; rename H' into H.

Lemma newPathNode_eq p h :
  newPathNode p h =
    Ok (Some (next h))
       (upd (next h) (put (Node 1 zero_array) 0 (SPtr p)) (alloc (Node 1 zero_array) h)).
Proof.
  unfold newPathNode, bind, new.
  rewrite (poke_ok (next h) (Node 1 zero_array)); [done|].
  by rewrite cells_alloc, decide_True.
Qed.

(** * Calls that leave every existing cell alone *)

(** The store grew: every cell allocated before has its content. *)
Definition grown h h' : Prop :=
  (next h ≤ next h')%positive ∧
  ∀ b, (b < next h)%positive → cells h' !! b = cells h !! b.

Lemma grown_refl h : grown h h.
Proof. split; [lia|done]. Qed.

Lemma grown_trans h1 h2 h3 : grown h1 h2 → grown h2 h3 → grown h1 h3.
Proof.
  intros [N1 F1] [N2 F2]. split; [lia|].
  intros b Hb. rewrite F2 by lia. by apply F1.
Qed.

Lemma grown_alloc h0 h nd : grown h0 h → grown h0 (alloc nd h).
Proof.
  intros [N F]. split; [simpl; lia|].
  intros b Hb. rewrite cells_alloc, decide_False by lia. by apply F.
Qed.

Lemma grown_upd h0 h a nd : grown h0 h → (next h0 ≤ a)%positive → grown h0 (upd a nd h).
Proof.
  intros [N F] Ha. split; [done|].
  intros b Hb. rewrite cells_upd, decide_False by lia. by apply F.
Qed.

Lemma ext_grown lbl h lbl' h' : ext lbl h lbl' h' → grown h h'.
Proof. intros (_ & N & F). split; [done|]. intros b Hb. by destruct (F b Hb). Qed.

Lemma newPath_grown fuel : ∀ level p h r h',
  newPath fuel level p h = Ok r h' → grown h h'.
Proof.
  induction fuel as [|fuel IH]; intros level p h r h'; cbn [newPath];
    destruct (level <=? 0).
  - intros H. apply ret_inv in H as [_ ->]. apply grown_refl.
  - done.
  - intros H. apply ret_inv in H as [_ ->]. apply grown_refl.
  - intros H. apply bind_inv in H as (p1 & h1 & Hn & Hp).
    rewrite newPathNode_eq in Hp. inversion Hp; subst.
    apply grown_upd; [|apply (IH _ _ _ _ _ Hn)].
    apply grown_alloc. by eapply IH.
Qed.

Lemma pushTail_grown fuel : ∀ cn level p tn h r h',
  pushTail fuel cn level p tn h = Ok r h' → grown h h'.
Proof.
  induction fuel as [|fuel IH]; intros cn level p tn h r h' H.
  - cbn [pushTail] in H.
    unbind H as q h1 Hq. apply shr_inv in Hq as (_ & -> & ->).
    unbind H as pd h1 Hl. apply load_inv in Hl as (-> & a & -> & Hc).
    unbind H as r0 h1 Hcl.
    apply clone_inv in Hcl as (a' & nd & _ & _ & -> & ->).
    unbind H as ins h2 Hi.
    unbind H as u h3 Hp. apply ret_inv in H as [_ ->].
    apply poke_inv in Hp as (b & nd' & Hb & _ & ->). inversion Hb; subst b.
    apply grown_upd; [|lia].
    assert (Hg : grown (alloc (Node (len nd) (array nd)) h) h2).
    { destruct (level =? bits).
      - apply ret_inv in Hi as [_ ->]. apply grown_refl.
      - destruct (non_nil _).
        + apply bind_inv in Hi as (ch & h4 & _ & Hf). done.
        + by eapply newPath_grown. }
    eapply grown_trans; [|exact Hg]. apply grown_alloc, grown_refl.
  - cbn [pushTail] in H.
    unbind H as q h1 Hq. apply shr_inv in Hq as (_ & -> & ->).
    unbind H as pd h1 Hl. apply load_inv in Hl as (-> & a & -> & Hc).
    unbind H as r0 h1 Hcl.
    apply clone_inv in Hcl as (a' & nd & _ & _ & -> & ->).
    unbind H as ins h2 Hi.
    unbind H as u h3 Hp. apply ret_inv in H as [_ ->].
    apply poke_inv in Hp as (b & nd' & Hb & _ & ->). inversion Hb; subst b.
    apply grown_upd; [|lia].
    assert (Hg : grown (alloc (Node (len nd) (array nd)) h) h2).
    { destruct (level =? bits).
      - apply ret_inv in Hi as [_ ->]. apply grown_refl.
      - destruct (non_nil _).
        + apply bind_inv in Hi as (ch & h4 & Ha & Hf).
          apply as_node_inv in Ha as [_ ->]. by eapply IH.
        + by eapply newPath_grown. }
    eapply grown_trans; [|exact Hg]. apply grown_alloc, grown_refl.
Qed.

Lemma newVector_inv h v h' :
  newVector (T:=T) h = Ok v h' →
  v = mkVector 0 bits (Some (next h)) (Some (next h)) ∧ h' = alloc zero_node h.
Proof. unfold newVector, bind, new, ret. intros H. by inversion H. Qed.

Lemma wake_grown v h v1 h1 :
  (if is_zero v then newVector else ret v) h = Ok v1 h1 → grown h h1.
Proof.
  destruct (is_zero v); intros H.
  - apply newVector_inv in H as [_ ->]. apply grown_alloc, grown_refl.
  - apply ret_inv in H as [_ ->]. apply grown_refl.
Qed.

(** [cons] writes only cells it has allocated itself, and the tail of its
    result is one of them. *)
Lemma cons_inv v x h w h' :
  cons v x h = Ok w h' →
  grown h h' ∧ ∃ a, tail w = Some a ∧ (next h ≤ a)%positive.
Proof.
  unfold cons. intros H. unbind H as v1 h1 Hv.
  assert (Hg1 : grown h h1) by (by eapply wake_grown).
  assert (Hin : grown h1 h' ∧ ∃ a, tail w = Some a ∧ (next h1 ≤ a)%positive).
  2:{ destruct Hin as (Hg & a & Ha & Hle). split; [by eapply grown_trans|].
      exists a. split; [done|]. destruct Hg1 as [N _]. lia. }
  clear Hv Hg1.
  destruct (sub64 (cnt v1) (tailoff v1) <? 32).
  - unbind H as td h2 Hl. apply load_inv in Hl as (-> & a & _ & _).
    unbind H as nt h2 Hc. apply clone_inv in Hc as (a' & nd & _ & _ & -> & ->).
    unbind H as nd1 h2 Hl. apply load_inv in Hl as (-> & _).
    unbind H as u h2 Hs. apply store_inv in Hs as (b & Hb & ->). inversion Hb; subst b.
    unbind H as u' h3 Hp. apply ret_inv in H as [-> ->].
    destruct ((0 <=? len td) && (len td <? width)); [|done].
    apply poke_inv in Hp as (b & nd' & Hb' & _ & ->). inversion Hb'; subst b.
    split; [|exists (next h1); split; [done|lia]].
    apply grown_upd; [|lia]. apply grown_upd; [|lia]. apply grown_alloc, grown_refl.
  - unbind H as nr h2 Hn. apply new_inv in Hn as (-> & ->).
    unbind H as tn h2 Hc. apply clone_inv in Hc as (a' & nd & _ & _ & -> & ->).
    unbind H as lim h2 Hs. apply shl_inv in Hs as (_ & _ & ->).
    unbind H as rs h2 Hrs. unbind H as nt h3 Hnv. apply ret_inv in H as [-> ->].
    rewrite newValueNode_ok in Hnv. inversion Hnv; subst. clear Hnv.
    set (h0 := alloc (Node (len nd) (array nd)) (alloc zero_node h1)) in *.
    assert (H0 : grown h1 h0) by (apply grown_alloc, grown_alloc, grown_refl).
    assert (Hg : grown h1 h2).
    { destruct (Z.shiftr (cnt v1) bits >? lim).
      - unbind Hrs as nd0 h3 Hl. apply load_inv in Hl as (-> & _).
        unbind Hrs as u h3 Hs. apply store_inv in Hs as (b & Hb & ->). inversion Hb; subst b.
        unbind Hrs as u1 h3 Hp.
        apply poke_inv in Hp as (b & nd' & Hb' & _ & ->). inversion Hb'; subst b.
        unbind Hrs as p h3 Hnp. apply newPath_grown in Hnp.
        unbind Hrs as u2 h4 Hp.
        apply poke_inv in Hp as (b & nd'' & Hb'' & _ & ->). inversion Hb''; subst b.
        apply ret_inv in Hrs as [_ ->].
        apply grown_upd; [|lia]. eapply grown_trans; [|exact Hnp].
        apply grown_upd; [|lia]. apply grown_upd; [|lia]. exact H0.
      - unbind Hrs as r h3 Hp. apply ret_inv in Hrs as [_ ->].
        apply pushTail_grown in Hp. by eapply grown_trans. }
    destruct Hg as [Hn Hg]. split; [|exists (next h2); split; [done|lia]].
    apply grown_upd; [|lia]. by apply grown_alloc.
Qed.

Lemma cons_grown v x h w h' : cons v x h = Ok w h' → grown h h'.
Proof. intros H. by apply cons_inv in H as [? _]. Qed.

(** * Reads *)

Lemma descend_same fuel : ∀ level p i h r h',
  descend fuel level p i h = Ok r h' → h' = h.
Proof.
  induction fuel as [|fuel IH]; intros level p i h r h'; cbn [descend];
    destruct (level >? 0); try done.
  - intros H. by apply ret_inv in H as [_ ->].
  - intros H. unbind H as nd h1 Hl. apply load_inv in Hl as (-> & _).
    unbind H as c h1 Ha. apply as_node_inv in Ha as [_ ->]. by eapply IH.
  - intros H. by apply ret_inv in H as [_ ->].
Qed.

Lemma nodeFor_same v i h r h' : nodeFor v i h = Ok r h' → h' = h.
Proof.
  unfold nodeFor. destruct ((i >=? 0) && (i <? cnt v)); [|done].
  destruct (i >=? tailoff v).
  - intros H. by apply ret_inv in H as [_ ->].
  - apply descend_same.
Qed.

Lemma At_same v i h x h' : At zeroT v i h = Ok x h' → h' = h.
Proof.
  unfold At. intros H. unbind H as n h1 Hn. apply nodeFor_same in Hn as ->.
  unbind H as nd h1 Hl. apply load_inv in Hl as (-> & _).
  by apply ret_inv in H as [_ ->].
Qed.

(** * [Pop] writes only cells it has allocated itself *)

Lemma popTail_grown fuel : ∀ cn level p h r h',
  popTail fuel cn level p h = Ok r h' → grown h h'.
Proof.
  assert (Hleaf : ∀ p k (s : slot) h r h',
    bind (clone p) (λ r, bind (poke r k s) (λ _, ret r)) h = Ok r h' → grown h h').
  { intros p k s h r h' H. unbind H as r0 h1 Hc.
    apply clone_inv in Hc as (a & nd & _ & _ & -> & ->).
    unbind H as u h2 Hp. apply poke_inv in Hp as (b & nd' & Hb & _ & ->).
    inversion Hb; subst b. apply ret_inv in H as [_ ->].
    apply grown_upd; [|lia]. apply grown_alloc, grown_refl. }
  induction fuel as [|fuel IH]; intros cn level p h r h' H; cbn [popTail] in H.
  - unbind H as q h1 Hq. apply shr_inv in Hq as (_ & -> & ->).
    destruct (level >? bits); [done|].
    destruct (_ =? 0).
    + apply ret_inv in H as [_ ->]. apply grown_refl.
    + by eapply Hleaf.
  - unbind H as q h1 Hq. apply shr_inv in Hq as (_ & -> & ->).
    destruct (level >? bits).
    + unbind H as nd h1 Hl. apply load_inv in Hl as (-> & _).
      unbind H as ch h1 Ha. apply as_node_inv in Ha as [_ ->].
      unbind H as nc h1 Hr. apply IH in Hr.
      eapply grown_trans; [exact Hr|].
      destruct nc as [c|].
      * by eapply Hleaf.
      * destruct (_ =? 0).
        -- apply ret_inv in H as [_ ->]. apply grown_refl.
        -- by eapply Hleaf.
    + destruct (_ =? 0).
      * apply ret_inv in H as [_ ->]. apply grown_refl.
      * by eapply Hleaf.
Qed.

Lemma Pop_grown v h w h' : Pop v h = Ok w h' → grown h h'.
Proof.
  unfold Pop. intros H. destruct (cnt v <=? 1).
  { apply ret_inv in H as [_ ->]. apply grown_refl. }
  destruct (sub64 (cnt v) (tailoff v) >? 1).
  - unbind H as td h1 Hl. apply load_inv in Hl as (-> & _).
    unbind H as nt h1 Hn. apply new_inv in Hn as (-> & ->).
    unbind H as u h1 Hc.
    assert (h1 = alloc (Node (sub64 (len td) 1) zero_array) h) as ->.
    { destruct (_ && _); [by apply ret_inv in Hc as [_ ->]|done]. }
    unbind H as sd h1 Hl. apply load_inv in Hl as (-> & _).
    unbind H as nd h1 Hl. apply load_inv in Hl as (-> & _).
    unbind H as u' h1 Hs. apply store_inv in Hs as (b & Hb & ->). inversion Hb; subst b.
    apply ret_inv in H as [_ ->].
    apply grown_upd; [|lia]. apply grown_alloc, grown_refl.
  - unbind H as nt h1 Hn. apply nodeFor_same in Hn as ->.
    unbind H as r h1 Hp. apply popTail_grown in Hp.
    unbind H as nr h2 Hr.
    assert (Hg2 : grown h1 h2).
    { destruct r.
      - apply ret_inv in Hr as [_ ->]. apply grown_refl.
      - apply new_inv in Hr as (_ & ->). apply grown_alloc, grown_refl. }
    unbind H as nd h3 Hl. apply load_inv in Hl as (-> & _).
    unbind H as rs h3 Hrs. apply ret_inv in H as [_ ->].
    eapply grown_trans; [exact Hp|]. eapply grown_trans; [exact Hg2|].
    destruct (_ && _).
    + unbind Hrs as nr' h4 Hn. apply ret_inv in Hrs as [_ ->].
      destruct (negb _).
      * apply new_inv in Hn as (_ & ->). apply grown_alloc, grown_refl.
      * apply ret_inv in Hn as [_ ->]. apply grown_refl.
    + apply ret_inv in Hrs as [_ ->]. apply grown_refl.
Qed.

(** * [Set] inside the vector *)

(** [doAssoc] returns the node it was given, allocates nothing and changes
    array slots only. *)
Lemma doAssoc_inv fuel : ∀ level p i x h r h',
  doAssoc fuel level p i x h = Ok r h' →
  r = p ∧ next h' = next h ∧ ∀ b, len <$> cells h' !! b = len <$> cells h !! b.
Proof.
  assert (Hpoke : ∀ p k (s : slot) h u h', poke p k s h = Ok u h' →
    next h' = next h ∧ ∀ b, len <$> cells h' !! b = len <$> cells h !! b).
  { intros p k s h u h' H. apply poke_inv in H as (a & nd & -> & Hc & ->).
    split; [done|]. intros b. rewrite cells_upd. case_decide; [|done].
    subst b. by rewrite Hc. }
  induction fuel as [|fuel IH]; intros level p i x h r h' H; cbn [doAssoc] in H.
  - destruct (level =? 0).
    + unbind H as u h1 Hp. apply ret_inv in H as [-> ->]. split; [done|]. by eapply Hpoke.
    + unbind H as q h1 Hq. apply shr_inv in Hq as (_ & -> & ->).
      unbind H as nd h1 Hl. apply load_inv in Hl as (-> & _).
      unbind H as c h1 Ha. apply as_node_inv in Ha as [_ ->].
      unbind H as r' h1 Hr. done.
  - destruct (level =? 0).
    + unbind H as u h1 Hp. apply ret_inv in H as [-> ->]. split; [done|]. by eapply Hpoke.
    + unbind H as q h1 Hq. apply shr_inv in Hq as (_ & -> & ->).
      unbind H as nd h1 Hl. apply load_inv in Hl as (-> & _).
      unbind H as c h1 Ha. apply as_node_inv in Ha as [_ ->].
      unbind H as r' h1 Hr. apply IH in Hr as (_ & Hn1 & Hl1).
      unbind H as u h2 Hp. apply ret_inv in H as [-> ->].
      apply Hpoke in Hp as [Hn2 Hl2]. split; [done|]. split; [congruence|].
      intros b. by rewrite Hl2, Hl1.
Qed.

(** What [Set] does to the store at an index in range: at a tail index it
    writes a copy of the tail; below the tail offset it returns the receiver
    and writes the cells the receiver holds. *)
Lemma Set_inv v i x h w h' :
  Set_ v i x h = Ok w h' → 0 ≤ i < cnt v →
  (tailoff v ≤ i → grown h h' ∧ tail w = Some (next h) ∧ root w = root v) ∧
  (i < tailoff v → w = v ∧ next h' = next h) ∧
  ∀ b, (b < next h)%positive → len <$> cells h' !! b = len <$> cells h !! b.
Proof.
  unfold Set_. intros H Hi.
  destruct (Z.geb_spec i 0); [|lia]. destruct (Z.ltb_spec i (cnt v)); [|lia].
  cbn [andb] in H. destruct (Z.geb_spec i (tailoff v)).
  - unbind H as nt h1 Hc. apply clone_inv in Hc as (a & nd & _ & _ & -> & ->).
    unbind H as u h1 Hp. apply poke_inv in Hp as (b & nd' & Hb & _ & ->).
    inversion Hb; subst b. apply ret_inv in H as [-> ->].
    assert (Hg : grown h (upd (next h) (put nd' (Z.land i mask) (SVal x))
                           (alloc (Node (len nd) (array nd)) h))).
    { apply grown_upd; [|lia]. apply grown_alloc, grown_refl. }
    split; [done|]. split; [lia|]. intros b Hb'. destruct Hg as [_ Hg]. by rewrite Hg.
  - unbind H as r h1 Hd. apply doAssoc_inv in Hd as (-> & Hn & Hl).
    apply ret_inv in H as [-> ->]. split; [lia|]. split; [by destruct v|].
    intros b _. apply Hl.
Qed.

(** * Versions survive a growing store *)

Lemma shape_grown s lbl h h' f v D t :
  shape s lbl h f v D t → grown h h' → shape s lbl h' f v D t.
Proof.
  intros [Hc HD Hsh Hl Hcap (r & Hroot & Htr)
            (ta & td & Hta & Htd & Hlt & Hlen & Hln & Htl & Hts) Hlbl] [Hn Hg].
  constructor; try done.
  - exists r. split; [done|]. apply (trie_keep s lbl h); [done|done| |lia].
    intros b l Hb. apply Hg. by eapply Hlbl.
  - exists ta, td. split; [done|]. split; [by rewrite Hg|]. split; [lia|]. done.
  - intros b l Hb. specialize (Hlbl b l Hb). lia.
Qed.

Lemma holds_grown h h' v f : holds h v f → grown h h' → holds h' v f.
Proof.
  intros [->|(lbl & D & t & Hs)] Hg; [by left|].
  right. exists lbl, D, t. by eapply shape_grown.
Qed.

Lemma repr_At h v xs i x :
  repr h v xs → xs !! i = Some x → At zeroT v (Z.of_nat i) h = Ok x h.
Proof.
  intros [Hc Hh] Hi. pose proof (lookup_lt_Some _ _ _ Hi) as Hlt.
  rewrite (At_holds h v (elems xs) (Z.of_nat i) Hh) by lia.
  f_equal. unfold elems. rewrite Nat2Z.id, nth_lookup, Hi. done.
Qed.

Lemma repr_grown h h' v xs : repr h v xs → grown h h' → repr h' v xs.
Proof. intros [Hc Hh] Hg. split; [done|]. by eapply holds_grown. Qed.

Lemma repr_grown_obs h h' v xs :
  repr h v xs → grown h h' →
  repr h' v xs ∧ ∀ i, obs (At zeroT v i h') = obs (At zeroT v i h).
Proof.
  intros Hr Hg. pose proof (repr_grown h h' v xs Hr Hg) as Hr'.
  split; [done|]. intros i.
  by rewrite (At_obs h' v _ i (proj2 Hr')), (At_obs h v _ i (proj2 Hr)).
Qed.

Lemma leaves_full_grown lbl h h' :
  lbl_ok lbl h → grown h h' → leaves_full lbl h → leaves_full lbl h'.
Proof.
  intros Hok [_ Hg] Hlf b q nd Hb Hc. rewrite Hg in Hc by (by eapply Hok).
  by eapply Hlf.
Qed.

(** The elements beyond the length do not matter. *)
Lemma shape_agree s lbl h f f' v D t :
  shape s lbl h f v D t → (∀ j, 0 ≤ j < cnt v → f' j = f j) →
  shape s lbl h f' v D t.
Proof.
  intros [Hc [HD1 HD2] Hsh (Ht & Hr & Hz) Hcap (r & Hroot & Htr)
            (ta & td & Hta & Htd & Hlt & Hlen & Hln & Htl & Hts) Hlbl] Hf.
  constructor; try done.
  - exists r. split; [done|].
    apply (trie_frame s lbl lbl h h f f' t D 0 r); try done; try lia.
    intros j Hj. apply Hf. lia.
  - exists ta, td. do 6 (split; [done|]).
    intros k Hk. rewrite Hf by lia. by apply Hts.
Qed.

(** * Vectors as the constructors make them *)

(** The root of a vector of depth two or more has its second slot in use:
    the trie is no deeper than its leaves need. *)
Definition tall (D : nat) (t : Z) : Prop := (2 ≤ D)%nat → 1 ≤ pre (t - 1) (D - 1).

(** The tail is a node of its own, outside the trie; or (as [newVector]
    leaves it) root and tail are one node and the trie is still empty. *)
Definition own_tail (lbl : Pmap (nat * Z)) v (D : nat) (t : Z) : Prop :=
  ∃ ta, tail v = Some ta ∧
        (lbl !! ta = None ∨ (root v = Some ta ∧ t = 0 ∧ D = 1%nat)).

(** [v] stores [xs] in the form [New], [Append] and [Set] give a vector:
    unused slots of inner nodes are nil interfaces, the trie is no deeper
    than needed, every leaf is a full node, and the tail is outside the
    trie. *)
Definition canonical h v (xs : list T) : Prop :=
  cnt v = Z.of_nat (length xs) ∧
  (v = zeroVector ∨
   ∃ lbl D t, shape true lbl h (elems xs) v D t ∧ tall D t ∧ leaves_full lbl h ∧
              own_tail lbl v D t).

Lemma canonical_repr h v xs : canonical h v xs → repr h v xs.
Proof.
  intros [Hc [->|(lbl & D & t & Hs & _)]]; (split; [done|]); [by left|].
  by eapply shape_holds.
Qed.

Lemma elems_app_l xs ys j : 0 ≤ j < Z.of_nat (length xs) → elems (xs ++ ys) j = elems xs j.
Proof. intros Hj. unfold elems. apply app_nth1. lia. Qed.

Lemma elems_insert xs i x j :
  0 ≤ i → 0 ≤ j < Z.of_nat (length xs) →
  elems (<[Z.to_nat i := x]> xs) j = fset (elems xs) i x j.
Proof.
  intros Hi Hj. unfold elems, fset. rewrite !nth_lookup. case_decide as Hd.
  - subst j. rewrite list_lookup_insert_eq by lia. done.
  - rewrite list_lookup_insert_ne by lia. done.
Qed.

Lemma tall_step D D' t :
  tall D t → D' = D ∧ pre t D ≤ 0 ∨ D' = S D ∧ 1 ≤ pre t D → tall D' (t + 1).
Proof.
  unfold tall. replace (t + 1 - 1) with t by lia.
  intros Ht [[-> _]|[-> H1]] HD.
  - pose proof (pre_step t (D - 1)). specialize (Ht HD). lia.
  - by replace (S D - 1)%nat with D by lia.
Qed.

Lemma cons_step lbl h f v D t x :
  shape true lbl h f v D t → tall D t → leaves_full lbl h →
  cnt v + 1 < 2 ^ 63 → f (cnt v) = x →
  ∃ w h' lbl' D' t', cons v x h = Ok w h' ∧ shape true lbl' h' f w D' t' ∧
    tall D' t' ∧ leaves_full lbl' h' ∧ cnt w = cnt v + 1 ∧ own_tail lbl' w D' t' ∧
    ext lbl h lbl' h' ∧ t ≤ t' ∧ (D ≤ D')%nat ∧ (t = 0 → D = 1%nat → D' = 1%nat).
Proof.
  intros Hs Ht Hlf Hb Hx. pose proof (sh_leaves _ _ _ _ _ _ _ Hs) as (Ht0 & Hr & Hz).
  destruct (decide (cnt v - 32 * t < 32)) as [Hroom|Hfull].
  - destruct (cons_room lbl h f v D t x Hs Hb Hroom Hx) as (w & h' & Hc & Hs' & Hn & Hext).
    exists w, h', lbl, D, t. split; [done|]. split; [done|]. split; [done|].
    split; [|split; [done|split; [|split; [done|split; [lia|split; [lia|done]]]]]].
    + apply (leaves_full_ext lbl h); [by eapply shape_lbl_ok|done|apply same_leaves_refl|done].
    + destruct (cons_inv v x h w h' Hc) as (_ & a & Ha & Hle).
      exists a. split; [done|]. left.
      by apply (lbl_ok_ext _ _ (shape_lbl_ok _ _ _ _ _ _ _ Hs)).
  - destruct (cons_full_strong lbl h f v D t x Hs Hb ltac:(lia) Hx)
      as (w & h' & lbl' & D' & Hc & Hs' & Hn & Hext & HD & Hlf' & ta & Hta & Hnone).
    exists w, h', lbl', D', (t + 1). split; [done|]. split; [done|].
    split; [by eapply tall_step|]. split; [by apply Hlf'|]. split; [done|].
    split; [exists ta; split; [done|by left]|]. split; [done|]. split; [lia|].
    split; [destruct HD as [[-> _]|[-> _]]; lia|].
    intros -> ->. destruct HD as [[-> _]|[_ H1]]; [done|].
    rewrite pre_S, pre_0 in H1. dlia.
Qed.

(** What a run of the builder does to the cells below [n0]: it keeps every
    length field and every slot that a trie of [t] leaves uses. *)
Definition bkeeps (lbl : Pmap (nat * Z)) (t : Z) (n0 : positive) h h' : Prop :=
  ∀ b nd, (b < n0)%positive → cells h !! b = Some nd →
    ∃ nd', cells h' !! b = Some nd' ∧ len nd' = len nd ∧
      length (array nd') = length (array nd) ∧
      ∀ k, (∀ e p, lbl !! b = Some (S e, p) → 32 * p + Z.of_nat k ≤ pre (t - 1) e) →
           array nd' !! k = array nd !! k.

Lemma bkeeps_same lbl t n0 h h' :
  (∀ b, (b < n0)%positive → cells h' !! b = cells h !! b) → bkeeps lbl t n0 h h'.
Proof. intros F b nd Hb Hc. exists nd. rewrite F by done. done. Qed.

Lemma path_write_bkeeps lbl t n0 h h' :
  path_write lbl t h h' → (n0 ≤ next h)%positive → bkeeps lbl t n0 h h'.
Proof.
  intros Hpw Hn b nd Hb Hc.
  destruct (Hpw b nd ltac:(lia) Hc) as (nd' & Hc' & Hl' & Hlen' & Hk').
  exists nd'. do 3 (split; [done|]). intros k Hk. apply Hk'.
  intros e Hlb Hke. specialize (Hk e _ Hlb). rewrite pre_S in Hk. dlia.
Qed.

Lemma bkeeps_trans lbl lbl1 t t1 n0 h h1 h2 :
  bkeeps lbl t n0 h h1 → bkeeps lbl1 t1 n0 h1 h2 → t ≤ t1 →
  (∀ b, (b < n0)%positive → lbl1 !! b = lbl !! b) →
  bkeeps lbl t n0 h h2.
Proof.
  intros K1 K2 Ht Hl b nd Hb Hc.
  destruct (K1 b nd Hb Hc) as (nd1 & Hc1 & Hl1 & Hlen1 & Hk1).
  destruct (K2 b nd1 Hb Hc1) as (nd2 & Hc2 & Hl2 & Hlen2 & Hk2).
  exists nd2. split; [done|]. split; [congruence|]. split; [congruence|].
  intros k Hk. rewrite Hk2, Hk1; [done|done|].
  intros e p Hlb. rewrite Hl in Hlb by done. specialize (Hk e p Hlb).
  pose proof (pre_mono (t - 1) (t1 - 1) e ltac:(lia)). lia.
Qed.

(** One [Cons] of a builder whose own cells lie at [n0] or above. *)
Lemma Cons_apart lbl h f (bd : Builder) D t x n0 :
  bshape lbl h f bd D t → tall D t → leaves_full lbl h →
  bcnt bd + 1 < 2 ^ 63 → f (bcnt bd) = x →
  (n0 ≤ next h)%positive → (∃ bt, btail bd = Some bt ∧ (n0 ≤ bt)%positive) →
  ∃ bd' h' lbl' D' t', Cons bd x h = Ok bd' h' ∧ bshape lbl' h' f bd' D' t' ∧
    tall D' t' ∧ leaves_full lbl' h' ∧ bcnt bd' = bcnt bd + 1 ∧
    (n0 ≤ next h')%positive ∧ (∃ bt, btail bd' = Some bt ∧ (n0 ≤ bt)%positive) ∧
    t ≤ t' ∧ (∀ b, (b < n0)%positive → lbl' !! b = lbl !! b) ∧
    bkeeps lbl t n0 h h'.
Proof.
  intros Hs Ht Hlf Hb Hx Hn0 (bt & Hbt & Hbt0).
  pose proof (sh_leaves _ _ _ _ _ _ _ (proj1 Hs)) as (Ht0 & Hr & Hz).
  cbn [finish cnt] in *.
  destruct (decide (bcnt bd - 32 * t < 32)) as [Hroom|Hfull].
  - destruct (Cons_room_strong lbl h f bd D t x Hs Hb Hroom Hx)
      as (bd' & h' & Hc & Hs' & Hn & Hlf' & Hnx & Htl & Hfr).
    exists bd', h', lbl, D, t. split; [done|]. split; [done|]. split; [done|].
    split; [by apply Hlf'|]. split; [done|]. split; [lia|].
    split; [exists bt; split; [congruence|done]|]. split; [lia|]. split; [done|].
    apply bkeeps_same. intros b Hlt. apply Hfr. rewrite Hbt. intros Heq.
    inversion Heq. lia.
  - destruct (Cons_full_strong lbl h f bd D t x Hs Hb ltac:(lia) Hx)
      as (bd' & h' & lbl' & D' & Hc & Hs' & Hn & HD & Hlf' & Hnx & Hst & Hpw & nt & Hnt & Hge).
    exists bd', h', lbl', D', (t + 1). split; [done|]. split; [done|].
    split; [by eapply tall_step|]. split; [by apply Hlf'|]. split; [done|].
    split; [lia|]. split; [exists nt; split; [done|lia]|]. split; [lia|].
    split; [intros b Hlt; apply Hst; lia|].
    by apply path_write_bkeeps.
Qed.

Lemma BAppend_apart f ts n0 : ∀ lbl h (bd : Builder) D t,
  bshape lbl h f bd D t → tall D t → leaves_full lbl h →
  bcnt bd + Z.of_nat (length ts) < 2 ^ 63 → segment f (bcnt bd) ts →
  (n0 ≤ next h)%positive → (∃ bt, btail bd = Some bt ∧ (n0 ≤ bt)%positive) →
  ∃ bd' h' lbl' D' t', BAppend bd ts h = Ok bd' h' ∧ bshape lbl' h' f bd' D' t' ∧
    tall D' t' ∧ leaves_full lbl' h' ∧ bcnt bd' = bcnt bd + Z.of_nat (length ts) ∧
    (n0 ≤ next h')%positive ∧ bkeeps lbl t n0 h h'.
Proof.
  induction ts as [|x ts IH]; intros lbl h bd D t Hs Ht Hlf Hb Hseg Hn0 Hbt.
  - exists bd, h, lbl, D, t. do 4 (split; [done|]). split; [simpl; lia|].
    split; [done|]. by apply bkeeps_same.
  - apply segment_cons in Hseg as [Hx Hseg]. cbn [length] in Hb.
    destruct (Cons_apart lbl h f bd D t x n0 Hs Ht Hlf ltac:(lia) (eq_sym Hx) Hn0 Hbt)
      as (bd1 & h1 & lbl1 & D1 & t1 & Hc & Hs1 & Ht1 & Hlf1 & Hn1 & Hnx1 & Hbt1 & Hle1 &
          Hst1 & K1).
    destruct (IH lbl1 h1 bd1 D1 t1 Hs1 Ht1 Hlf1)
      as (bd' & h' & lbl' & D' & t' & Ha & Hs' & Ht' & Hlf' & Hn' & Hnx' & K');
      [lia|by rewrite Hn1|done|done|].
    exists bd', h', lbl', D', t'. split; [|do 3 (split; [done|])].
    + cbn [BAppend]. unfold bind. by rewrite Hc.
    + split; [cbn [length]; lia|]. split; [done|]. by eapply bkeeps_trans.
Qed.

Lemma BAppend_step f ts lbl h (bd : Builder) D t :
  bshape lbl h f bd D t → tall D t → leaves_full lbl h →
  bcnt bd + Z.of_nat (length ts) < 2 ^ 63 → segment f (bcnt bd) ts →
  ∃ bd' h' lbl' D' t', BAppend bd ts h = Ok bd' h' ∧ bshape lbl' h' f bd' D' t' ∧
    tall D' t' ∧ leaves_full lbl' h' ∧ bcnt bd' = bcnt bd + Z.of_nat (length ts).
Proof.
  intros Hs Ht Hlf Hb Hseg. destruct Hs as [Hs (ta & Hta & Hown)].
  destruct (BAppend_apart f ts 1%positive lbl h bd D t) as
    (bd' & h' & lbl' & D' & t' & Ha & Hs' & Ht' & Hlf' & Hn' & _); try done; try lia.
  - by split; [|exists ta].
  - exists ta. split; [done|lia].
  - by exists bd', h', lbl', D', t'.
Qed.

Lemma transient_step lbl h f v D t :
  shape true lbl h f v D t → leaves_full lbl h →
  ∃ (bd : Builder) h' lbl', transient v h = Ok bd h' ∧ bshape lbl' h' f bd D t ∧
    leaves_full lbl' h' ∧ bcnt bd = cnt v.
Proof.
  intros Hs Hlf.
  destruct (transient_shape_strong lbl h f v D t Hs)
    as (bd & h' & lbl' & Ht & Hb & Hn & Hext & Hsl).
  exists bd, h', lbl'. split; [done|]. split; [done|]. split; [|done].
  apply (leaves_full_ext lbl h); [by eapply shape_lbl_ok|done..].
Qed.

(** The empty vector of [newVector]. *)
Lemma newVector_step h f :
  let v := mkVector 0 bits (Some (next h)) (Some (next h)) in
  let lbl := <[next h := (1%nat, 0)]> (∅ : Pmap (nat * Z)) in
  shape true lbl (alloc zero_node h) f v 1 0 ∧ tall 1 0 ∧
  leaves_full lbl (alloc zero_node h) ∧ own_tail lbl v 1 0.
Proof.
  intros v lbl. split; [apply (newVector_shape ∅ h f (lbl_ok_empty h))|].
  split; [intros ?; lia|]. split.
  - intros b q nd Hb. unfold lbl in Hb. rewrite lookup_insert in Hb.
    case_decide; [congruence|]. by rewrite lookup_empty in Hb.
  - exists (next h). split; [done|]. by right.
Qed.

(** A canonical vector, woken from the zero value if need be. *)
Lemma canonical_awake h v xs f :
  canonical h v xs → (∀ j, 0 ≤ j < cnt v → f j = elems xs j) →
  ∃ v1 h1 lbl D t,
    (∀ x, cons v x h = cons v1 x h1) ∧ transient v h = transient v1 h1 ∧
    shape true lbl h1 f v1 D t ∧ tall D t ∧ leaves_full lbl h1 ∧ cnt v1 = cnt v ∧
    own_tail lbl v1 D t ∧ (v = zeroVector ∨ v1 = v ∧ h1 = h).
Proof.
  intros [Hc [->|(lbl & D & t & Hs & Ht & Hlf & Hown)]] Hf.
  - destruct (newVector_step h f) as (Hs & Ht & Hlf & Hown).
    eexists _, _, _, 1%nat, 0. split; [intros x; apply cons_zero|].
    split; [apply transient_zero|]. do 5 (split; [done|]). by left.
  - exists v, h, lbl, D, t. do 2 (split; [done|]).
    split; [by eapply shape_agree|]. do 4 (split; [done|]). by right.
Qed.

Lemma cons_canonical h v xs x :
  canonical h v xs → Z.of_nat (length xs) + 1 < 2 ^ 63 →
  ∃ w h', cons v x h = Ok w h' ∧ canonical h' w (xs ++ [x]).
Proof.
  intros Hcan Hb. pose proof (proj1 Hcan) as Hc.
  destruct (canonical_awake h v xs (elems (xs ++ [x])) Hcan)
    as (v1 & h1 & lbl & D & t & Hcons & _ & Hs & Ht & Hlf & Hn & _).
  { intros j Hj. apply elems_app_l. lia. }
  destruct (cons_step lbl h1 _ v1 D t x Hs Ht Hlf)
    as (w & h' & lbl' & D' & t' & Hcx & Hs' & Ht' & Hlf' & Hn' & Hown' & _); [lia| |].
  { unfold elems. rewrite Hn, Hc, Nat2Z.id, app_nth2, Nat.sub_diag by lia. done. }
  exists w, h'. split; [by rewrite Hcons|]. split.
  - rewrite Hn', Hn, Hc, length_app. simpl. lia.
  - right. by exists lbl', D', t'.
Qed.

(** A trie depends on the labels of its own depth and below only. *)
Lemma trie_relabel s lbl lbl' h f t d : ∀ q a,
  trie s lbl h f t d q a →
  (∀ b e p, lbl !! b = Some (e, p) → (e ≤ d)%nat → lbl' !! b = Some (e, p)) →
  trie s lbl' h f t d q a.
Proof.
  induction d as [|d IH]; cbn [trie]; intros q a (Hl & nd & Hc & Hlen & Hk) Hsub.
  - split; [by apply Hsub|]. eauto.
  - split; [by apply Hsub|]. exists nd. do 2 (split; [done|]).
    intros k Hr. destruct (Hk k Hr) as [H1 H2]. split; [|done].
    intros Hle. destruct (H1 Hle) as (c & Hs & Hc'). exists c. split; [done|].
    apply IH; [done|]. intros b e p Hb He. apply Hsub; [done|lia].
Qed.

(** [transient], with a labelling of the builder that forgets the old
    roots: the builder's root and tail are fresh copies, and what is
    labelled below them lies under the root. *)
Lemma transient_apart lbl h f v D t :
  shape true lbl h f v D t → leaves_full lbl h →
  ∃ (bd : Builder) h' lbl', transient v h = Ok bd h' ∧ bshape lbl' h' f bd D t ∧
    leaves_full lbl' h' ∧ bcnt bd = cnt v ∧ grown h h' ∧
    (∃ bt, btail bd = Some bt ∧ (next h ≤ bt)%positive) ∧
    (∀ b l, (b < next h)%positive → lbl' !! b = Some l →
            lbl !! b = Some l ∧ (l.1 < D)%nat).
Proof.
  intros Hs Hlf. pose proof (shape_not_zero _ _ _ _ _ _ _ Hs) as Hnz.
  destruct Hs as [Hc [HD1 HD2] Hsh (Ht & Hr & Hz) Hcap (r & Hroot & Htr)
                    (ta & td & Hta & Htd & Hlt & Hlen & Hln & Htl & Hts) Hlbl].
  destruct (trie_cell _ _ _ _ _ _ _ _ Htr) as (rd & Hrd & Hrlen).
  set (nr := next h). set (h1 := alloc rd h).
  set (nt := next h1). set (h2 := alloc td h1).
  set (lbl0 := filter (λ x : positive * (nat * Z), (x.2.1 < D)%nat) lbl).
  set (lbl' := <[nr := (D, 0)]> lbl0).
  assert (Htd1 : cells h1 !! ta = Some td)
    by (unfold h1; rewrite cells_alloc, decide_False by lia; done).
  assert (Hfr : ∀ b, (b < next h)%positive → cells h2 !! b = cells h !! b).
  { intros b Hb. unfold h2, h1.
    rewrite !cells_alloc, !decide_False by (simpl; lia). done. }
  assert (Hsub0 : ∀ b l, lbl0 !! b = Some l → lbl !! b = Some l ∧ (l.1 < D)%nat).
  { intros b l Hb. unfold lbl0 in Hb. by apply map_lookup_filter_Some in Hb. }
  assert (Hlow : ∀ b e p, lbl !! b = Some (e, p) → (e < D)%nat → lbl' !! b = Some (e, p)).
  { intros b e p Hb He. unfold lbl'. rewrite lookup_insert_ne.
    - unfold lbl0. by apply map_lookup_filter_Some.
    - intros <-. specialize (Hlbl _ _ Hb). unfold nr in Hlbl. lia. }
  assert (Hnr2 : cells h2 !! nr = Some rd).
  { unfold h2, h1, nr. rewrite cells_alloc, decide_False by (simpl; lia).
    by rewrite cells_alloc, decide_True. }
  assert (Hg : grown h h2) by (apply grown_alloc, grown_alloc, grown_refl).
  assert (Hnone : ∀ b, (next h ≤ b)%positive → b ≠ nr → lbl' !! b = None).
  { intros b Hb Hne. unfold lbl'. rewrite lookup_insert_ne by done.
    destruct (lbl0 !! b) as [l|] eqn:E; [|done].
    destruct (Hsub0 _ _ E) as [Hl _]. specialize (Hlbl _ _ Hl). lia. }
  exists (mkBuilder (cnt v) (shift v) (Some nr) (Some nt)), h2, lbl'.
  split; [|split; [|split; [|split; [done|split; [done|split]]]]].
  - unfold transient. rewrite Hnz. unfold bind, ret. rewrite Hroot, (clone_ok r rd h Hrd).
    fold h1 nr. rewrite Hta, (clone_ok ta td h1 Htd1). reflexivity.
  - split.
    + constructor; cbn [finish bcnt bshift broot btail cnt shift root tail]; try done.
      * exists nr. split; [done|]. destruct D as [|d]; [lia|].
        cbn [trie] in Htr. destruct Htr as (Hl & rd0 & Hrd0 & _ & Hk).
        assert (rd0 = rd) as -> by congruence.
        cbn [trie]. split; [unfold lbl'; by rewrite lookup_insert_eq|].
        exists rd. do 2 (split; [done|]). intros k Hkr.
        destruct (Hk k Hkr) as [H1 H2]. split; [|done].
        intros Hle. destruct (H1 Hle) as (c & Hsl & Hc'). exists c. split; [done|].
        apply (trie_relabel true lbl); [|intros b e p Hb He; apply Hlow; [done|lia]].
        apply (trie_keep true lbl h); [done|done| |lia].
        intros b l Hb. apply Hfr. by eapply Hlbl.
      * exists nt, td. split; [done|].
        split; [unfold h2, nt; by rewrite cells_alloc, decide_True|].
        split; [unfold nt; simpl; lia|]. do 2 (split; [done|]). split; [|done].
        intros q. rewrite Hnone by (unfold nr, nt; simpl; lia). congruence.
      * intros b l Hb. unfold lbl' in Hb. rewrite lookup_insert in Hb.
        case_decide as Hd; [subst b; unfold nr; simpl; lia|].
        destruct (Hsub0 _ _ Hb) as [Hl _]. specialize (Hlbl _ _ Hl). simpl. lia.
    + exists nt. split; [done|]. left. apply Hnone; unfold nr, nt; simpl; lia.
  - intros b q nd Hb Hcb. unfold lbl' in Hb. rewrite lookup_insert in Hb.
    case_decide as Hd; [inversion Hb; lia|].
    destruct (Hsub0 _ _ Hb) as [Hl _]. rewrite Hfr in Hcb by (by eapply Hlbl).
    by eapply Hlf.
  - exists nt. split; [done|]. unfold nt. simpl. lia.
  - intros b l Hb Hl. unfold lbl' in Hl. rewrite lookup_insert_ne in Hl by (unfold nr; lia).
    by apply Hsub0.
Qed.

(** A trie survives a change that keeps the slots it uses. *)
Lemma trie_kept lbl lblB h h' f t t1 d : ∀ q a,
  trie false lbl h f t d q a →
  (∀ b l, lbl !! b = Some l → (b < next h)%positive) →
  (∀ b l, (b < next h)%positive → lblB !! b = Some l → lbl !! b = Some l) →
  bkeeps lblB t1 (next h) h h' → t ≤ t1 → 0 ≤ q →
  trie false lbl h' f t d q a.
Proof.
  intros q a Ht Hok Hsub K Hle. revert q a Ht.
  induction d as [|d IH]; cbn [trie]; intros q a (Hl & nd & Hc & Hlen & Hk) Hq.
  - destruct (K a nd (Hok _ _ Hl) Hc) as (nd' & Hc' & _ & Hlen' & Hk').
    split; [done|]. exists nd'. split; [done|]. split; [congruence|].
    intros k Hr. rewrite Hk'; [by apply Hk|].
    intros e p Hb. apply Hsub in Hb; [|by eapply Hok]. congruence.
  - destruct (K a nd (Hok _ _ Hl) Hc) as (nd' & Hc' & _ & Hlen' & Hk').
    split; [done|]. exists nd'. split; [done|]. split; [congruence|].
    intros k Hr. destruct (Hk k Hr) as [H1 _]. split; [|done].
    intros Hin. destruct (H1 Hin) as (c & Hs & Hc0). exists c. split.
    + rewrite Hk'; [done|]. intros e p Hb. apply Hsub in Hb; [|by eapply Hok].
      rewrite Hl in Hb. inversion Hb; subst e p.
      pose proof (pre_mono (t - 1) (t1 - 1) d ltac:(lia)).
      rewrite Z2Nat.id by lia. lia.
    + apply IH; [done|lia].
Qed.

(** The receiver of a batch [Append] after the run of the builder. *)
Lemma shape_kept lbl lblB h h' f v D t t1 :
  shape false lbl h f v D t → own_tail lbl v D t →
  (∀ b l, (b < next h)%positive → lblB !! b = Some l → lbl !! b = Some l) →
  (t = 0 → D = 1%nat → ∀ b p, (b < next h)%positive → lblB !! b ≠ Some (1%nat, p)) →
  bkeeps lblB t1 (next h) h h' → t ≤ t1 → (next h ≤ next h')%positive →
  shape false lbl h' f v D t.
Proof.
  intros [Hc HD Hsh Hl Hcap (r & Hroot & Htr)
            (ta & td & Hta & Htd & Hlt & Hlen & Hln & Htl & Hts) Hlbl]
         (ta' & Hta' & Hown) Hsub Hal K Hle Hnx.
  assert (ta' = ta) as -> by congruence.
  constructor; try done.
  - exists r. split; [done|]. by apply (trie_kept lbl lblB h h' f t t1).
  - destruct (K ta td Hlt Htd) as (td' & Htd' & Hl' & Hlen' & Hk').
    exists ta, td'. split; [done|]. split; [done|]. split; [lia|].
    split; [congruence|]. split; [congruence|]. split; [done|].
    intros k Hk. rewrite Hk'; [by apply Hts|].
    intros e p Hb. exfalso. destruct Hown as [Hnone|(Hr' & -> & ->)].
    + apply Hsub in Hb; [|done]. congruence.
    + pose proof (Hsub _ _ Hlt Hb) as Hb'.
      assert (r = ta) as -> by congruence.
      apply trie_label in Htr. rewrite Htr in Hb'. inversion Hb'; subst e p.
      by eapply (Hal eq_refl eq_refl ta 0 Hlt).
  - intros b l Hb. specialize (Hlbl b l Hb). lia.
Qed.

Lemma bkeeps_pre lbl t n0 h0 h h' :
  grown h0 h → bkeeps lbl t n0 h h' → (next h0 ≤ n0)%positive →
  bkeeps lbl t (next h0) h0 h'.
Proof.
  intros [_ Hg] K Hn b nd Hb Hc. apply (K b nd); [lia|]. by rewrite Hg.
Qed.

(** [Append]: the result, and the receiver after the call. *)
Lemma Append_run h v xs ts :
  canonical h v xs → Z.of_nat (length xs) + Z.of_nat (length ts) < 2 ^ 63 →
  ∃ w h', Append v ts h = Ok w h' ∧ canonical h' w (xs ++ ts) ∧ repr h' v xs.
Proof.
  intros Hcan Hb. pose proof (proj1 Hcan) as Hc.
  pose proof (canonical_repr h v xs Hcan) as Hrep.
  destruct ts as [|x [|y ts]].
  - exists v, h. split; [done|]. by rewrite app_nil_r.
  - destruct (cons_canonical h v xs x Hcan) as (w & h' & Hcx & Hw); [simpl in Hb; lia|].
    exists w, h'. split; [done|]. split; [done|].
    apply (repr_grown h h'); [done|]. by eapply cons_grown.
  - set (ys := x :: y :: ts) in *. set (f := elems (xs ++ ys)).
    assert (Hag : ∀ j, 0 ≤ j < cnt v → f j = elems xs j).
    { intros j Hj. apply elems_app_l. lia. }
    destruct (canonical_awake h v xs f Hcan Hag)
      as (v1 & h1 & lbl & D & t & Hcons & _ & Hs & Ht & Hlf & Hn & Hown & Hv1).
    assert (Hseg : segment f (cnt v) ys).
    { intros j z Hj. unfold f, elems. rewrite Hc.
      replace (Z.to_nat (Z.of_nat (length xs) + Z.of_nat j))
        with (length xs + j)%nat by lia.
      rewrite nth_lookup, lookup_app_r by lia.
      replace (length xs + j - length xs)%nat with j by lia. by rewrite Hj. }
    apply segment_cons in Hseg as [Hx Hseg]. unfold ys in Hb. cbn [length] in Hb.
    destruct (cons_step lbl h1 f v1 D t x Hs Ht Hlf)
      as (w1 & h2 & lbl2 & D2 & t2 & Hcx & Hs2 & Ht2 & Hlf2 & Hn2 & _ & Hext2 & Hle2 &
          HD2 & Hal2);
      [lia|by rewrite Hn|].
    destruct (transient_apart lbl2 h2 f w1 D2 t2 Hs2 Hlf2)
      as (bd & h3 & lbl3 & Htr & Hbs & Hlf3 & Hn3 & Hg3 & Hbt3 & Hl3).
    destruct (BAppend_apart f (y :: ts) (next h2) lbl3 h3 bd D2 t2 Hbs Ht2 Hlf3)
      as (bd' & h' & lbl' & D' & t' & Ha & [Hs' Hown'] & Ht' & Hlf' & Hn' & Hnx' & K).
    { rewrite Hn3, Hn2, Hn, Hc. cbn [length]. lia. }
    { rewrite Hn3, Hn2, Hn. exact Hseg. }
    { by destruct Hg3. }
    { done. }
    exists (finish bd'), h'. split; [|split].
    + unfold Append, ys. unfold bind. rewrite Hcons, Hcx, Htr, Ha. done.
    + split.
      * cbn [finish cnt]. rewrite Hn', Hn3, Hn2, Hn, Hc, length_app. unfold ys.
        cbn [length]. lia.
      * right. by exists lbl', D', t'.
    + split; [done|]. destruct Hv1 as [->|[-> ->]]; [by left|].
      right. exists lbl, D, t.
      apply (shape_agree false lbl h' f); [|intros j Hj; symmetry; by apply Hag].
      pose proof (ext_grown _ _ _ _ Hext2) as Hg2.
      apply (shape_kept lbl lbl3 h h' f v D t t2); try done.
      * by eapply shape_weaken.
      * intros b l Hlt Hlb. destruct (Hl3 b l) as [Hb2 _]; [destruct Hg2; lia|done|].
        destruct Hext2 as (_ & _ & F). destruct (F b Hlt) as [_ E]. by rewrite <- E.
      * intros Ht0 HD1 b p Hlt Hlb.
        destruct (Hl3 b _ ltac:(destruct Hg2; lia) Hlb) as [_ Hd].
        rewrite (Hal2 Ht0 HD1) in Hd. simpl in Hd. lia.
      * apply (bkeeps_pre lbl3 t2 (next h2) h h3); [by eapply grown_trans|done|].
        by destruct Hg2.
      * destruct Hg2. lia.
Qed.

Lemma Append_canonical h v xs ts :
  canonical h v xs → Z.of_nat (length xs) + Z.of_nat (length ts) < 2 ^ 63 →
  ∃ w h', Append v ts h = Ok w h' ∧ canonical h' w (xs ++ ts).
Proof.
  intros Hcan Hb. destruct (Append_run h v xs ts Hcan Hb) as (w & h' & Ha & Hw & _).
  by exists w, h'.
Qed.

Lemma New_canonical xs h :
  Z.of_nat (length xs) < 2 ^ 63 → ∃ v h', New xs h = Ok v h' ∧ canonical h' v xs.
Proof.
  intros Hb. destruct xs as [|x xs].
  - exists zeroVector, h. split; [done|]. split; [done|]. by left.
  - set (ys := x :: xs) in *.
    destruct (newVector_step h (elems ys)) as (Hs & Ht & Hlf & _).
    destruct (transient_step _ _ _ _ _ _ Hs Hlf) as (bd & h1 & lbl1 & Htr & Hbs & Hlf1 & Hn).
    destruct (BAppend_step (elems ys) ys lbl1 h1 bd 1 0 Hbs Ht Hlf1)
      as (bd' & h' & lbl' & D' & t' & Ha & [Hs' Hown'] & Ht' & Hlf' & Hn').
    { rewrite Hn. cbn [cnt]. lia. } { rewrite Hn. apply segment_elems. }
    exists (finish bd'), h'. split.
    + unfold New, ys. fold ys. unfold bind. rewrite transient_zero, Htr, Ha. done.
    + split; [cbn [finish cnt]; rewrite Hn', Hn; cbn [cnt]; lia|].
      right. by exists lbl', D', t'.
Qed.

Lemma Set_canonical h v xs i x :
  canonical h v xs → 0 ≤ i < cnt v →
  ∃ w h', Set_ v i x h = Ok w h' ∧ canonical h' w (<[Z.to_nat i := x]> xs).
Proof.
  intros [Hc [->|(lbl & D & t & Hs & Ht & Hlf & Hown)]] Hi; [simpl in Hi; lia|].
  destruct (Set_shape true lbl h _ v D t i x Hs Hi) as (w & h' & Hset & Hs' & Hn).
  exists w, h'. split; [done|]. split; [by rewrite Hn, length_insert|].
  right. exists lbl, D, t. split; [|split; [done|split]].
  - apply (shape_agree true lbl h' (fset (elems xs) i x)); [done|].
    intros j Hj. apply elems_insert; lia.
  - destruct (Set_inv v i x h w h' Hset Hi) as (_ & _ & Hl).
    intros b q nd' Hb Hcb. pose proof (shape_lbl_ok _ _ _ _ _ _ _ Hs _ _ Hb) as Hlt.
    specialize (Hl b Hlt). rewrite Hcb in Hl.
    destruct (cells h !! b) as [nd|] eqn:E; [|done].
    simpl in Hl. inversion Hl as [Hlen]. rewrite Hlen. by eapply Hlf.
  - destruct (Set_inv v i x h w h' Hset Hi) as (Htl & Htr & _).
    destruct (decide (tailoff v ≤ i)) as [Hge|Hlt].
    + destruct (Htl Hge) as (_ & Hta & _). exists (next h). split; [done|]. left.
      apply (lbl_ok_ext _ _ (shape_lbl_ok _ _ _ _ _ _ _ Hs)). lia.
    + destruct (Htr ltac:(lia)) as [-> _]. done.
Qed.

(** * Removing the last leaf *)

(** A subtree that lies before the path of the first leaf beyond a smaller
    leaf count is full under both counts. *)
Lemma trie_shrink s lbl h f t t' d : ∀ q a,
  trie s lbl h f t d q a → q < pre t' d → t' ≤ t → trie s lbl h f t' d q a.
Proof.
  induction d as [|d IH]; cbn [trie]; intros q a (Hl & nd & Hc & Hlen & Hk) Hq Ht.
  - eauto 10.
  - split; [done|]. exists nd. do 2 (split; [done|]). intros k Hr.
    rewrite pre_S in Hq.
    pose proof (pre_step t' d) as Hs.
    pose proof (pre_mono (t' - 1) (t - 1) d ltac:(lia)) as Hm.
    destruct (Hk k Hr) as [H1 _]. split.
    + intros _. destruct H1 as (c & ? & ?); [dlia|]. exists c. split; [done|].
      apply IH; [done|dlia|done].
    + intros Hlt. exfalso. dlia.
Qed.

(** A copy of the node on the path of the last leaf, with the slot of that
    path rewritten, is a node of the trie without that leaf. *)
Lemma trie_pop lbl lbl' h h' f t d q a a' nd k (s : slot) :
  trie false lbl h f t (S d) q a → cells h !! a = Some nd →
  lbl_ok lbl h → ext lbl h lbl' h' →
  lbl' !! a' = Some (S d, q) → cells h' !! a' = Some (put nd k s) →
  q = pre (t - 1) (S d) → 1 ≤ t → k = pre (t - 1) d mod 32 →
  (pre (t - 1) d ≤ pre (t - 2) d →
     ∃ c, s = SPtr (Some c) ∧ trie false lbl' h' f (t - 1) d (pre (t - 1) d) c) →
  trie false lbl' h' f (t - 1) (S d) q a'.
Proof.
  intros Ht Hnd Hok Hext Hl' Hc' Hq Ht1 Hk' Hs.
  cbn [trie] in Ht. destruct Ht as (Hl & nd0 & Hc & Hlen & Hk).
  assert (nd0 = nd) as -> by congruence.
  pose proof (pre_step (t - 1) d) as Hst. replace (t - 1 - 1) with (t - 2) in Hst by lia.
  pose proof (pre_nonneg (t - 1) d ltac:(lia)) as HA.
  rewrite pre_S in Hq.
  cbn [trie]. split; [done|]. eexists. split; [done|]. rewrite length_put. split; [done|].
  intros j Hj. replace (t - 1 - 1) with (t - 2) by lia. rewrite array_put.
  split; [|done].
  intros Hle. destruct (decide (j = pre (t - 1) d mod 32)) as [->|Hne].
  - replace (32 * q + pre (t - 1) d mod 32) with (pre (t - 1) d) in * by dlia.
    destruct (Hs Hle) as (c & -> & Hc0). exists c.
    rewrite decide_True by (split; [by rewrite Hk'|lia]). done.
  - destruct (Hk j Hj) as [H1 _]. destruct H1 as (c & Hsl & Hc0); [dlia|].
    exists c. rewrite decide_False by (intros [? _]; subst k; dlia). split; [done|].
    apply (trie_ext false lbl h); [|done|done|dlia].
    apply (trie_shrink false lbl h f t); [done|dlia|lia].
Qed.

(** [popTail] on the path of the last leaf [t - 1] of a trie of [t] leaves:
    it answers nil when that leaf is the first of the subtree, and else a
    copy of the node that is the subtree without the leaf.  The slot it
    rewrites holds a non-nil interface value, also when the pointer inside
    is nil. *)
Lemma popTail_ok f t (cn : Z) d : ∀ lbl h q a fuel,
  trie false lbl h f t (S d) q a → q = pre (t - 1) (S d) → 1 ≤ t < 2 ^ 58 →
  lbl_ok lbl h → (d ≤ fuel)%nat → lvl (S d) ≤ 60 → cn = 32 * t + 1 →
  ∃ h' lbl' r, popTail fuel cn (lvl (S d)) (Some a) h = Ok r h' ∧
    ext lbl h lbl' h' ∧ lbl_ok lbl' h' ∧ same_leaves lbl lbl' ∧
    match r with
    | None => pre (t - 2) (S d) < q
    | Some a' =>
        q ≤ pre (t - 2) (S d) ∧ trie false lbl' h' f (t - 1) (S d) q a' ∧
        ∃ nd k (s : slot), cells h !! a = Some nd ∧
          cells h' !! a' = Some (put nd k s) ∧ non_nil s = true
    end.
Proof.
  induction d as [|d IH]; intros lbl h q a fuel Ht Hq Ht0 Hok Hfuel Hlv Hcn.
  - pose proof Ht as Ht'. cbn [trie] in Ht'. destruct Ht' as (Hl & nd & Hc & Hlen & Hk).
    assert (Hrun : popTail fuel cn (lvl 1) (Some a) h =
       (if (t - 1) mod 32 =? 0 then ret None
        else bind (clone (Some a))
               (λ r, bind (poke r ((t - 1) mod 32) SZeroNode) (λ _, ret r))) h).
    { destruct fuel; cbn [popTail]; unfold bind at 1;
        (rewrite shr_ok by (unfold lvl; lia)); unfold ret at 1;
        change (lvl 1 >? bits) with false; cbv iota;
        rewrite sub64_id by (apply int_bounds; lia);
        rewrite pre_level, land_mask, pre_0;
        replace ((cn - 2) / 32) with (t - 1) by dlia; reflexivity. }
    rewrite Hrun. clear Hrun. rewrite pre_S, pre_0 in Hq.
    destruct (Z.eqb_spec ((t - 1) mod 32) 0) as [Hz|Hnz].
    + exists h, lbl, None. split; [done|]. split; [apply ext_refl|]. split; [done|].
      split; [apply same_leaves_refl|]. rewrite pre_S, pre_0. dlia.
    + set (r := next h). set (nd' := put nd ((t - 1) mod 32) SZeroNode).
      set (h' := upd r nd' (alloc nd h)). set (lbl' := <[r := (1%nat, q)]> lbl).
      assert (Hnone : lbl !! r = None) by (apply (lbl_ok_ext _ _ Hok); unfold r; lia).
      assert (Hext : ext lbl h lbl' h').
      { apply ext_label; [|unfold r; lia|done]. apply ext_upd; [|unfold r; lia].
        apply ext_alloc. }
      exists h', lbl', (Some r).
      split; [|split; [done|split; [|split; [apply same_leaves_inner|]]]].
      * unfold bind. rewrite (clone_ok a nd h Hc). fold r.
        rewrite (poke_ok r nd); [done|]. unfold r. by rewrite cells_alloc, decide_True.
      * apply lbl_ok_label; [|simpl; unfold r; lia]. by apply lbl_ok_upd, lbl_ok_alloc.
      * split; [rewrite pre_S, pre_0; dlia|]. split.
        -- apply (trie_pop lbl lbl' h h' f t 0 q a r nd ((t - 1) mod 32) SZeroNode);
             try done; try lia.
           ++ unfold lbl'. by rewrite lookup_insert_eq.
           ++ unfold h'. by rewrite cells_upd, decide_True.
           ++ by rewrite pre_S, pre_0.
           ++ rewrite !pre_0. lia.
        -- exists nd, ((t - 1) mod 32), SZeroNode. split; [done|]. split; [|done].
           unfold h'. by rewrite cells_upd, decide_True.
  - pose proof Ht as Ht'. cbn [trie] in Ht'. destruct Ht' as (Hl & nd & Hc & Hlen & Hk).
    pose proof (pre_step (t - 1) (S d)) as Hst.
    replace (t - 1 - 1) with (t - 2) in Hst by lia.
    pose proof (pre_nonneg (t - 1) (S d) ltac:(lia)) as HA.
    set (A := pre (t - 1) (S d)) in *. set (B := pre (t - 2) (S d)) in *.
    assert (Hq' : 32 * q + A mod 32 = A) by (rewrite pre_S in Hq; fold A in Hq; dlia).
    assert (Hlv' : lvl (S d) ≤ 60) by (unfold lvl in *; lia).
    destruct fuel as [|fuel]; [lia|].
    destruct (Hk (A mod 32)) as [H1 _]; [dlia|]. rewrite Hq' in H1.
    destruct (H1 ltac:(lia)) as (ch & Hs & Hch).
    destruct (IH lbl h A ch fuel Hch eq_refl Ht0 Hok ltac:(lia) Hlv' Hcn)
      as (h1 & lbl1 & r1 & Hp & Hext1 & Hok1 & Hsl1 & Hr1).
    fold B in Hr1.
    assert (Hrun : popTail (S fuel) cn (lvl (S (S d))) (Some a) h =
       (match r1 with
        | None =>
            if A mod 32 =? 0 then ret None
            else bind (clone (Some a))
                   (λ r, bind (poke r (A mod 32) (SPtr r1)) (λ _, ret r))
        | Some _ =>
            bind (clone (Some a)) (λ r, bind (poke r (A mod 32) (SPtr r1)) (λ _, ret r))
        end) h1).
    { assert (Hlevel : (lvl (S (S d)) >? bits) = true)
        by (rewrite Z.gtb_ltb; apply Z.ltb_lt; unfold lvl, bits; lia).
      cbn [popTail]. unfold bind at 1. rewrite shr_ok by (unfold lvl; lia).
      unfold ret at 1. rewrite Hlevel.
      rewrite (sub64_id cn 2) by (apply int_bounds; lia).
      rewrite pre_level, land_mask. replace ((cn - 2) / 32) with (t - 1) by dlia.
      fold A. unfold bind at 1. rewrite (load_ok a nd h Hc), (get_lookup _ _ _ Hs).
      unfold bind at 1. cbn [as_node]. unfold ret at 1.
      rewrite (sub_lvl (S d)) by done.
      unfold bind at 1. rewrite Hp. destruct r1; reflexivity. }
    rewrite Hrun. clear Hrun.
    assert (Ha1 : cells h1 !! a = Some nd).
    { destruct Hext1 as (_ & _ & F). destruct (F a) as [E _]; [by eapply Hok|].
      by rewrite E. }
    assert (Hclone : ∀ s : slot, non_nil s = true →
      (A ≤ B → ∃ c, s = SPtr (Some c) ∧ trie false lbl1 h1 f (t - 1) (S d) A c) →
      A mod 32 ≠ 0 ∨ A ≤ B →
      ∃ h' lbl' r,
        bind (clone (Some a)) (λ r, bind (poke r (A mod 32) s) (λ _, ret r)) h1 = Ok r h' ∧
        ext lbl h lbl' h' ∧ lbl_ok lbl' h' ∧ same_leaves lbl lbl' ∧
        match r with
        | None => pre (t - 2) (S (S d)) < q
        | Some a' =>
            q ≤ pre (t - 2) (S (S d)) ∧ trie false lbl' h' f (t - 1) (S (S d)) q a' ∧
            ∃ nd k (s : slot), cells h !! a = Some nd ∧
              cells h' !! a' = Some (put nd k s) ∧ non_nil s = true
        end).
    { intros s Hnn Hsub Hcase.
      set (r := next h1). set (nd' := put nd (A mod 32) s).
      set (h' := upd r nd' (alloc nd h1)). set (lbl' := <[r := (S (S d), q)]> lbl1).
      assert (Hnone : lbl1 !! r = None) by (apply (lbl_ok_ext _ _ Hok1); unfold r; lia).
      assert (Hext' : ext lbl1 h1 lbl' h').
      { apply ext_label; [|unfold r; lia|done]. apply ext_upd; [|unfold r; lia].
        apply ext_alloc. }
      assert (Hext : ext lbl h lbl' h') by (by eapply ext_trans).
      exists h', lbl', (Some r).
      split; [|split; [done|split; [|split]]].
      - unfold bind. rewrite (clone_ok a nd h1 Ha1). fold r.
        rewrite (poke_ok r nd); [done|]. unfold r. by rewrite cells_alloc, decide_True.
      - apply lbl_ok_label; [|simpl; unfold r; lia]. by apply lbl_ok_upd, lbl_ok_alloc.
      - eapply same_leaves_trans; [done|]. apply same_leaves_inner.
      - split; [rewrite pre_S; fold B; dlia|]. split.
        + apply (trie_pop lbl lbl' h h' f t (S d) q a r nd (A mod 32) s); try done; try lia.
          * unfold lbl'. by rewrite lookup_insert_eq.
          * unfold h'. by rewrite cells_upd, decide_True.
          * fold A B. intros Hle. destruct (Hsub Hle) as (c & -> & Hc1).
            exists c. split; [done|]. apply (trie_ext false lbl1 h1); [done|done|done|lia].
        + exists nd, (A mod 32), s. split; [done|]. split; [|done].
          unfold h'. by rewrite cells_upd, decide_True. }
    destruct r1 as [c1|].
    + destruct Hr1 as (Hle & Hc1 & _).
      apply Hclone; [done| |by right]. intros _. by exists c1.
    + destruct (Z.eqb_spec (A mod 32) 0) as [Hz|Hnz].
      * exists h1, lbl1, None. split; [done|]. do 3 (split; [done|]).
        rewrite pre_S. fold B. dlia.
      * apply Hclone; [done| |by left]. intros Hle. lia.
Qed.

(** * [Pop] *)

Lemma nodeFor_leaf s lbl h f v D t i :
  shape s lbl h f v D t → 0 ≤ i < 32 * t →
  ∃ a, nodeFor v i h = Ok (Some a) h ∧ trie s lbl h f t 0 (i / 32) a.
Proof.
  intros Hs Hi. pose proof (shape_tailoff _ _ _ _ _ _ _ Hs) as Hto.
  destruct Hs as [Hc [HD1 HD2] Hsh (Ht & Hr & Hz) Hcap (r & Hroot & Htr) _ _].
  unfold nodeFor. rewrite Hto.
  destruct (Z.geb_spec i 0); [|lia]. destruct (Z.ltb_spec i (cnt v)); [|lia]. simpl.
  destruct (Z.geb_spec i (32 * t)); [lia|].
  assert (Hq : 0 = pre (i / 32) D).
  { pose proof (pre_mono (i / 32) (t - 1) D ltac:(dlia)).
    pose proof (pre_nonneg (i / 32) D ltac:(dlia)). lia. }
  rewrite Hroot, Hsh.
  destruct (descend_ok _ _ _ _ _ i D 0 r (Z.to_nat (lvl D)) Htr) as (c & Hd & Hleaf);
    [lia|dlia|done|unfold lvl; lia|done|].
  by exists c.
Qed.

(** [Pop] when the tail holds more than one element: a shorter tail. *)
Lemma Pop_tail s lbl h f v D t :
  shape s lbl h f v D t → 1 < cnt v - 32 * t →
  ∃ w h', Pop v h = Ok w h' ∧ shape s lbl h' f w D t ∧ cnt w = cnt v - 1 ∧
          root w = root v ∧ tail w = Some (next h).
Proof.
  intros Hs Hn. pose proof (shape_tailoff _ _ _ _ _ _ _ Hs) as Hto.
  destruct Hs as [Hc [HD1 HD2] Hsh (Ht & Hr & Hz) Hcap (r & Hroot & Htr)
                    (ta & td & Hta & Htd & Hlt & Hlen & Hln & Htl & Hts) Hlbl].
  set (n := len td - 1). set (nt := next h).
  set (h1 := alloc (Node n zero_array) h).
  set (ntd := Node n (copy_prefix n (array td) (@zero_array T))).
  set (h' := upd nt ntd h1).
  assert (Htd1 : cells h1 !! ta = Some td)
    by (unfold h1; rewrite cells_alloc, decide_False by lia; done).
  assert (Hnt1 : cells h1 !! nt = Some (Node n zero_array))
    by (unfold h1, nt; by rewrite cells_alloc, decide_True).
  exists (mkVector (cnt v - 1) (shift v) (root v) (Some nt)), h'.
  split; [|split; [|done]].
  - unfold Pop. destruct (Z.leb_spec (cnt v) 1); [lia|]. rewrite Hto.
    rewrite (sub64_id (cnt v) (32 * t)) by (apply int_bounds; lia).
    destruct (Z.gtb_spec (cnt v - 32 * t) 1); [|lia].
    rewrite Hta. unfold bind at 1. rewrite (load_ok ta td h Htd).
    rewrite (sub64_id (len td) 1) by (apply int_bounds; lia). fold n.
    unfold bind at 1. unfold new at 1. fold h1 nt.
    unfold width. destruct (Z.leb_spec 0 n); [|unfold n in *; lia].
    destruct (Z.leb_spec n 32); [|unfold n in *; lia]. cbn [andb].
    unfold bind at 1. unfold ret at 1.
    unfold bind at 1. rewrite (load_ok ta td h1 Htd1).
    unfold bind at 1. rewrite (load_ok nt _ h1 Hnt1).
    unfold bind at 1. rewrite (store_ok nt _ _ h1 Hnt1). cbn [len array]. fold ntd h'.
    rewrite (sub64_id (cnt v) 1) by (apply int_bounds; lia). reflexivity.
  - assert (Hg : grown h h').
    { apply grown_upd; [|unfold nt; lia]. apply grown_alloc, grown_refl. }
    constructor; cbn [cnt shift root tail]; try done; try lia.
    + exists r. split; [done|]. apply (trie_keep s lbl h); [done|done| |lia].
      intros b l Hb. destruct Hg as [_ Hg]. apply Hg. by eapply Hlbl.
    + exists nt, ntd. split; [done|].
      split; [unfold h'; by rewrite cells_upd, decide_True|].
      split; [simpl; unfold nt; lia|]. split.
      { unfold ntd, copy_prefix. cbn [array].
        rewrite length_app, length_take, length_drop, zero_array_length. unfold n. lia. }
      split; [unfold ntd, n; cbn [len cnt]; lia|]. split.
      { intros q Hq. specialize (Hlbl _ _ Hq). unfold nt in Hlbl. lia. }
      intros k Hk. cbn [cnt] in Hk. unfold ntd, copy_prefix. cbn [array].
      rewrite lookup_app_l by (rewrite length_take; unfold n; lia).
      rewrite lookup_take_lt by (unfold n; lia). apply Hts. lia.
    + intros b l Hb. specialize (Hlbl b l Hb). simpl. lia.
Qed.

(** From depth two on, the root of a trie of two leaves or more holds a
    non-nil interface value in its second slot. *)
Definition firm h v (D : nat) (t : Z) : Prop :=
  (2 ≤ D)%nat → 2 ≤ t →
  ∃ r nd, root v = Some r ∧ cells h !! r = Some nd ∧ non_nil (get nd 1) = true.

Lemma get_put_non_nil nd k (s : slot) j :
  non_nil s = true → non_nil (get nd j) = true → non_nil (get (put nd k s) j) = true.
Proof.
  intros Hs Hj. unfold get. rewrite array_put. by case_decide.
Qed.

Lemma get_put_same_non_nil nd k (s : slot) :
  non_nil s = true → 0 ≤ k → (Z.to_nat k < length (array nd))%nat →
  non_nil (get (put nd k s) k) = true.
Proof.
  intros Hs Hk Hl. unfold get. rewrite array_put. by rewrite decide_True.
Qed.

Lemma trie_empty lbl h f d a :
  lbl !! a = Some (S d, 0) → cells h !! a = Some zero_node →
  trie false lbl h f 0 (S d) 0 a.
Proof.
  intros Hl Hc. cbn [trie]. split; [done|]. exists zero_node. split; [done|].
  split; [done|]. intros k Hk. split; [|done].
  change (0 - 1) with (-1). rewrite pre_neg. lia.
Qed.

(** [Pop] when the tail holds one element: the last leaf becomes the tail. *)
Lemma Pop_refill lbl h f v D t :
  shape false lbl h f v D t → firm h v D t → leaves_full lbl h →
  cnt v = 32 * t + 1 → 1 ≤ t →
  ∃ w h' lbl' D', Pop v h = Ok w h' ∧ shape false lbl' h' f w D' (t - 1) ∧
    firm h' w D' (t - 1) ∧ leaves_full lbl' h' ∧ cnt w = cnt v - 1 ∧
    (D' ≤ D)%nat ∧ ∃ al, tail w = Some al ∧ lbl' !! al = Some (O, t - 1).
Proof.
  intros Hs Hfirm Hlf Hcn Ht1. pose proof (shape_tailoff _ _ _ _ _ _ _ Hs) as Hto.
  destruct (nodeFor_leaf false lbl h f v D t (cnt v - 2) Hs ltac:(lia))
    as (al & Hnf & Hleaf).
  replace ((cnt v - 2) / 32) with (t - 1) in Hleaf by dlia.
  destruct Hs as [Hc [HD1 HD2] Hsh (Ht & Hr & Hz) Hcap (r & Hroot & Htr)
                    (ta & td & Hta & Htd & Hlt & Hlen & Hln & Htl & Hts) Hlbl].
  destruct D as [|d]; [lia|].
  assert (Ht58 : 1 ≤ t < 2 ^ 58) by lia.
  pose proof (pre_nonneg (t - 1) (S d) ltac:(lia)) as Hnn.
  destruct (popTail_ok f t (cnt v) d lbl h 0 r (fuel_for (lvl (S d))) Htr)
    as (h1 & lbl1 & r1 & Hp & Hext1 & Hok1 & Hsl1 & Hr1);
    [lia|done|done|unfold fuel_for, lvl; lia|done|done|].
  cbn [trie] in Hleaf. destruct Hleaf as (Hll & ndl & Hcl & Hlenl & Hkl).
  assert (Hlt_l : (al < next h)%positive) by (by eapply Hlbl).
  assert (Hlen32 : len ndl = 32) by (by eapply Hlf).
  assert (Hlf1 : leaves_full lbl1 h1) by (by apply (leaves_full_ext lbl h)).
  assert (Hhead : Pop v h =
    bind (match r1 with None => new zero_node | Some _ => ret r1 end) (λ newRoot,
      bind (load newRoot) (λ nd,
        bind (if (lvl (S d) >? bits) && negb (non_nil (get nd 1)) then
                bind (if negb (non_nil (get nd 0)) then new zero_node else ret newRoot)
                  (λ newRoot', ret (newRoot', sub64 (lvl (S d)) bits))
              else ret (newRoot, lvl (S d)))
          (λ rs, ret (mkVector (cnt v - 1) (snd rs) (fst rs) (Some al))))) h1).
  { unfold Pop. destruct (Z.leb_spec (cnt v) 1); [lia|]. rewrite Hto.
    rewrite (sub64_id (cnt v) (32 * t)) by (apply int_bounds; lia).
    destruct (Z.gtb_spec (cnt v - 32 * t) 1); [lia|].
    rewrite (sub64_id (cnt v) 2), (sub64_id (cnt v) 1) by (apply int_bounds; lia).
    unfold bind at 1. rewrite Hnf. unfold bind at 1. rewrite Hsh, Hroot, Hp.
    reflexivity. }
  (* the tail of the popped vector is the last leaf *)
  assert (Htail : ∀ lbl' h' w, ext lbl h lbl' h' → tail w = Some al →
            cnt w = cnt v - 1 → tail_ok lbl' h' f w (t - 1)).
  { intros lbl' h' w (Hsub & Hnx & F) Htw Hcw. destruct (F al Hlt_l) as [E1 E2].
    exists al, ndl. split; [done|]. split; [by rewrite E1|]. split; [lia|].
    split; [done|]. split; [lia|]. split.
    - intros q. rewrite E2, Hll. intros Heq. inversion Heq. lia.
    - intros k Hk. apply Hkl. lia. }
  destruct r1 as [a'|].
  - (* the root loses a leaf *)
    destruct Hr1 as (Hle & Htr1 & nd0 & k & s & Hnd0 & Ha' & Hnn').
    assert (Ht2 : 2 ≤ t).
    { destruct (decide (t = 1)) as [->|]; [|lia].
      change (1 - 2) with (-1) in Hle. rewrite pre_neg in Hle. lia. }
    assert (Hcond : (lvl (S d) >? bits) && negb (non_nil (get (put nd0 k s) 1)) = false).
    { destruct d as [|d]; [done|].
      destruct (Hfirm ltac:(lia) Ht2) as (r' & nd' & Hr' & Hnd' & Hnn1).
      assert (r' = r) as -> by congruence. assert (nd' = nd0) as -> by congruence.
      rewrite (get_put_non_nil nd0 k s 1 Hnn' Hnn1). apply andb_false_r. }
    assert (Hal1 : lbl1 !! al = Some (O, t - 1)).
    { destruct Hext1 as (_ & _ & F). destruct (F al Hlt_l) as [_ E]. by rewrite E. }
    exists (mkVector (cnt v - 1) (lvl (S d)) (Some a') (Some al)), h1, lbl1, (S d).
    split; [|split; [|split; [|split; [done|split; [simpl; lia|split; [lia|by exists al]]]]]].
    + rewrite Hhead. unfold bind at 1. unfold ret at 1. unfold bind at 1.
      rewrite (load_ok a' _ h1 Ha'). rewrite Hcond. reflexivity.
    + constructor; cbn [cnt shift root tail]; try done; try lia.
      * pose proof (pre_mono (t - 1 - 1) (t - 1) (S d) ltac:(lia)). lia.
      * by exists a'.
      * by apply Htail.
    + intros HD _. exists a', (put nd0 k s). split; [done|]. split; [done|].
      destruct d as [|d]; [lia|].
      destruct (Hfirm ltac:(lia) Ht2) as (r' & nd' & Hr' & Hnd' & Hnn1).
      assert (r' = r) as -> by congruence. assert (nd' = nd0) as -> by congruence.
      by apply get_put_non_nil.
  - (* the trie becomes empty *)
    assert (t = 1) as ->.
    { destruct (decide (t = 1)); [done|].
      pose proof (pre_nonneg (t - 2) (S d) ltac:(lia)). lia. }
    change (1 - 1) with 0 in *.
    assert (Hfin : ∀ a0 h' d', ext lbl1 h1 lbl1 h' → (next h1 ≤ a0)%positive →
              (a0 < next h')%positive → cells h' !! a0 = Some zero_node →
              lvl (S d') ≤ 60 →
              let w := mkVector (cnt v - 1) (lvl (S d')) (Some a0) (Some al) in
              let lbl' := <[a0 := (S d', 0)]> lbl1 in
              shape false lbl' h' f w (S d') 0 ∧ firm h' w (S d') 0 ∧
              leaves_full lbl' h' ∧ lbl' !! al = Some (O, 0)).
    { intros a0 h' d' Hext' Ha0 Ha0' Hc0 Hlv' w lbl'.
      assert (Hnone : lbl1 !! a0 = None) by (by apply (lbl_ok_ext _ _ Hok1)).
      assert (Hext2 : ext lbl1 h1 lbl' h') by (by apply ext_label).
      assert (Hok' : lbl_ok lbl' h').
      { apply lbl_ok_label; [|done]. intros b l Hb. specialize (Hok1 b l Hb).
        destruct Hext' as (_ & N & _). lia. }
      split; [|split; [|split]].
      4:{ destruct Hext2 as (_ & _ & F2). destruct Hext1 as (_ & N1 & F1).
          destruct (F2 al ltac:(lia)) as [_ E2]. destruct (F1 al Hlt_l) as [_ E1].
          by rewrite E2, E1. }
      - constructor; unfold w; cbn [cnt shift root tail]; try done; try lia.
        + change (0 - 1) with (-1). rewrite pre_neg. lia.
        + exists a0. split; [done|]. apply trie_empty; [|done].
          unfold lbl'. by rewrite lookup_insert_eq.
        + apply Htail; [by eapply ext_trans|done|done].
      - intros _ ?. lia.
      - apply (leaves_full_ext lbl1 h1); [done|done|apply same_leaves_inner|done]. }
    set (nr := next h1). set (h2 := alloc (@zero_node T) h1).
    assert (Hnr2 : cells h2 !! nr = Some zero_node)
      by (unfold h2, nr; by rewrite cells_alloc, decide_True).
    destruct d as [|d].
    + destruct (Hfin nr h2 O) as (Hs' & Hf' & Hlf' & Hal'); [apply ext_alloc|unfold nr; lia|
        unfold nr; simpl; lia|done|done|].
      eexists _, h2, _, 1%nat. split; [|split; [exact Hs'|split; [exact Hf'|
        split; [exact Hlf'|split; [simpl; lia|split; [lia|by exists al]]]]]].
      rewrite Hhead. unfold bind at 1. unfold new at 1. fold h2 nr.
      unfold bind at 1. rewrite (load_ok nr _ h2 Hnr2). reflexivity.
    + set (nr' := next h2). set (h3 := alloc (@zero_node T) h2).
      destruct (Hfin nr' h3 d) as (Hs' & Hf' & Hlf' & Hal');
        [eapply ext_trans; apply ext_alloc|unfold nr'; simpl; lia|
         unfold nr'; simpl; lia|unfold h3, nr'; by rewrite cells_alloc, decide_True|
         unfold lvl in *; lia|].
      eexists _, h3, _, (S d). split; [|split; [exact Hs'|split; [exact Hf'|
        split; [exact Hlf'|split; [simpl; lia|split; [lia|by exists al]]]]]].
      rewrite Hhead. unfold bind at 1. unfold new at 1. fold h2 nr.
      unfold bind at 1. rewrite (load_ok nr _ h2 Hnr2).
      assert (Hlevel : (lvl (S (S d)) >? bits) = true)
        by (rewrite Z.gtb_ltb; apply Z.ltb_lt; unfold lvl, bits; lia).
      rewrite Hlevel. change (get zero_node 1) with (@SNil T).
      change (get zero_node 0) with (@SNil T). cbn [non_nil negb andb].
      unfold bind at 1. unfold bind at 1. unfold new at 1. fold h3 nr'.
      unfold ret at 1. unfold ret at 1. cbn [fst snd].
      rewrite (sub_lvl (S d)) by done. reflexivity.
Qed.

(** [v] stores [xs] in a form that [Pop] handles: the form the constructors
    give, or what [Pop] has made of it. *)
Definition poppable h v (xs : list T) : Prop :=
  cnt v = Z.of_nat (length xs) ∧
  (v = zeroVector ∨
   ∃ lbl D t, shape false lbl h (elems xs) v D t ∧ firm h v D t ∧ leaves_full lbl h).

Lemma poppable_repr h v xs : poppable h v xs → repr h v xs.
Proof.
  intros [Hc [->|(lbl & D & t & Hs & _)]]; (split; [done|]); [by left|].
  by eapply shape_holds.
Qed.

Lemma tall_firm lbl h f v D t : shape true lbl h f v D t → tall D t → firm h v D t.
Proof.
  intros [_ _ _ _ _ (r & Hroot & Htr) _ _] Htall HD Ht.
  destruct D as [|[|d]]; [lia|lia|].
  specialize (Htall HD). replace (S (S d) - 1)%nat with (S d) in Htall by lia.
  cbn [trie] in Htr. destruct Htr as (_ & nd & Hc & _ & Hk).
  destruct (Hk 1 ltac:(lia)) as [H1 _]. destruct H1 as (c & Hs & _); [lia|].
  exists r, nd. split; [done|]. split; [done|].
  by rewrite (get_lookup nd 1 _ Hs).
Qed.

Lemma canonical_poppable h v xs : canonical h v xs → poppable h v xs.
Proof.
  intros [Hc [->|(lbl & D & t & Hs & Ht & Hlf & _)]]; (split; [done|]); [by left|].
  right. exists lbl, D, t. split; [by eapply shape_weaken|].
  split; [by eapply tall_firm|done].
Qed.

Lemma length_removelast (xs : list T) : length (removelast xs) = (length xs - 1)%nat.
Proof. rewrite removelast_firstn_len, length_take. lia. Qed.

Lemma elems_removelast xs j :
  0 ≤ j < Z.of_nat (length xs) - 1 → elems (removelast xs) j = elems xs j.
Proof.
  intros Hj. unfold elems. rewrite !nth_lookup, removelast_firstn_len.
  rewrite lookup_take_lt by lia. done.
Qed.

Lemma Pop_poppable h v xs :
  poppable h v xs → ∃ w h', Pop v h = Ok w h' ∧ poppable h' w (removelast xs).
Proof.
  intros [Hc Hv].
  destruct (decide (cnt v ≤ 1)) as [Hsmall|Hbig].
  { exists zeroVector, h. split.
    - unfold Pop. destruct (Z.leb_spec (cnt v) 1); [done|lia].
    - split; [|by left]. rewrite length_removelast. simpl. lia. }
  destruct Hv as [->|(lbl & D & t & Hs & Hfirm & Hlf)]; [simpl in Hbig; lia|].
  pose proof (sh_leaves _ _ _ _ _ _ _ Hs) as (Ht & Hr & Hz).
  assert (Hcnt : ∀ w, cnt w = cnt v - 1 → cnt w = Z.of_nat (length (removelast xs))).
  { intros w ->. rewrite length_removelast. lia. }
  assert (Hag : ∀ w lbl' h' D' t', cnt w = cnt v - 1 →
    shape false lbl' h' (elems xs) w D' t' →
    shape false lbl' h' (elems (removelast xs)) w D' t').
  { intros w lbl' h' D' t' Hw Hs'. apply (shape_agree false lbl' h' (elems xs)); [done|].
    intros j Hj. apply elems_removelast. lia. }
  destruct (decide (1 < cnt v - 32 * t)) as [Htail|Hone].
  - destruct (Pop_tail false lbl h _ v D t Hs Htail) as (w & h' & Hp & Hs' & Hn & Hrw & _).
    pose proof (Pop_grown v h w h' Hp) as Hg.
    exists w, h'. split; [done|]. split; [by apply Hcnt|].
    right. exists lbl, D, t. split; [by apply Hag|]. split.
    + intros HD Ht2. destruct (Hfirm HD Ht2) as (r & nd & Hroot & Hnd & Hnn).
      exists r, nd. split; [congruence|]. split; [|done].
      destruct (sh_root _ _ _ _ _ _ _ Hs) as (r' & Hr' & Htr').
      assert (r' = r) as -> by congruence.
      destruct Hg as [_ Hg]. rewrite Hg; [done|].
      apply trie_label in Htr'. by eapply (sh_lbl _ _ _ _ _ _ _ Hs).
    + apply (leaves_full_grown lbl h); [by eapply shape_lbl_ok|done|done].
  - destruct (Pop_refill lbl h _ v D t Hs Hfirm Hlf ltac:(lia) ltac:(lia))
      as (w & h' & lbl' & D' & Hp & Hs' & Hf' & Hlf' & Hn & _).
    exists w, h'. split; [done|]. split; [by apply Hcnt|].
    right. exists lbl', D', (t - 1). split; [by apply Hag|]. done.
Qed.

(** [v = v.Pop()], [n] times over. *)
Fixpoint pop_times (n : nat) (v : Vector) : M Vector :=
  match n with
  | O => ret v
  | S n' => bind (Pop v) (pop_times n')
  end.

Lemma pop_times_poppable n : ∀ h v xs,
  poppable h v xs →
  ∃ w h', pop_times n v h = Ok w h' ∧ poppable h' w (take (length xs - n) xs).
Proof.
  induction n as [|n IH]; intros h v xs Hp.
  - exists v, h. split; [done|]. by rewrite Nat.sub_0_r, firstn_all.
  - destruct (Pop_poppable h v xs Hp) as (w1 & h1 & Hpop & Hp1).
    destruct (IH h1 w1 _ Hp1) as (w & h' & Hrun & Hp').
    exists w, h'. split; [cbn [pop_times]; unfold bind; by rewrite Hpop|].
    assert (E : take (length (removelast xs) - n) (removelast xs) =
                take (length xs - S n) xs).
    { rewrite length_removelast, removelast_firstn_len, take_take. f_equal. lia. }
    by rewrite E in Hp'.
Qed.

(** * The recursions end *)

(** A computation that never stops for lack of fuel. *)
Definition fed {A} (m : M A) : Prop := ∀ h, m h ≠ Err Fuel.

Lemma fed_ret {A} (y : A) : fed (ret y).
Proof. intros h. done. Qed.

Lemma fed_fail {A} p : p ≠ Fuel → fed (@fail T A p).
Proof. intros Hp h. unfold fail. congruence. Qed.

Lemma fed_bind {A B} (m : M A) (k : A → M B) :
  fed m → (∀ y, fed (k y)) → fed (bind m k).
Proof.
  intros Hm Hk h. unfold bind. specialize (Hm h).
  destruct (m h) as [y h'|p]; [apply Hk|congruence].
Qed.

Lemma fed_if {A} (c : bool) (m1 m2 : M A) :
  fed m1 → fed m2 → fed (if c then m1 else m2).
Proof. by destruct c. Qed.

Lemma fed_load p : fed (load p).
Proof. intros h. unfold load. destruct p as [a|]; [|done]. by destruct (cells h !! a). Qed.

Lemma fed_store p nd : fed (store p nd).
Proof. intros h. unfold store. destruct p as [a|]; [|done]. by destruct (cells h !! a). Qed.

Lemma fed_new nd : fed (new nd).
Proof. intros h. done. Qed.

Lemma fed_as_node (s : slot) : fed (as_node s).
Proof. intros h. by destruct s. Qed.

Lemma fed_shr x l : fed (@shr T x l).
Proof. intros h. unfold shr. by destruct (l <? 0). Qed.

Lemma fed_shl x l : fed (@shl T x l).
Proof. intros h. unfold shl. by destruct (l <? 0). Qed.

(** What follows a shift runs only when the shift count is not negative. *)
Lemma fed_after_shr {A} x l (k : Z → M A) :
  (0 ≤ l → ∀ y, fed (k y)) → fed (bind (shr x l) k).
Proof.
  intros Hk h. unfold bind, shr. destruct (Z.ltb_spec l 0) as [|Hl]; [done|].
  by apply Hk.
Qed.

Lemma fed_poke p k (s : slot) : fed (poke p k s).
Proof.
  unfold poke. apply fed_bind; [apply fed_load|intros ?; apply fed_store].
Qed.

Lemma fed_clone p : fed (@clone T p).
Proof. unfold clone. apply fed_bind; [apply fed_load|intros ?; apply fed_new]. Qed.

Ltac fed_step :=
  lazymatch goal with
  | |- fed (ret _) => apply fed_ret
  | |- fed (load _) => apply fed_load
  | |- fed (store _ _) => apply fed_store
  | |- fed (new _) => apply fed_new
  | |- fed (as_node _) => apply fed_as_node
  | |- fed (shr _ _) => apply fed_shr
  | |- fed (shl _ _) => apply fed_shl
  | |- fed (poke _ _ _) => apply fed_poke
  | |- fed (clone _) => apply fed_clone
  | |- fed (fail _) => apply fed_fail; discriminate
  | |- fed (bind _ _) => apply fed_bind; [|intros ?]
  | |- fed (if _ then _ else _) => apply fed_if
  | |- fed (let _ := _ in _) => cbv zeta
  end.

Ltac fed_auto := repeat fed_step.

Lemma fed_newPathNode p : fed (@newPathNode T p).
Proof. unfold newPathNode. fed_auto. Qed.

Lemma fed_fill p vs : ∀ i, fed (@fill T p i vs).
Proof.
  induction vs as [|v vs IH]; intros i; cbn [fill]; fed_auto; try apply IH.
Qed.

Lemma fed_newValueNode vs : fed (@newValueNode T vs).
Proof. unfold newValueNode. fed_auto; try apply fed_fill. Qed.

Lemma fed_newVector : fed (@newVector T).
Proof. unfold newVector. fed_auto. Qed.

(** One level down: the subtraction cannot wrap upwards. *)
Lemma sub64_bits_le level : 0 ≤ level → sub64 level bits ≤ level - 5.
Proof.
  intros H. unfold sub64, wrap, bits, min_int, max_int.
  destruct (_ && _); [lia|]. dlia.
Qed.

Lemma fed_newPath fuel : ∀ level p, level ≤ Z.of_nat fuel → fed (newPath fuel level p).
Proof.
  induction fuel as [|fuel IH]; intros level p Hl; cbn [newPath];
    destruct (Z.leb_spec level 0); try apply fed_ret; [lia|].
  apply fed_bind; [|intros ?; apply fed_newPathNode].
  apply IH. pose proof (sub64_bits_le level). lia.
Qed.

Lemma fed_descend fuel : ∀ level p i, level ≤ Z.of_nat fuel → fed (descend fuel level p i).
Proof.
  induction fuel as [|fuel IH]; intros level p i Hl; cbn [descend];
    destruct (Z.gtb_spec level 0); try apply fed_ret; [lia|].
  fed_auto. apply IH. pose proof (sub64_bits_le level). lia.
Qed.

Lemma fed_doAssoc fuel : ∀ level p i x,
  level < Z.of_nat fuel → fed (doAssoc fuel level p i x).
Proof.
  induction fuel as [|fuel IH]; intros level p i x Hl; cbn [doAssoc];
    destruct (Z.eqb_spec level 0).
  - fed_auto.
  - apply fed_after_shr. intros. lia.
  - fed_auto.
  - apply fed_after_shr. intros Hl0 q. fed_auto.
    apply IH. pose proof (sub64_bits_le level). lia.
Qed.

Lemma fed_pushTail fuel : ∀ cn level p tn,
  level < Z.of_nat fuel → fed (pushTail fuel cn level p tn).
Proof.
  induction fuel as [|fuel IH]; intros cn level p tn Hl; cbn [pushTail];
    apply fed_after_shr; intros Hl0 q; [lia|].
  pose proof (sub64_bits_le level Hl0).
  fed_auto; try apply fed_clone; try apply fed_poke.
  - apply IH. lia.
  - apply fed_newPath. unfold fuel_for. lia.
Qed.

Lemma fed_bpushTail fuel : ∀ cn level p tn,
  level < Z.of_nat fuel → fed (bpushTail fuel cn level p tn).
Proof.
  induction fuel as [|fuel IH]; intros cn level p tn Hl; cbn [bpushTail];
    apply fed_after_shr; intros Hl0 q; [lia|].
  pose proof (sub64_bits_le level Hl0).
  fed_auto; try apply fed_poke.
  - apply IH. lia.
  - apply fed_newPath. unfold fuel_for. lia.
Qed.

Lemma fed_popTail fuel : ∀ cn level p,
  level < Z.of_nat fuel → fed (popTail fuel cn level p).
Proof.
  induction fuel as [|fuel IH]; intros cn level p Hl; cbn [popTail];
    apply fed_after_shr; intros Hl0 q; [lia|].
  pose proof (sub64_bits_le level Hl0).
  apply fed_if; [|fed_auto; try apply fed_clone; try apply fed_poke].
  apply fed_bind; [apply fed_load|intros nd].
  apply fed_bind; [apply fed_as_node|intros ch].
  apply fed_bind; [apply IH; lia|intros [c|]];
    fed_auto; try apply fed_clone; try apply fed_poke.
Qed.

Lemma fuel_for_gt level : level < Z.of_nat (fuel_for level).
Proof. unfold fuel_for. lia. Qed.

Lemma fed_cons v x : fed (@cons T v x).
Proof.
  unfold cons. apply fed_bind; [apply fed_if; [apply fed_newVector|apply fed_ret]|].
  intros v1. fed_auto;
    try apply fed_clone; try apply fed_poke; try apply fed_newValueNode.
  - apply fed_newPath. pose proof (fuel_for_gt (shift v1)). lia.
  - apply fed_pushTail, fuel_for_gt.
Qed.

Lemma fed_nodeFor v i : fed (@nodeFor T v i).
Proof. unfold nodeFor. fed_auto. apply fed_descend. lia. Qed.

Lemma fed_At v i : fed (At zeroT v i).
Proof. unfold At. fed_auto. apply fed_nodeFor. Qed.

Lemma fed_Set v i x : fed (@Set_ T v i x).
Proof.
  unfold Set_. fed_auto; try apply fed_clone; try apply fed_poke; try apply fed_cons.
  apply fed_doAssoc, fuel_for_gt.
Qed.

Lemma fed_Pop v : fed (@Pop T v).
Proof.
  unfold Pop. fed_auto; try apply fed_nodeFor.
  - apply fed_popTail, fuel_for_gt.
  - by destruct y0; fed_auto.
Qed.

Lemma fed_transient v : fed (@transient T v).
Proof.
  unfold transient. apply fed_bind; [apply fed_if; [apply fed_newVector|apply fed_ret]|].
  intros v1. fed_auto; apply fed_clone.
Qed.

Lemma fed_Cons (bd : Builder) x : fed (@Cons T bd x).
Proof.
  unfold Cons. fed_auto; try apply fed_clone; try apply fed_poke;
    try apply fed_newValueNode.
  - apply fed_newPath. pose proof (fuel_for_gt (bshift bd)). lia.
  - apply fed_bpushTail, fuel_for_gt.
Qed.

Lemma fed_BAppend ts : ∀ bd : Builder, fed (@BAppend T bd ts).
Proof.
  induction ts as [|x ts IH]; intros bd; cbn [BAppend]; fed_auto;
    [apply fed_Cons|apply IH].
Qed.

Lemma fed_Append v ts : fed (@Append T v ts).
Proof.
  unfold Append. destruct ts as [|x [|y ts]]; fed_auto; try apply fed_cons;
    try apply fed_transient; apply fed_BAppend.
Qed.

Lemma fed_New ts : fed (@New T ts).
Proof.
  unfold New. destruct ts as [|x ts]; fed_auto;
    try apply fed_transient; apply fed_BAppend.
Qed.

Lemma NewBuilder_step f h :
  ∃ (bd : Builder) h' lbl, NewBuilder h = Ok bd h' ∧ bshape lbl h' f bd 1 0 ∧
    tall 1 0 ∧ leaves_full lbl h' ∧ bcnt bd = 0.
Proof.
  destruct (newVector_step h f) as (Hs & Ht & Hlf & _).
  exists (mkBuilder 0 bits (Some (next h)) (Some (next h))), (alloc zero_node h),
         (<[next h := (1%nat, 0)]> ∅).
  split; [done|]. split; [|done]. split; [exact Hs|].
  exists (next h). split; [done|]. right. done.
Qed.

Lemma pop_times_all n : ∀ h v xs,
  poppable h v xs → (length xs ≤ n)%nat → (n = O → v = zeroVector) →
  ∃ h', pop_times n v h = Ok zeroVector h'.
Proof.
  induction n as [|n IH]; intros h v xs Hp Hn Hz.
  - exists h. by rewrite Hz.
  - destruct (decide (cnt v ≤ 1)) as [Hsmall|Hbig].
    + destruct (IH h zeroVector [] ) as (h' & Hrun); [|simpl; lia|done|].
      { split; [done|by left]. }
      exists h'. cbn [pop_times]. unfold bind, Pop.
      destruct (Z.leb_spec (cnt v) 1); [|lia]. exact Hrun.
    + destruct (Pop_poppable h v xs Hp) as (w1 & h1 & Hpop & Hp1).
      pose proof (proj1 Hp) as Hc.
      destruct (IH h1 w1 _ Hp1) as (h' & Hrun).
      { rewrite length_removelast. lia. }
      { intros ->. lia. }
      exists h'. cbn [pop_times]. unfold bind. by rewrite Hpop.
Qed.

(** A leaf label beyond the leaves in use can be dropped. *)
Lemma trie_delete s lbl h f t d b p0 : ∀ q a,
  trie s lbl h f t d q a → lbl !! b = Some (O, p0) → t ≤ p0 → (d = O → q < t) →
  trie s (delete b lbl) h f t d q a.
Proof.
  induction d as [|d IH]; cbn [trie]; intros q a (Hl & nd & Hc & Hlen & Hk) Hb Hp Hq.
  - split; [|eauto]. rewrite lookup_delete_ne; [done|]. intros <-.
    rewrite Hl in Hb. inversion Hb. specialize (Hq eq_refl). lia.
  - split; [rewrite lookup_delete_ne; [done|]; intros <-; congruence|].
    exists nd. do 2 (split; [done|]). intros k Hr.
    destruct (Hk k Hr) as [H1 H2]. split; [|done].
    intros Hle. destruct (H1 Hle) as (c & Hs & Hc'). exists c. split; [done|].
    apply IH; [done..|]. intros ->. rewrite pre_0 in Hle. lia.
Qed.

(** At depth one nothing is asked of the unused slots. *)
Lemma trie_strict_1 lbl h f t q a :
  trie false lbl h f t 1 q a → trie true lbl h f t 1 q a.
Proof.
  cbn [trie]. intros (Hl & nd & Hc & Hlen & Hk). split; [done|].
  exists nd. do 2 (split; [done|]). intros k Hr.
  destruct (Hk k Hr) as [H1 _]. split; [done|]. done.
Qed.

(** A vector in the constructors' form of at most 1056 elements has depth
    one. *)
Lemma canonical_small lbl h f v D t :
  shape true lbl h f v D t → tall D t → cnt v ≤ 1056 → D = 1%nat.
Proof.
  intros Hs Ht Hc. pose proof (sh_leaves _ _ _ _ _ _ _ Hs) as (Ht0 & Hr & Hz).
  pose proof (sh_depth _ _ _ _ _ _ _ Hs) as [HD _].
  destruct (decide (D = 1%nat)) as [|Hne]; [done|]. exfalso.
  specialize (Ht ltac:(lia)).
  destruct (decide (t = 0)) as [->|]; [change (0 - 1) with (-1) in Ht; rewrite pre_neg in Ht; lia|].
  apply pre_ge_1 in Ht; [|lia].
  assert (2 ^ 5 ≤ 2 ^ lvl (D - 1)) by (apply Z.pow_le_mono_r; unfold lvl; lia).
  lia.
Qed.

(** [Pop] on a vector in the constructors' form of depth one. *)
Lemma Pop_small h v xs :
  canonical h v xs → Z.of_nat (length xs) ≤ 1056 →
  ∃ w h', Pop v h = Ok w h' ∧ canonical h' w (removelast xs).
Proof.
  intros [Hc Hv] Hsmall.
  destruct (decide (cnt v ≤ 1)) as [Hle|Hbig].
  { exists zeroVector, h. split.
    - unfold Pop. destruct (Z.leb_spec (cnt v) 1); [done|lia].
    - split; [|by left]. rewrite length_removelast. simpl. lia. }
  destruct Hv as [->|(lbl & D & t & Hs & Ht & Hlf & Hown)]; [simpl in Hbig; lia|].
  assert (D = 1%nat) as -> by (apply (canonical_small lbl h (elems xs) v D t); [done|done|lia]).
  pose proof (sh_leaves _ _ _ _ _ _ _ Hs) as (Ht0 & Hr & Hz).
  assert (Hcnt : ∀ w, cnt w = cnt v - 1 → cnt w = Z.of_nat (length (removelast xs))).
  { intros w ->. rewrite length_removelast. lia. }
  assert (Hag : ∀ j, 0 ≤ j < cnt v - 1 → elems (removelast xs) j = elems xs j).
  { intros j Hj. apply elems_removelast. lia. }
  destruct (decide (1 < cnt v - 32 * t)) as [Htail|Hone].
  - destruct (Pop_tail true lbl h (elems xs) v 1 t Hs Htail) as (w & h' & Hp & Hs' & Hn & Hrw & Htw).
    pose proof (Pop_grown v h w h' Hp) as Hg.
    exists w, h'. split; [done|]. split; [by apply Hcnt|].
    right. exists lbl, 1%nat, t. split; [|split; [done|split]].
    + apply (shape_agree true lbl h' (elems xs)); [done|]. intros j Hj. apply Hag. lia.
    + apply (leaves_full_grown lbl h); [by eapply shape_lbl_ok|done|done].
    + exists (next h). split; [done|]. left.
      apply (lbl_ok_ext _ _ (shape_lbl_ok _ _ _ _ _ _ _ Hs)). lia.
  - destruct (Pop_refill lbl h (elems xs) v 1 t (shape_weaken _ _ _ _ _ _ _ Hs)
                (tall_firm _ _ _ _ _ _ Hs Ht) Hlf ltac:(lia) ltac:(lia))
      as (w & h' & lbl' & D' & Hp & Hs' & Hf' & Hlf' & Hn & HD' & al & Hal & Hlal).
    pose proof (sh_depth _ _ _ _ _ _ _ Hs') as [HD1 _].
    assert (D' = 1%nat) as -> by lia.
    exists w, h'. split; [done|]. split; [by apply Hcnt|].
    right. exists (delete al lbl'), 1%nat, (t - 1). split; [|split; [intros ?; lia|split]].
    + apply (shape_agree true _ h' (elems xs)); [|intros j Hj; apply Hag; lia].
      destruct Hs' as [Hc' HD'' Hsh' Hl' Hcap' (r' & Hroot' & Htr')
                         (ta & td & Hta & Htd & Hlt & Hlen & Hln & Htl & Hts) Hlbl'].
      assert (ta = al) as -> by congruence.
      constructor; try done.
      * exists r'. split; [done|]. apply trie_strict_1.
        apply (trie_delete false lbl' h' (elems xs) (t - 1) 1 al (t - 1)); [done|done|lia|done].
      * exists al, td. do 5 (split; [done|]). split; [|done].
        intros q. by rewrite lookup_delete_eq.
      * intros b l Hb. apply lookup_delete_Some in Hb as [_ Hb]. by eapply Hlbl'.
    + intros b q nd Hb Hcb. apply lookup_delete_Some in Hb as [_ Hb]. by eapply Hlf'.
    + exists al. split; [done|]. left. by rewrite lookup_delete_eq.
Qed.

(** * Further properties of the code *)

(** X1.  The tail offset: for a length that fits an [int], [tailoff] is a
    multiple of 32 between 0 and the length, it leaves at most 32 elements
    to the tail, and at least one when the vector is not empty. *)
Theorem tailoff_bounds v :
  0 ≤ cnt v < 2 ^ 63 →
  0 ≤ tailoff v ≤ cnt v ∧ tailoff v mod 32 = 0 ∧ cnt v - tailoff v ≤ 32 ∧
  (0 < cnt v → 0 < cnt v - tailoff v).
Proof.
  intros Hc. unfold tailoff, width, bits.
  destruct (Z.ltb_spec (cnt v) 32); [dlia|].
  rewrite sub64_id by (apply int_bounds; lia).
  unfold shl64. rewrite shiftr5, shiftl5.
  rewrite wrap_id by (apply int_bounds; dlia). dlia.
Qed.

(** X2.  [At] only reads: whatever the vector, the index and the store, a
    call that returns leaves the store as it was. *)
Theorem At_reads_only v i h x h' : At zeroT v i h = Ok x h' → h' = h.
Proof. apply At_same. Qed.

(** X3.  [Append] on a vector in the constructors' form: for such a vector
    storing [xs] and any [ts] (the total length fitting an [int]),
    [v.Append(ts...)] succeeds and returns a vector, again in that form,
    that stores [xs] followed by [ts]: its length is the sum and [At]
    answers accordingly. *)
Theorem Append_extends h v xs ts :
  canonical h v xs → Z.of_nat (length xs) + Z.of_nat (length ts) < 2 ^ 63 →
  ∃ w h', Append v ts h = Ok w h' ∧ canonical h' w (xs ++ ts) ∧
          Len w = Len v + Z.of_nat (length ts) ∧
          ∀ i x, (xs ++ ts) !! i = Some x → At zeroT w (Z.of_nat i) h' = Ok x h'.
Proof.
  intros Hcan Hb. destruct (Append_canonical h v xs ts Hcan Hb) as (w & h' & Ha & Hw).
  exists w, h'. split; [done|]. split; [done|]. split.
  - unfold Len. rewrite (proj1 Hw), (proj1 Hcan), length_app. lia.
  - intros i x Hi. by apply (repr_At h' w (xs ++ ts)); [apply canonical_repr|].
Qed.

(** X4.  [Set] keeps the constructors' form: on such a vector storing [xs]
    and an index in range, [v.Set(i, x)] returns a vector in that form
    storing [xs] with the element at [i] replaced by [x]. *)
Theorem Set_keeps_canonical h v xs i x :
  canonical h v xs → 0 ≤ i < Len v →
  ∃ w h', Set_ v i x h = Ok w h' ∧ canonical h' w (<[Z.to_nat i := x]> xs).
Proof. apply Set_canonical. Qed.

(** X5.  [Append] of one element is persistent: whatever the receiver, a
    call that returns has written only cells it allocated, so every vector
    that stored a sequence before the call stores it after the call and
    answers every [At] as before. *)
Theorem Append_one_persistent v x h w h' u ys :
  Append v [x] h = Ok w h' → repr h u ys →
  repr h' u ys ∧ ∀ i, obs (At zeroT u i h') = obs (At zeroT u i h).
Proof.
  intros Ha Hr. apply repr_grown_obs; [done|]. by apply (cons_grown v x h w h').
Qed.

(** X6.  [Pop] is persistent: whatever the receiver, a call that returns
    has written only cells it allocated, so every vector that stored a
    sequence before the call stores it after the call and answers every
    [At] as before. *)
Theorem Pop_persistent v h w h' u ys :
  Pop v h = Ok w h' → repr h u ys →
  repr h' u ys ∧ ∀ i, obs (At zeroT u i h') = obs (At zeroT u i h).
Proof.
  intros Hp Hr. apply repr_grown_obs; [done|]. by apply (Pop_grown v h w h').
Qed.

(** X7.  [Set] at an index of the tail is persistent: for an index in range
    at or above the tail offset, a call that returns has written only the
    copy of the tail it made, so every vector that stored a sequence before
    the call stores it after the call and answers every [At] as before. *)
Theorem Set_tail_persistent v i x h w h' u ys :
  Set_ v i x h = Ok w h' → 0 ≤ i < Len v → tailoff v ≤ i → repr h u ys →
  repr h' u ys ∧ ∀ i, obs (At zeroT u i h') = obs (At zeroT u i h).
Proof.
  intros Hs Hi Hto Hr. apply repr_grown_obs; [done|].
  by apply (proj1 (Set_inv v i x h w h' Hs Hi)).
Qed.

(** X8.  [Set] below the tail offset works in place: on a vector storing
    [xs] and an index under the tail offset, [v.Set(i, x)] returns the
    receiver itself, and the receiver now stores [xs] with the element at
    [i] replaced: [v.At(i)] answers [x] after the call. *)
Theorem Set_trie_in_place h v xs i x :
  repr h v xs → 0 ≤ i < tailoff v →
  ∃ h', Set_ v i x h = Ok v h' ∧ repr h' v (<[Z.to_nat i := x]> xs) ∧
        At zeroT v i h' = Ok x h'.
Proof.
  intros [Hc [->|(lbl & D & t & Hs)]] Hi; [cbn in Hi; lia|].
  pose proof (shape_tailoff _ _ _ _ _ _ _ Hs) as Hto.
  pose proof (sh_leaves _ _ _ _ _ _ _ Hs) as (Ht & Hr & Hz).
  assert (Hi' : 0 ≤ i < cnt v) by lia.
  destruct (Set_shape false lbl h _ v D t i x Hs Hi') as (w & h' & Hset & Hs' & Hn).
  destruct (Set_inv v i x h w h' Hset Hi') as (_ & Hin & _).
  destruct (Hin ltac:(lia)) as [-> _].
  exists h'. split; [done|]. split; [split|].
  - by rewrite length_insert.
  - right. exists lbl, D, t.
    apply (shape_agree false lbl h' (fset (elems xs) i x)); [done|].
    intros j Hj. apply elems_insert; lia.
  - rewrite (At_ok false lbl h' _ v D t i Hs' Hi'). unfold fset.
    by rewrite decide_True.
Qed.

(** X9.  [Pop] removes the last element: a vector in the constructors' form
    is in the form [Pop] handles, and on a vector in that form storing [xs],
    [v.Pop()] succeeds and returns a vector in that form storing [xs]
    without its last element, so [Pop] can be called again. *)
Theorem Pop_removes_last h v xs :
  (canonical h v xs → poppable h v xs) ∧
  (poppable h v xs →
   ∃ w h', Pop v h = Ok w h' ∧ poppable h' w (removelast xs) ∧
           Len w = Z.of_nat (length xs - 1) ∧
           ∀ i x, removelast xs !! i = Some x → At zeroT w (Z.of_nat i) h' = Ok x h').
Proof.
  split; [apply canonical_poppable|]. intros Hp.
  destruct (Pop_poppable h v xs Hp) as (w & h' & Hpop & Hw).
  exists w, h'. split; [done|]. split; [done|]. split.
  - unfold Len. by rewrite (proj1 Hw), length_removelast.
  - intros i x Hi. by apply (repr_At h' w (removelast xs)); [apply poppable_repr|].
Qed.

(** X10.  A vector made by [New] can be popped down to nothing: after [n]
    calls of [Pop] on [New(xs...)] the vector stores the first
    [len(xs) - n] elements of [xs], and after [len(xs)] calls it is the zero
    value. *)
Theorem New_then_pops xs n h :
  Z.of_nat (length xs) < 2 ^ 63 →
  ∃ v h1, New xs h = Ok v h1 ∧
    (∃ w h2, pop_times n v h1 = Ok w h2 ∧ repr h2 w (take (length xs - n) xs)) ∧
    (∃ h3, pop_times (length xs) v h1 = Ok zeroVector h3).
Proof.
  intros Hb. destruct (New_canonical xs h Hb) as (v & h1 & Hnew & Hcan).
  pose proof (canonical_poppable h1 v xs Hcan) as Hp.
  exists v, h1. split; [done|]. split.
  - destruct (pop_times_poppable n h1 v xs Hp) as (w & h2 & Hrun & Hw).
    exists w, h2. split; [done|]. by apply poppable_repr.
  - apply (pop_times_all (length xs) h1 v xs Hp); [done|].
    intros Hz. destruct xs; [|done]. unfold New, ret in Hnew. by inversion Hnew.
Qed.

(** X11.  On a vector in the constructors' form, [Append(x)] followed by
    [Pop] gives back the contents: the result has the length of the
    original and answers every [At] as the original did. *)
Theorem Append_then_Pop h v xs x :
  canonical h v xs → Z.of_nat (length xs) + 1 < 2 ^ 63 →
  ∃ w h1 u h2, Append v [x] h = Ok w h1 ∧ Pop w h1 = Ok u h2 ∧
    repr h2 u xs ∧ Len u = Len v ∧
    ∀ i, obs (At zeroT u i h2) = obs (At zeroT v i h).
Proof.
  intros Hcan Hb. destruct (cons_canonical h v xs x Hcan Hb) as (w & h1 & Ha & Hw).
  destruct (Pop_poppable h1 w _ (canonical_poppable _ _ _ Hw)) as (u & h2 & Hp & Hu).
  rewrite removelast_last in Hu. apply poppable_repr in Hu.
  pose proof (canonical_repr h v xs Hcan) as Hv.
  exists w, h1, u, h2. split; [done|]. split; [done|]. split; [done|].
  split; [unfold Len; by rewrite (proj1 Hu), (proj1 Hv)|].
  intros i. rewrite (At_obs h2 u _ i (proj2 Hu)), (At_obs h v _ i (proj2 Hv)).
  by rewrite (proj1 Hu), (proj1 Hv).
Qed.

(** X12.  The recursions end: [nodeFor], [doAssoc], [newPath], both
    [pushTail]s and [popTail] go down by [bits] from the shift of the vector
    and stop or panic before the level is used up, so no public call, on any
    vector and store, stops for lack of fuel. *)
Theorem recursion_is_fed v i x ts h :
  At zeroT v i h ≠ Err Fuel ∧ Set_ v i x h ≠ Err Fuel ∧
  Append v ts h ≠ Err Fuel ∧ Pop v h ≠ Err Fuel ∧ New ts h ≠ Err Fuel ∧
  ∀ bd : Builder, BAppend bd ts h ≠ Err Fuel.
Proof.
  split; [apply fed_At|]. split; [apply fed_Set|]. split; [apply fed_Append|].
  split; [apply fed_Pop|]. split; [apply fed_New|]. intros bd. apply fed_BAppend.
Qed.

(** X13.  [Builder.Append] calls compose: a fresh builder has length 0,
    after [Append(ts1...)] and [Append(ts2...)] its length is the sum of
    the lengths, and [Vector()] then gives a vector in the constructors'
    form storing [ts1] followed by [ts2]. *)
Theorem Builder_appends_compose ts1 ts2 h :
  Z.of_nat (length ts1) + Z.of_nat (length ts2) < 2 ^ 63 →
  ∃ (b0 : Builder) h0 (b1 : Builder) h1 (b2 : Builder) h2,
    NewBuilder h = Ok b0 h0 ∧ BLen b0 = 0 ∧
    BAppend b0 ts1 h0 = Ok b1 h1 ∧ BLen b1 = Z.of_nat (length ts1) ∧
    BAppend b1 ts2 h1 = Ok b2 h2 ∧
    BLen b2 = Z.of_nat (length ts1) + Z.of_nat (length ts2) ∧
    canonical h2 (finish b2) (ts1 ++ ts2).
Proof.
  intros Hb. set (f := elems (ts1 ++ ts2)).
  destruct (NewBuilder_step f h) as (b0 & h0 & lbl0 & Hnb & Hs0 & Ht0 & Hlf0 & Hn0).
  assert (Hseg : segment f 0 (ts1 ++ ts2)) by apply segment_elems.
  destruct (BAppend_step f ts1 lbl0 h0 b0 1 0 Hs0 Ht0 Hlf0)
    as (b1 & h1 & lbl1 & D1 & t1 & Ha1 & Hs1 & Ht1 & Hlf1 & Hn1).
  { rewrite Hn0. lia. }
  { rewrite Hn0. intros j y Hj. apply Hseg. by apply lookup_app_l_Some. }
  destruct (BAppend_step f ts2 lbl1 h1 b1 D1 t1 Hs1 Ht1 Hlf1)
    as (b2 & h2 & lbl2 & D2 & t2 & Ha2 & [Hs2 Hown2] & Ht2 & Hlf2 & Hn2).
  { rewrite Hn1, Hn0. lia. }
  { rewrite Hn1, Hn0. intros j y Hj.
    replace (0 + Z.of_nat (length ts1) + Z.of_nat j)
      with (0 + Z.of_nat (length ts1 + j)) by lia.
    apply Hseg. rewrite lookup_app_r by lia.
    by replace (length ts1 + j - length ts1)%nat with j by lia. }
  exists b0, h0, b1, h1, b2, h2. unfold BLen.
  split; [done|]. split; [done|]. split; [done|]. split; [lia|].
  split; [done|]. split; [lia|]. split.
  - cbn [finish cnt]. rewrite Hn2, Hn1, Hn0, length_app. lia.
  - right. by exists lbl2, D2, t2.
Qed.

Lemma quiet_descend fuel : ∀ level p i, quiet (@descend T fuel level p i).
Proof.
  induction fuel as [|fuel IH]; intros level p i; cbn [descend]; quiet_auto.
  apply IH.
Qed.

Lemma quiet_transient v : quiet (@transient T v).
Proof.
  unfold transient. quiet_auto; try apply quiet_newVector; apply quiet_clone.
Qed.

Lemma quiet_bpushTail fuel : ∀ cn level p tn, quiet (@bpushTail T fuel cn level p tn).
Proof.
  induction fuel as [|fuel IH]; intros cn level p tn; cbn [bpushTail]; quiet_auto;
    try apply quiet_poke; try apply quiet_newPath; try apply IH.
Qed.

Lemma quiet_Cons (bd : Builder) x : quiet (@Cons T bd x).
Proof.
  unfold Cons. quiet_auto;
    try apply quiet_clone; try apply quiet_poke; try apply quiet_newPath;
    try apply quiet_bpushTail; try apply quiet_newValueNode.
Qed.

Lemma quiet_BAppend ts : ∀ bd : Builder, quiet (@BAppend T bd ts).
Proof.
  induction ts as [|x ts IH]; intros bd; cbn [BAppend]; [apply quiet_ret|].
  apply quiet_bind; [apply quiet_Cons|intros bd'; apply IH].
Qed.

Lemma quiet_popTail fuel : ∀ cn level p, quiet (@popTail T fuel cn level p).
Proof.
  induction fuel as [|fuel IH]; intros cn level p; cbn [popTail]; quiet_auto;
    try apply quiet_clone; try apply quiet_poke; try apply IH.
  match goal with |- quiet (match ?r with _ => _ end) => destruct r end;
    quiet_auto; try apply quiet_clone; try apply quiet_poke.
Qed.



(** X14.  The explicit out-of-bounds panic comes from [At] and [Set] only:
    [Append], [New] and [Builder.Append] never raise it, whatever the vector
    and the store, and neither does [Pop] on a vector whose length is an
    [int]. *)
Theorem out_of_bounds_only_from_At_and_Set v ts h :
  Append v ts h ≠ Err OutOfBounds ∧ New ts h ≠ Err OutOfBounds ∧
  (∀ bd : Builder, BAppend bd ts h ≠ Err OutOfBounds) ∧
  (Len v ≤ max_int → Pop v h ≠ Err OutOfBounds).
Proof.
  unfold Len. split; [|split; [|split]].
  - revert h. change (quiet (Append v ts)). unfold Append.
    destruct ts as [|x [|y ts]]; [apply quiet_ret|apply quiet_cons|].
    apply quiet_bind; [apply quiet_cons|intros v1].
    apply quiet_bind; [apply quiet_transient|intros bd].
    apply quiet_bind; [apply quiet_BAppend|intros bd']. apply quiet_ret.
  - revert h. change (quiet (New ts)). unfold New.
    destruct ts as [|x ts]; [apply quiet_ret|].
    apply quiet_bind; [apply quiet_transient|intros bd].
    apply quiet_bind; [apply quiet_BAppend|intros bd']. apply quiet_ret.
  - intros bd. apply quiet_BAppend.
  - intros Hc. revert h. change (quiet (Pop v)). unfold Pop.
    destruct (Z.leb_spec (cnt v) 1) as [|Hbig]; [apply quiet_ret|].
    apply quiet_if; [quiet_auto|].
    apply quiet_bind.
    + unfold nodeFor. rewrite sub64_id by (unfold min_int, max_int in *; lia).
      destruct (Z.geb_spec (cnt v - 2) 0); [|lia].
      destruct (Z.ltb_spec (cnt v - 2) (cnt v)); [|lia]. cbn [andb].
      apply quiet_if; [apply quiet_ret|apply quiet_descend].
    + intros nt. apply quiet_bind; [apply quiet_popTail|]. intros r.
      apply quiet_bind; [destruct r; quiet_auto|]. intros nr. quiet_auto.
Qed.


(** X16.  [Append] keeps its receiver: on a vector in the constructors'
    form storing [xs], after [v.Append(ts...)], for one element or many,
    the receiver [v] still stores [xs] and answers every [At] as before the
    call, although the builder behind a batch append writes, in place,
    inner nodes that [v] shares. *)
Theorem Append_keeps_receiver h v xs ts :
  canonical h v xs → Z.of_nat (length xs) + Z.of_nat (length ts) < 2 ^ 63 →
  ∃ w h', Append v ts h = Ok w h' ∧ repr h' v xs ∧
          ∀ i, obs (At zeroT v i h') = obs (At zeroT v i h).
Proof.
  intros Hcan Hb. destruct (Append_run h v xs ts Hcan Hb) as (w & h' & Ha & _ & Hv').
  pose proof (canonical_repr h v xs Hcan) as Hv.
  exists w, h'. split; [done|]. split; [done|]. intros i.
  by rewrite (At_obs h' v _ i (proj2 Hv')), (At_obs h v _ i (proj2 Hv)).
Qed.

(** X17.  Vectors of depth one compose freely: on a vector in the
    constructors' form of at most 1056 elements, [Pop] succeeds and returns
    a vector in that form storing all but the last element, and an [Append]
    on the popped vector succeeds and stores those elements followed by the
    appended ones. *)
Theorem Pop_then_Append_small h v xs ts :
  canonical h v xs → Z.of_nat (length xs) ≤ 1056 → Z.of_nat (length ts) < 2 ^ 62 →
  ∃ w h1, Pop v h = Ok w h1 ∧ canonical h1 w (removelast xs) ∧
    ∃ u h2, Append w ts h1 = Ok u h2 ∧ canonical h2 u (removelast xs ++ ts).
Proof.
  intros Hcan Hsmall Hb. destruct (Pop_small h v xs Hcan Hsmall) as (w & h1 & Hp & Hw).
  exists w, h1. split; [done|]. split; [done|].
  apply Append_canonical; [done|]. rewrite length_removelast. lia.
Qed.

(** X18.  [At(i)] raises the out-of-bounds panic exactly when [i < 0] or
    [i >= Len()], whatever the vector and the store; on a vector that stores
    a sequence, an index in range returns the element stored there and
    leaves the store as it was. *)
Theorem At_raises_iff h v i :
  (At zeroT v i h = Err OutOfBounds ↔ i < 0 ∨ Len v ≤ i) ∧
  (∀ xs, repr h v xs → 0 ≤ i < Len v → At zeroT v i h = Ok (elems xs i) h).
Proof.
  unfold Len. split; [split|].
  - intros Herr. destruct (decide (0 ≤ i < cnt v)) as [Hin|]; [|lia]. exfalso.
    revert Herr. unfold At, nodeFor.
    destruct (Z.geb_spec i 0); [|lia]. destruct (Z.ltb_spec i (cnt v)); [|lia].
    cbn [andb]. revert h.
    assert (Hd : ∀ fuel level p, quiet (descend fuel level p i)).
    { induction fuel as [|fuel IH]; intros level p; cbn [descend]; quiet_auto.
      apply IH. }
    change (quiet (bind (if i >=? tailoff v then ret (tail v)
                         else descend (Z.to_nat (shift v)) (shift v) (root v) i)
                     (λ n, bind (load n)
                        (λ nd, ret (as_elem zeroT (get nd (Z.land i mask))))))).
    quiet_auto. apply Hd.
  - intros Hi. apply At_out. lia.
  - intros xs [_ Hh] Hi. by apply At_holds.
Qed.

(** X19.  [Set] on the new version: for a vector that stores a sequence and
    an index [i] in range, [w = v.Set(i, x)] has the length of [v], answers
    [x] at [i], and at every other index in range answers what [v] answered
    before the call. *)
Theorem Set_roundtrip h v xs i x :
  repr h v xs → 0 ≤ i < Len v →
  ∃ w h', Set_ v i x h = Ok w h' ∧ Len w = Len v ∧
          At zeroT w i h' = Ok x h' ∧
          ∀ j, 0 ≤ j < Len v → j ≠ i →
               ∃ y, At zeroT v j h = Ok y h ∧ At zeroT w j h' = Ok y h'.
Proof.
  unfold Len. intros [Hc [->|(lbl & D & t & Hs)]] Hi; [simpl in Hi; lia|].
  destruct (Set_shape false lbl h (elems xs) v D t i x Hs Hi) as (w & h' & Hset & Hs' & Hn).
  exists w, h'. split; [done|]. split; [done|]. split.
  - rewrite (At_ok false lbl h' _ w D t i Hs') by lia. unfold fset.
    by rewrite decide_True.
  - intros j Hj Hne. exists (elems xs j). split.
    + by rewrite (At_ok false lbl h _ v D t j Hs).
    + rewrite (At_ok false lbl h' _ w D t j Hs') by lia. unfold fset.
      by rewrite decide_False.
Qed.

End Proofs.

(** * The claims the code breaks, run on concrete vectors of integers *)

(** The integers [1 .. n]. *)
Definition iota (n : Z) : list Z :=
  snd (Z.iter n (λ '(k, l), (k - 1, k :: l)) (n, [])).

(** [v = v.Pop()], [n] times. *)
Definition pops (n : Z) (v : Vector) : @M Z Vector :=
  Z.iter n (λ m, bind m Pop) (ret v).

(** Slot [k] of the node behind [p]. *)
Definition slot_at (p : ptr) (k : Z) (h : @heap Z) : @slot Z :=
  match p with
  | Some a => match cells h !! a with Some nd => get nd k | None => SNil end
  | None => SNil
  end.

(** [v := New(xs...); w := v.Set(i, x)]: what [v.At(i)] answers before and
    after the call, and what [w.At(i)] answers. *)
Definition set_then_read (xs : list Z) (i x : Z) :
    option ((Z + panic) * (Z + panic) * (Z + panic)) :=
  match New xs empty_heap with
  | Ok v h =>
      match Set_ v i x h with
      | Ok w h' => Some (obs (At 0 v i h), obs (At 0 v i h'), obs (At 0 w i h'))
      | Err _ => None
      end
  | Err _ => None
  end.

(** What a slot holds, without the address. *)
Inductive kind := NilInterface | NilPointer | NodePointer | Element | NodeStruct.

Definition kind_of (s : @slot Z) : kind :=
  match s with
  | SNil => NilInterface
  | SPtr None => NilPointer
  | SPtr (Some _) => NodePointer
  | SVal _ => Element
  | SZeroNode => NodeStruct
  end.

(** What the tail-refill path of [v.Pop()] does to the root: the shift of
    [v], what slots 1 and 0 of the root returned by [popTail] hold, the
    shift of the popped vector, whether its root is that returned root, and
    whether its root is the child in slot 0 of that returned root. *)
Definition refill_report (v : Vector) (h : @heap Z) :
    option (Z * kind * kind * Z * bool * bool) :=
  match popTail (fuel_for (shift v)) (cnt v) (shift v) (root v) h with
  | Ok r h1 =>
      match Pop v h with
      | Ok w _ =>
          Some (shift v, kind_of (slot_at r 1 h1), kind_of (slot_at r 0 h1),
                shift w, bool_decide (root w = r),
                match slot_at r 0 h1 with
                | SPtr c => bool_decide (root w = c)
                | _ => false
                end)
      | Err _ => None
      end
  | Err _ => None
  end.

(** The report for [v := New(xs...)]. *)
Definition refill_of (xs : list Z) : option (Z * kind * kind * Z * bool * bool) :=
  match New xs empty_heap with
  | Ok v h => refill_report v h
  | Err _ => None
  end.

(** [w := New(xs...).Pop()], then [w.Append(x)]: the length of [w] and the
    outcome of the append (the new length, or the panic). *)
Definition pop_then_append (xs : list Z) (x : Z) : option (Z * (Z + panic)) :=
  match bind (New xs) Pop empty_heap with
  | Ok w h => Some (Len w, obs (bind (Append w [x]) (λ u, ret (Len u)) h))
  | Err _ => None
  end.

(** A longer life: [New(xs...)], [n] pops, the elements [ys] appended one
    call at a time, one [Pop] (the report of that [Pop], and [At(i)] before
    and after it), then [m] more pops and one last [Pop]: the length before
    it and its outcome (the new length, or the panic). *)
Definition long_life (xs : list Z) (n : Z) (ys : list Z) (i m : Z) :
    option (option (Z * kind * kind * Z * bool * bool) *
            (Z + panic) * (Z + panic) * Z * (Z + panic)) :=
  match
    bind (New xs) (λ v0,
    bind (pops n v0) (λ v1, append_each v1 ys)) empty_heap
  with
  | Ok v2 h2 =>
      match Pop v2 h2 with
      | Ok v3 h3 =>
          match pops m v3 h3 with
          | Ok v5 h5 =>
              Some (refill_report v2 h2, obs (At 0 v2 i h2), obs (At 0 v3 i h3),
                    Len v5, obs (bind (Pop v5) (λ u, ret (Len u)) h5))
          | Err _ => None
          end
      | Err _ => None
      end
  | Err _ => None
  end.

(** [New(xs...)], [n] pops and the elements [ys] appended one call at a
    time give a vector [v]; then [w := v.Pop()].  The lengths of [v] and of
    [w] and, for each index [i] of [js], what [v.At(i)] answers before the
    [Pop] and what [w.At(i)] answers after it. *)
Definition reads_after_pop (xs : list Z) (n : Z) (ys js : list Z) :
    option (Z * Z * list (Z * (Z + panic) * (Z + panic))) :=
  match
    bind (New xs) (λ v0,
    bind (pops n v0) (λ v1, append_each v1 ys)) empty_heap
  with
  | Ok v h =>
      match Pop v h with
      | Ok w h' =>
          Some (Len v, Len w,
                map (λ i, (i, obs (At 0 v i h), obs (At 0 w i h'))) js)
      | Err _ => None
      end
  | Err _ => None
  end.

(** The same vector [w]: its length and, for each index [i] of [js], the
    outcome of [w.Set(i, x)] (the length of the result, or the panic). *)
Definition sets_after_pop (xs : list Z) (n : Z) (ys js : list Z) (x : Z) :
    option (Z * list (Z * (Z + panic))) :=
  match
    bind (New xs) (λ v0,
    bind (pops n v0) (λ v1,
    bind (append_each v1 ys) Pop)) empty_heap
  with
  | Ok w h =>
      Some (Len w,
            map (λ i, (i, obs (bind (Set_ w i x) (λ u, ret (Len u)) h))) js)
  | Err _ => None
  end.

Lemma long_life_run :
  long_life (iota 32801) 32769 (iota 33) 5 33 =
    Some (Some (10, NilInterface, NodePointer, 5, true, false),
          inl 6, inl 0, 31, inr BadSlice).
Proof. vm_compute. reflexivity. Qed.

(** C1.  Persistence fails for [Set]: on [v = New(1, ..., 33)], [v.At(0)]
    answers 1; after [w = v.Set(0, 99)], the original [v] answers 99 at
    index 0, as [w] does.  [doAssoc] writes the leaf it shares with [v]. *)
Theorem Set_alters_original :
  set_then_read (iota 33) 0 99 = Some (inl 1, inl 99, inl 99).
Proof. vm_compute. reflexivity. Qed.

(** C2.  The root collapse of [Pop] fails both ways.  On [New(1, ..., 1057)]
    slot 1 of the root is a nil node pointer after the removal and the shift
    is 10, yet the popped vector keeps shift 10: the nil pointer in the
    interface slot does not compare equal to nil.  On the 65-element vector
    of [long_life], slot 1 is the nil interface and the shift is 10; the
    popped vector has shift 5, but its root is the root [popTail] returned,
    not the child in its slot 0, and [At(5)] then answers 0 instead of 6. *)
Theorem Pop_collapse_wrong :
  refill_of (iota 1057) = Some (10, NilPointer, NodePointer, 10, true, false) ∧
  fst <$> (fst <$> (fst <$> (fst <$> long_life (iota 32801) 32769 (iota 33) 5 33))) =
    Some (Some (10, NilInterface, NodePointer, 5, true, false)) ∧
  (λ r, (snd (fst (fst (fst r))), snd (fst (fst r)))) <$>
    long_life (iota 32801) 32769 (iota 33) 5 33 = Some (inl 6, inl 0).
Proof.
  split; [vm_compute; reflexivity|]. rewrite long_life_run. split; reflexivity.
Qed.

(** C3.  [Append] then [Pop] is not an inverse on every vector: on
    [w = New(1, ..., 1057).Pop()], of length 1056, [w.Append(7)] panics with
    a nil dereference, so there is nothing to pop. *)
Theorem Append_after_Pop_panics :
  pop_then_append (iota 1057) 7 = Some (1056, inr NilDeref).
Proof. vm_compute. reflexivity. Qed.

(** C6.  [At] can fail, and can answer wrongly, at an index in range.  On
    the 97-element vector reached by [New(1, ..., 32801)], 32769 pops and
    the single appends of 1, ..., 65, [At] answers 6 at index 5, 1 at index
    32 and 33 at index 64.  After one more [Pop], with 96 elements left,
    [At(5)] answers 0 and [At(32)] panics on a type assertion; only [At(64)],
    in the tail, still answers 33.  That [Pop] lowered the shift and kept the
    root. *)
Theorem At_fails_in_range :
  reads_after_pop (iota 32801) 32769 (iota 65) [5; 32; 64] =
    Some (97, 96, [(5, inl 6, inl 0); (32, inl 1, inr BadAssert);
                   (64, inl 33, inl 33)]).
Proof. vm_compute. reflexivity. Qed.

(** C8.  [Set] can fail at an index in range: on that 96-element vector,
    [Set(32, 99)], [Set(40, 99)] and [Set(63, 99)] panic on the type
    assertion of [doAssoc]. *)
Theorem Set_fails_in_range :
  sets_after_pop (iota 32801) 32769 (iota 65) [32; 40; 63] 99 =
    Some (96, [(32, inr BadAssert); (40, inr BadAssert); (63, inr BadAssert)]).
Proof. vm_compute. reflexivity. Qed.

(** C9.  [Pop] can fail: the 31-element vector at the end of [long_life]
    makes [Pop] panic on a slice bound. *)
Theorem Pop_panics :
  (λ r, (snd (fst r), snd r)) <$> long_life (iota 32801) 32769 (iota 33) 5 33 =
    Some (31, inr BadSlice).
Proof. rewrite long_life_run. reflexivity. Qed.

(** * Witnesses *)

Lemma iota_40_length : Z.of_nat (length (iota 40)) < 2 ^ 63.
Proof. reflexivity. Qed.

Lemma iota_40_count : Z.of_nat (length (iota 40)) = 40.
Proof. reflexivity. Qed.

Lemma New_correct_witness :
  Z.of_nat (length (iota 40)) < 2 ^ 63 ∧
  ∃ v h', New (iota 40) empty_heap = Ok v h' ∧ Len v = Z.of_nat (length (iota 40)) ∧
          ∀ i x, iota 40 !! i = Some x → At 0 v (Z.of_nat i) h' = Ok x h'.
Proof.
  split; [reflexivity|]. apply (New_correct 0 (iota 40) empty_heap). reflexivity.
Defined.

Lemma build_equiv_witness :
  Z.of_nat (length (iota 40)) < 2 ^ 63 ∧
  ∃ v1 k1 v2 k2 v3 k3 v4 k4,
    append_each zeroVector (iota 40) empty_heap = Ok v1 k1 ∧
    Append zeroVector (iota 40) empty_heap = Ok v2 k2 ∧
    New (iota 40) empty_heap = Ok v3 k3 ∧
    via_builder (iota 40) empty_heap = Ok v4 k4 ∧
    Len v1 = Z.of_nat (length (iota 40)) ∧
    Len v2 = Len v1 ∧ Len v3 = Len v1 ∧ Len v4 = Len v1 ∧
    ∀ i, obs (At 0 v2 i k2) = obs (At 0 v1 i k1) ∧
         obs (At 0 v3 i k3) = obs (At 0 v1 i k1) ∧
         obs (At 0 v4 i k4) = obs (At 0 v1 i k1).
Proof.
  split; [reflexivity|].
  apply (build_equiv 0 (iota 40) empty_heap empty_heap empty_heap empty_heap).
  reflexivity.
Defined.

Lemma Set_boundary_witness :
  (0 = Len zeroVector ∧
   Set_ zeroVector 0 7 empty_heap = Append zeroVector [7] empty_heap) ∧
  (0 ≤ Len zeroVector ∧
   (Set_ zeroVector 0 7 empty_heap = Err OutOfBounds ↔ 0 < 0 ∨ Len zeroVector < 0)).
Proof.
  split.
  - split; [reflexivity|].
    apply (proj1 (Set_boundary (T:=Z) empty_heap zeroVector 0 7)). reflexivity.
  - split; [reflexivity|].
    apply (proj2 (Set_boundary (T:=Z) empty_heap zeroVector 0 7)). reflexivity.
Defined.

(** * Witnesses of the further properties *)

Lemma tailoff_bounds_witness :
  0 ≤ cnt (mkVector 40 5 None None) < 2 ^ 63 ∧
  (0 ≤ tailoff (mkVector 40 5 None None) ≤ cnt (mkVector 40 5 None None) ∧
   tailoff (mkVector 40 5 None None) mod 32 = 0 ∧
   cnt (mkVector 40 5 None None) - tailoff (mkVector 40 5 None None) ≤ 32 ∧
   (0 < cnt (mkVector 40 5 None None) →
    0 < cnt (mkVector 40 5 None None) - tailoff (mkVector 40 5 None None))).
Proof.
  split; [cbn; lia|]. apply (tailoff_bounds (mkVector 40 5 None None)). cbn. lia.
Defined.

Lemma iota_40_tailoff v : cnt v = Z.of_nat (length (iota 40)) → tailoff v = 32.
Proof. intros Hc. unfold tailoff. rewrite Hc. reflexivity. Qed.

Lemma At_reads_only_witness :
  ∃ v h x h', New (iota 40) empty_heap = Ok v h ∧ At 0 v 3 h = Ok x h' ∧ h' = h.
Proof.
  destruct (New_repr 0 (iota 40) empty_heap iota_40_length) as (v & h & Hn & Hr).
  assert (Hi : 0 ≤ 3 < cnt v) by (rewrite (proj1 Hr), iota_40_count; lia).
  pose proof (At_holds 0 h v _ 3 (proj2 Hr) Hi) as HAt.
  exists v, h, (elems 0 (iota 40) 3), h. split; [exact Hn|]. split; [exact HAt|].
  exact (At_reads_only 0 v 3 h _ h HAt).
Defined.

Lemma Append_extends_witness :
  ∃ v h, New (iota 40) empty_heap = Ok v h ∧ canonical 0 h v (iota 40) ∧
    Z.of_nat (length (iota 40)) + Z.of_nat (length [41; 42]) < 2 ^ 63 ∧
    ∃ w h', Append v [41; 42] h = Ok w h' ∧ canonical 0 h' w (iota 40 ++ [41; 42]) ∧
      Len w = Len v + Z.of_nat (length [41; 42]) ∧
      ∀ i x, (iota 40 ++ [41; 42]) !! i = Some x → At 0 w (Z.of_nat i) h' = Ok x h'.
Proof.
  destruct (New_canonical 0 (iota 40) empty_heap iota_40_length) as (v & h & Hn & Hcan).
  assert (Hb : Z.of_nat (length (iota 40)) + Z.of_nat (length [41; 42]) < 2 ^ 63)
    by reflexivity.
  exists v, h. split; [exact Hn|]. split; [exact Hcan|]. split; [exact Hb|].
  exact (Append_extends 0 h v (iota 40) [41; 42] Hcan Hb).
Defined.

Lemma Set_keeps_canonical_witness :
  ∃ v h, New (iota 40) empty_heap = Ok v h ∧ canonical 0 h v (iota 40) ∧
    0 ≤ 3 < Len v ∧
    ∃ w h', Set_ v 3 99 h = Ok w h' ∧ canonical 0 h' w (<[Z.to_nat 3 := 99]> (iota 40)).
Proof.
  destruct (New_canonical 0 (iota 40) empty_heap iota_40_length) as (v & h & Hn & Hcan).
  assert (Hi : 0 ≤ 3 < Len v).
  { unfold Len. rewrite (proj1 Hcan), iota_40_count. lia. }
  exists v, h. split; [exact Hn|]. split; [exact Hcan|]. split; [exact Hi|].
  exact (Set_keeps_canonical 0 h v (iota 40) 3 99 Hcan Hi).
Defined.

Lemma Append_one_persistent_witness :
  ∃ v h w h', New (iota 40) empty_heap = Ok v h ∧ Append v [7] h = Ok w h' ∧
    repr 0 h v (iota 40) ∧
    (repr 0 h' v (iota 40) ∧ ∀ i, obs (At 0 v i h') = obs (At 0 v i h)).
Proof.
  destruct (New_canonical 0 (iota 40) empty_heap iota_40_length) as (v & h & Hn & Hcan).
  destruct (cons_canonical 0 h v (iota 40) 7 Hcan) as (w & h' & Ha & _); [reflexivity|].
  pose proof (canonical_repr 0 h v (iota 40) Hcan) as Hr.
  exists v, h, w, h'. split; [exact Hn|]. split; [exact Ha|]. split; [exact Hr|].
  exact (Append_one_persistent 0 v 7 h w h' v (iota 40) Ha Hr).
Defined.

Lemma Pop_persistent_witness :
  ∃ v h w h', New (iota 40) empty_heap = Ok v h ∧ Pop v h = Ok w h' ∧
    repr 0 h v (iota 40) ∧
    (repr 0 h' v (iota 40) ∧ ∀ i, obs (At 0 v i h') = obs (At 0 v i h)).
Proof.
  destruct (New_canonical 0 (iota 40) empty_heap iota_40_length) as (v & h & Hn & Hcan).
  destruct (Pop_poppable 0 h v (iota 40) (canonical_poppable 0 h v _ Hcan))
    as (w & h' & Hp & _).
  pose proof (canonical_repr 0 h v (iota 40) Hcan) as Hr.
  exists v, h, w, h'. split; [exact Hn|]. split; [exact Hp|]. split; [exact Hr|].
  exact (Pop_persistent 0 v h w h' v (iota 40) Hp Hr).
Defined.

Lemma Set_tail_persistent_witness :
  ∃ v h w h', New (iota 40) empty_heap = Ok v h ∧ Set_ v 35 99 h = Ok w h' ∧
    0 ≤ 35 < Len v ∧ tailoff v ≤ 35 ∧ repr 0 h v (iota 40) ∧
    (repr 0 h' v (iota 40) ∧ ∀ i, obs (At 0 v i h') = obs (At 0 v i h)).
Proof.
  destruct (New_canonical 0 (iota 40) empty_heap iota_40_length) as (v & h & Hn & Hcan).
  assert (Hi : 0 ≤ 35 < Len v).
  { unfold Len. rewrite (proj1 Hcan), iota_40_count. lia. }
  assert (Hto : tailoff v ≤ 35) by (rewrite (iota_40_tailoff v (proj1 Hcan)); lia).
  destruct (Set_canonical 0 h v (iota 40) 35 99 Hcan Hi) as (w & h' & Hs & _).
  pose proof (canonical_repr 0 h v (iota 40) Hcan) as Hr.
  exists v, h, w, h'. split; [exact Hn|]. split; [exact Hs|]. split; [exact Hi|].
  split; [exact Hto|]. split; [exact Hr|].
  exact (Set_tail_persistent 0 v 35 99 h w h' v (iota 40) Hs Hi Hto Hr).
Defined.

Lemma Set_trie_in_place_witness :
  ∃ v h, New (iota 40) empty_heap = Ok v h ∧ repr 0 h v (iota 40) ∧
    0 ≤ 3 < tailoff v ∧
    ∃ h', Set_ v 3 99 h = Ok v h' ∧ repr 0 h' v (<[Z.to_nat 3 := 99]> (iota 40)) ∧
          At 0 v 3 h' = Ok 99 h'.
Proof.
  destruct (New_repr 0 (iota 40) empty_heap iota_40_length) as (v & h & Hn & Hr).
  assert (Hi : 0 ≤ 3 < tailoff v) by (rewrite (iota_40_tailoff v (proj1 Hr)); lia).
  exists v, h. split; [exact Hn|]. split; [exact Hr|]. split; [exact Hi|].
  exact (Set_trie_in_place 0 h v (iota 40) 3 99 Hr Hi).
Defined.

Lemma Pop_removes_last_witness :
  ∃ v h, New (iota 40) empty_heap = Ok v h ∧ canonical 0 h v (iota 40) ∧
    poppable 0 h v (iota 40) ∧
    ∃ w h', Pop v h = Ok w h' ∧ poppable 0 h' w (removelast (iota 40)) ∧
      Len w = Z.of_nat (length (iota 40) - 1) ∧
      ∀ i x, removelast (iota 40) !! i = Some x → At 0 w (Z.of_nat i) h' = Ok x h'.
Proof.
  destruct (New_canonical 0 (iota 40) empty_heap iota_40_length) as (v & h & Hn & Hcan).
  pose proof (proj1 (Pop_removes_last 0 h v (iota 40)) Hcan) as Hp.
  exists v, h. split; [exact Hn|]. split; [exact Hcan|]. split; [exact Hp|].
  exact (proj2 (Pop_removes_last 0 h v (iota 40)) Hp).
Defined.

Lemma New_then_pops_witness :
  Z.of_nat (length (iota 40)) < 2 ^ 63 ∧
  ∃ v h1, New (iota 40) empty_heap = Ok v h1 ∧
    (∃ w h2, pop_times 9 v h1 = Ok w h2 ∧
             repr 0 h2 w (take (length (iota 40) - 9) (iota 40))) ∧
    (∃ h3, pop_times (length (iota 40)) v h1 = Ok zeroVector h3).
Proof.
  split; [reflexivity|].
  apply (New_then_pops 0 (iota 40) 9 empty_heap). reflexivity.
Defined.

Lemma Append_then_Pop_witness :
  ∃ v h, New (iota 40) empty_heap = Ok v h ∧ canonical 0 h v (iota 40) ∧
    Z.of_nat (length (iota 40)) + 1 < 2 ^ 63 ∧
    ∃ w h1 u h2, Append v [7] h = Ok w h1 ∧ Pop w h1 = Ok u h2 ∧
      repr 0 h2 u (iota 40) ∧ Len u = Len v ∧
      ∀ i, obs (At 0 u i h2) = obs (At 0 v i h).
Proof.
  destruct (New_canonical 0 (iota 40) empty_heap iota_40_length) as (v & h & Hn & Hcan).
  assert (Hb : Z.of_nat (length (iota 40)) + 1 < 2 ^ 63) by reflexivity.
  exists v, h. split; [exact Hn|]. split; [exact Hcan|]. split; [exact Hb|].
  exact (Append_then_Pop 0 h v (iota 40) 7 Hcan Hb).
Defined.

Lemma Builder_appends_compose_witness :
  Z.of_nat (length (iota 40)) + Z.of_nat (length [41; 42]) < 2 ^ 63 ∧
  ∃ (b0 : Builder) h0 (b1 : Builder) h1 (b2 : Builder) h2,
    NewBuilder empty_heap = Ok b0 h0 ∧ BLen b0 = 0 ∧
    BAppend b0 (iota 40) h0 = Ok b1 h1 ∧ BLen b1 = Z.of_nat (length (iota 40)) ∧
    BAppend b1 [41; 42] h1 = Ok b2 h2 ∧
    BLen b2 = Z.of_nat (length (iota 40)) + Z.of_nat (length [41; 42]) ∧
    canonical 0 h2 (finish b2) (iota 40 ++ [41; 42]).
Proof.
  split; [reflexivity|].
  apply (Builder_appends_compose 0 (iota 40) [41; 42] empty_heap). reflexivity.
Defined.

Lemma out_of_bounds_only_from_At_and_Set_witness :
  Len zeroVector ≤ max_int ∧ Pop (T:=Z) zeroVector empty_heap ≠ Err OutOfBounds.
Proof.
  assert (Hl : Len zeroVector ≤ max_int) by (cbn; unfold max_int; lia).
  split; [exact Hl|].
  exact (proj2 (proj2 (proj2
    (out_of_bounds_only_from_At_and_Set (T:=Z) zeroVector [] empty_heap))) Hl).
Defined.





Lemma Append_keeps_receiver_witness :
  ∃ v h, New (iota 40) empty_heap = Ok v h ∧ canonical 0 h v (iota 40) ∧
    Z.of_nat (length (iota 40)) + Z.of_nat (length (iota 40)) < 2 ^ 63 ∧
    ∃ w h', Append v (iota 40) h = Ok w h' ∧ repr 0 h' v (iota 40) ∧
            ∀ i, obs (At 0 v i h') = obs (At 0 v i h).
Proof.
  destruct (New_canonical 0 (iota 40) empty_heap iota_40_length) as (v & h & Hn & Hcan).
  assert (Hb : Z.of_nat (length (iota 40)) + Z.of_nat (length (iota 40)) < 2 ^ 63)
    by reflexivity.
  exists v, h. split; [exact Hn|]. split; [exact Hcan|]. split; [exact Hb|].
  exact (Append_keeps_receiver 0 h v (iota 40) (iota 40) Hcan Hb).
Defined.

Lemma iota_33_length : Z.of_nat (length (iota 33)) < 2 ^ 63.
Proof. reflexivity. Qed.

Lemma Pop_then_Append_small_witness :
  ∃ v h, New (iota 33) empty_heap = Ok v h ∧ canonical 0 h v (iota 33) ∧
    Z.of_nat (length (iota 33)) ≤ 1056 ∧ Z.of_nat (length [7; 8]) < 2 ^ 62 ∧
    ∃ w h1, Pop v h = Ok w h1 ∧ canonical 0 h1 w (removelast (iota 33)) ∧
      ∃ u h2, Append w [7; 8] h1 = Ok u h2 ∧
              canonical 0 h2 u (removelast (iota 33) ++ [7; 8]).
Proof.
  destruct (New_canonical 0 (iota 33) empty_heap iota_33_length) as (v & h & Hn & Hcan).
  assert (Hs : Z.of_nat (length (iota 33)) ≤ 1056) by (vm_compute; discriminate).
  assert (Hb : Z.of_nat (length [7; 8]) < 2 ^ 62) by reflexivity.
  exists v, h. split; [exact Hn|]. split; [exact Hcan|]. split; [exact Hs|].
  split; [exact Hb|].
  exact (Pop_then_Append_small 0 h v (iota 33) [7; 8] Hcan Hs Hb).
Defined.

Lemma At_raises_iff_witness :
  ∃ v h, New (iota 40) empty_heap = Ok v h ∧ repr 0 h v (iota 40) ∧
         0 ≤ 35 < Len v ∧ At 0 v 35 h = Ok (elems 0 (iota 40) 35) h.
Proof.
  destruct (New_repr 0 (iota 40) empty_heap iota_40_length) as (v & h & Hn & Hr).
  exists v, h. split; [exact Hn|]. split; [exact Hr|].
  assert (Hi : 0 ≤ 35 < Len v).
  { unfold Len. rewrite (proj1 Hr), iota_40_count. lia. }
  split; [exact Hi|].
  exact (proj2 (At_raises_iff 0 h v 35) (iota 40) Hr Hi).
Defined.

Lemma Set_roundtrip_witness :
  ∃ v h, New (iota 40) empty_heap = Ok v h ∧ repr 0 h v (iota 40) ∧ 0 ≤ 3 < Len v ∧
    ∃ w h', Set_ v 3 99 h = Ok w h' ∧ Len w = Len v ∧
            At 0 w 3 h' = Ok 99 h' ∧
            ∀ j, 0 ≤ j < Len v → j ≠ 3 →
                 ∃ y, At 0 v j h = Ok y h ∧ At 0 w j h' = Ok y h'.
Proof.
  destruct (New_repr 0 (iota 40) empty_heap iota_40_length) as (v & h & Hn & Hr).
  exists v, h. split; [exact Hn|]. split; [exact Hr|].
  assert (Hi : 0 ≤ 3 < Len v).
  { unfold Len. rewrite (proj1 Hr), iota_40_count. lia. }
  split; [exact Hi|].
  exact (Set_roundtrip 0 h v (iota 40) 3 99 Hr Hi).
Defined.
